(** * mame_to_batocera: a shallow embedding of the MAME DAT to Batocera
    gamelist converter, and the properties of its merge and generation
    logic.

  Conventions of the embedding.

  - A Python [str] is a [string], one character per code point; only
    code points below 256 are represented, and the character classes
    ([py_isspace], [py_isdigit], [re_digit], [py_lower]) are the ones of
    Python's [str] methods on that range.
  - The metadata dictionaries (catalogs and their per-machine records)
    are only read through lookups, membership tests and
    [sorted(d.keys())], and their loops treat every key independently, so
    they are finite maps ([gmap]).  The dictionaries whose iteration
    order reaches the output (the existing gamelist, the media indices)
    are insertion-ordered association lists ([odict]).
  - [processed_games] is a finite set ([gset]).
  - An [xml.etree.ElementTree.Element] is the inductive [Element]; the
    in-place mutations of the source become functions returning the
    mutated element.
  - A [pathlib.Path] is its string, [str(Path(p))] (POSIX flavour).  The
    file system is a finite map from such strings to directories, files
    and archives: there are no symbolic links, no stored path has a [..]
    step, and the working directory has no absolute name in the map, so
    that different keys name different files.  Failures of the operating
    system other than a missing path or a path of the wrong kind
    (permissions, a full disk) are not part of the model. *)

From Stdlib Require Import String Ascii List Bool Arith Lia.
From stdpp Require Import base option list strings gmap sorting pretty.

Local Open Scope list_scope.
Local Open Scope string_scope.

(** ** Python string primitives *)

Module PyStr.

Definition code (a : ascii) : nat := nat_of_ascii a.

(** [str.isspace] on one character (code points below 256). *)
Definition py_isspace (a : ascii) : bool :=
  let n := code a in
  (((9 <=? n) && (n <=? 13)) || ((28 <=? n) && (n <=? 32))
   || (n =? 133) || (n =? 160))%nat.

(** [str.isdigit] on one character: the decimal digits and the three
    superscript digits of Latin-1. *)
Definition py_isdigit (a : ascii) : bool :=
  let n := code a in
  (((48 <=? n) && (n <=? 57)) || (n =? 178) || (n =? 179) || (n =? 185))%nat.

(** The class [\d] of the [re] module: decimal digits only. *)
Definition re_digit (a : ascii) : bool :=
  let n := code a in ((48 <=? n) && (n <=? 57))%nat.

(** [str.lower] on one character. *)
Definition py_lower (a : ascii) : ascii :=
  let n := code a in
  if (((65 <=? n) && (n <=? 90))
      || ((192 <=? n) && (n <=? 222) && negb (n =? 215)))%nat
  then ascii_of_nat (n + 32) else a.

Fixpoint all_chars (p : ascii -> bool) (s : string) : bool :=
  match s with
  | EmptyString => true
  | String a s' => p a && all_chars p s'
  end.

Fixpoint map_chars (f : ascii -> ascii) (s : string) : string :=
  match s with
  | EmptyString => EmptyString
  | String a s' => String (f a) (map_chars f s')
  end.

(** [s.lower()] *)
Definition lower (s : string) : string := map_chars py_lower s.

(** [bool(s)] *)
Definition nonempty (s : string) : bool :=
  match s with EmptyString => false | _ => true end.

(** [s.isdigit()]: false on the empty string. *)
Definition isdigit (s : string) : bool := nonempty s && all_chars py_isdigit s.

(** [not s.strip()]: every character is white space. *)
Definition strip_is_empty (s : string) : bool := all_chars py_isspace s.

(** [s.startswith(p)] *)
Definition startswith (s p : string) : bool := String.prefix p s.

(** [sub in s] *)
Fixpoint contains (sub s : string) : bool :=
  String.prefix sub s ||
  match s with
  | EmptyString => false
  | String _ s' => contains sub s'
  end.

(** [s.endswith(suf)] *)
Fixpoint endswith (s suf : string) : bool :=
  (String.eqb s suf) ||
  match s with
  | EmptyString => false
  | String _ s' => endswith s' suf
  end.

(** [s.split(sep)] for a one-character separator. *)
Fixpoint split (sep : ascii) (s : string) : list string :=
  match s with
  | EmptyString => [EmptyString]
  | String a s' =>
      if Ascii.eqb a sep then EmptyString :: split sep s'
      else match split sep s' with
           | [] => [String a EmptyString]
           | w :: ws => String a w :: ws
           end
  end.

(** [s.split(sep)[0]] *)
Definition split_first (sep : ascii) (s : string) : string :=
  hd EmptyString (split sep s).

(** [s.rfind(c)] for a one-character needle; [None] is Python's [-1]. *)
Fixpoint rfind (c : ascii) (s : string) : option nat :=
  match s with
  | EmptyString => None
  | String a s' =>
      match rfind c s' with
      | Some i => Some (S i)
      | None => if Ascii.eqb a c then Some 0 else None
      end
  end.

(** [s.replace(old, new)] for a non-empty [old]: left to right, without
    overlap.  [skip] counts the characters of a match still to drop. *)
Fixpoint replace_go (old new : string) (skip : nat) (s : string) : string :=
  match s with
  | EmptyString => EmptyString
  | String a s' =>
      match skip with
      | S k => replace_go old new k s'
      | O =>
          if String.prefix old s
          then new ++ replace_go old new (String.length old - 1) s'
          else String a (replace_go old new 0 s')
      end
  end.

Definition replace (old new s : string) : string := replace_go old new 0 s.

(** [n * s] *)
Fixpoint repeat_str (n : nat) (s : string) : string :=
  match n with
  | O => EmptyString
  | S k => s ++ repeat_str k s
  end.

(** [re.match(r'(\d{4})', s)]: group 1 when [s] starts with four decimal
    digits. *)
Definition re_match_4digits (s : string) : option string :=
  match s with
  | String a (String b (String c (String d _))) =>
      if re_digit a && re_digit b && re_digit c && re_digit d
      then Some (String a (String b (String c (String d EmptyString))))
      else None
  | _ => None
  end.

End PyStr.

(** ** pathlib: the string, [.name] and [.stem] of [PurePosixPath(p)]
    (CPython 3.8 to 3.13) *)

Module PyPath.
Import PyStr.

(** The parts of a path after its anchor: empty and ["."] components are
    dropped by the parser. *)
Definition parts (p : string) : list string :=
  List.filter (fun c => nonempty c && negb (String.eqb c "."))
              (split "/"%char p).

Definition name (p : string) : string := List.last (parts p) EmptyString.

(** The root of a path: exactly two leading slashes are kept, three or more
    are one. *)
Definition root (p : string) : string :=
  if startswith p "///" then "/"
  else if startswith p "//" then "//"
  else if startswith p "/" then "/"
  else "".

(** The string of a path with root [r] and parts [cs]. *)
Definition build (r : string) (cs : list string) : string :=
  match cs with
  | [] => if nonempty r then r else "."
  | _ :: _ => r ++ String.concat "/" cs
  end.

(** [str(PurePosixPath(p))] *)
Definition norm (p : string) : string := build (root p) (parts p).

(** [name[:i]] when [0 < i < len(name) - 1] for [i = name.rfind('.')],
    else [name]. *)
Definition stem_of_name (n : string) : string :=
  match rfind "."%char n with
  | Some i =>
      if ((0 <? i) && (i <? String.length n - 1))%nat
      then String.substring 0 i n else n
  | None => n
  end.

Definition stem (p : string) : string := stem_of_name (name p).

End PyPath.

(** ** Metadata records and catalogs *)

(** The values the catalog parser stores in a record: [str] under every
  key except the three [is...] flags, which are [bool]. *)
Inductive pyval : Type :=
| PStr (s : string)
| PBool (b : bool).

(** Python truthiness: [if v]. *)
Definition truthy (v : pyval) : bool :=
match v with
| PStr s => PyStr.nonempty s
| PBool b => b
end.

Abbreviation record := (gmap string pyval).
Abbreviation catalog := (gmap string (gmap string pyval)).

(** [d.update(other)]: the keys of [other] are (re)bound in [d]. *)
Definition dict_update {V} (d other : gmap string V) : gmap string V :=
other ∪ d.

(** ** [merge_metadata] *)

(** [{k: v for k, v in data.items() if v}] *)
Definition truthy_fields (data : record) : record :=
filter (fun kv => truthy kv.2 = true) data.

(** [{k: v for k, v in data.items() if v and k not in cur}] *)
Definition truthy_missing_fields (cur data : record) : record :=
filter (fun kv => truthy kv.2 = true ∧ cur !! kv.1 = None) data.

(** First loop: [merged[rom_name] = data.copy()] for every ROM entry. *)
Definition merge_rom (rom_games : catalog) : catalog :=
map_fold (fun rom_name data merged => <[rom_name := data]> merged)
         ∅ rom_games.

(** Body of the second loop. *)
Definition merge_chd_step (rom_name : string) (data : record)
  (merged : catalog) : catalog :=
match merged !! rom_name with
| None => <[rom_name := data]> merged
| Some cur => <[rom_name := dict_update cur (truthy_fields data)]> merged
end.

Definition merge_chd (merged chd_games : catalog) : catalog :=
map_fold merge_chd_step merged chd_games.

(** Body of the third loop. *)
Definition merge_artwork_step (rom_name : string) (data : record)
  (merged : catalog) : catalog :=
match merged !! rom_name with
| None => <[rom_name := data]> merged
| Some cur =>
    <[rom_name := dict_update cur (truthy_missing_fields cur data)]> merged
end.

Definition merge_artwork (merged artwork_games : catalog) : catalog :=
map_fold merge_artwork_step merged artwork_games.

Definition merge_metadata (rom_games chd_games artwork_games : catalog)
  : catalog :=
merge_artwork (merge_chd (merge_rom rom_games) chd_games) artwork_games.

(** [merged[rom_name][k]], when both exist. *)
Definition field (c : catalog) (rom_name k : string) : option pyval :=
c !! rom_name ≫= (.!! k).


(** ** Insertion-ordered dictionaries *)

Module OD.

Definition odict (V : Type) : Type := list (string * V).

(** [d.get(k)] *)
Fixpoint get {V} (k : string) (d : odict V) : option V :=
  match d with
  | [] => None
  | (k', v) :: d' => if String.eqb k' k then Some v else get k d'
  end.

(** [k in d] *)
Definition mem {V} (k : string) (d : odict V) : bool :=
  match get k d with Some _ => true | None => false end.

(** [d[k] = v]: a bound key keeps its position, a new key goes last. *)
Fixpoint set {V} (k : string) (v : V) (d : odict V) : odict V :=
  match d with
  | [] => [(k, v)]
  | (k', v') :: d' =>
      if String.eqb k' k then (k, v) :: d' else (k', v') :: set k v d'
  end.

Definition keys {V} (d : odict V) : list string := map fst d.
Definition values {V} (d : odict V) : list V := map snd d.

End OD.

Abbreviation odict := OD.odict.

(** ** ElementTree elements *)

#[warnings="-register-all"]
Inductive Element : Type :=
| mkElement (tag : string) (attrib : list (string * string))
            (text tail : option string) (children : list Element).

Definition tag (e : Element) : string :=
  match e with mkElement t _ _ _ _ => t end.
Definition attrib (e : Element) : list (string * string) :=
  match e with mkElement _ a _ _ _ => a end.
Definition text (e : Element) : option string :=
  match e with mkElement _ _ x _ _ => x end.
Definition tail (e : Element) : option string :=
  match e with mkElement _ _ _ x _ => x end.
Definition children (e : Element) : list Element :=
  match e with mkElement _ _ _ _ cs => cs end.

Module ET.

(** [ET.Element(tag)] *)
Definition Element_new (t : string) : Element := mkElement t [] None None [].

(** A sub-element as [ET.SubElement(parent, t)] followed by the assignment
    of its text leaves it. *)
Definition leaf (t : string) (txt : option string) : Element :=
  mkElement t [] txt None [].

(** [parent.append(c)] *)
Definition append (parent c : Element) : Element :=
  match parent with
  | mkElement t a x tl cs => mkElement t a x tl (cs ++ [c])%list
  end.

(** [e.find(t)] for a plain tag: the first child with that tag. *)
Definition find (t : string) (e : Element) : option Element :=
  List.find (fun c => String.eqb (tag c) t) (children e).

(** [e.findall(t)] *)
Definition findall (t : string) (e : Element) : list Element :=
  List.filter (fun c => String.eqb (tag c) t) (children e).

(** [e.findtext(t, default)]: a found element without text gives [''] *)
Definition findtext (t : string) (default : string) (e : Element) : string :=
  match find t e with
  | Some c => match text c with Some s => s | None => EmptyString end
  | None => default
  end.

(** [e.get(k)] *)
Definition get (k : string) (e : Element) : option string :=
  OD.get k (attrib e).

Definition nl : string := String (ascii_of_nat 10) EmptyString.
Definition dquote : string := String (ascii_of_nat 34) EmptyString.

(** [_escape_cdata] *)
Fixpoint escape_cdata (s : string) : string :=
  match s with
  | EmptyString => EmptyString
  | String a s' =>
      (if Ascii.eqb a "&" then "&amp;"
       else if Ascii.eqb a "<" then "&lt;"
       else if Ascii.eqb a ">" then "&gt;"
       else String a EmptyString) ++ escape_cdata s'
  end.

(** [_escape_attrib] *)
Fixpoint escape_attrib (s : string) : string :=
  match s with
  | EmptyString => EmptyString
  | String a s' =>
      (if Ascii.eqb a "&" then "&amp;"
       else if Ascii.eqb a "<" then "&lt;"
       else if Ascii.eqb a ">" then "&gt;"
       else if Ascii.eqb a (ascii_of_nat 34) then "&quot;"
       else if Ascii.eqb a (ascii_of_nat 13) then "&#13;"
       else if Ascii.eqb a (ascii_of_nat 10) then "&#10;"
       else if Ascii.eqb a (ascii_of_nat 9) then "&#09;"
       else String a EmptyString) ++ escape_attrib s'
  end.

(** [if x: write(_escape_cdata(x))] *)
Definition write_cdata (x : option string) : string :=
  match x with Some s => escape_cdata s | None => EmptyString end.

Definition write_attrib (kv : string * string) : string :=
  " " ++ fst kv ++ "=" ++ dquote ++ escape_attrib (snd kv) ++ dquote.

Definition has_text (x : option string) : bool :=
  match x with Some s => PyStr.nonempty s | None => false end.

(** [_serialize_xml] with [short_empty_elements=True], for tags and
    attribute names without a namespace. *)
Fixpoint serialize (e : Element) : string :=
  match e with
  | mkElement t a x tl cs =>
      "<" ++ t ++ String.concat "" (map write_attrib a)
      ++ (if has_text x || negb (Nat.eqb (length cs) 0)
          then ">" ++ write_cdata x
               ++ (fix go (l : list Element) : string :=
                     match l with
                     | [] => EmptyString
                     | c :: l' => serialize c ++ go l'
                     end) cs
               ++ "</" ++ t ++ ">"
          else " />")
      ++ write_cdata tl
  end.

(** [ET.tostring(e, encoding="unicode")] *)
Definition tostring (e : Element) : string := serialize e.

(** A character the XML parser accepts in a document. *)
Definition xml_char (a : ascii) : bool :=
  let n := PyStr.code a in
  ((n =? 9) || (n =? 10) || (n =? 13) || (32 <=? n))%nat.

(** White space of XML. *)
Definition xml_space (a : ascii) : bool :=
  let n := PyStr.code a in
  ((n =? 9) || (n =? 10) || (n =? 13) || (n =? 32))%nat.

(** An accepted character other than the carriage return. *)
Definition plain_char (a : ascii) : bool :=
  let n := PyStr.code a in ((n =? 9) || (n =? 10) || (32 <=? n))%nat.

(** The parser's end-of-line handling: a carriage return, with the line
    feed after it if there is one, is read as one line feed. *)
Fixpoint normalize_newlines (s : string) : string :=
  match s with
  | EmptyString => EmptyString
  | String a s' =>
      if Ascii.eqb a (ascii_of_nat 13) then
        String (ascii_of_nat 10)
          match s' with
          | String b s'' =>
              if Ascii.eqb b (ascii_of_nat 10) then normalize_newlines s''
              else normalize_newlines s'
          | EmptyString => EmptyString
          end
      else String a (normalize_newlines s')
  end.

(** What the parser returns for a document written by [tostring]: the same
    tree, where an empty text or tail reads back as [None] and the line
    ends of character data are normalised. *)
Definition read_back_str (x : option string) : option string :=
  match x with
  | Some s => if PyStr.nonempty s then Some (normalize_newlines s) else None
  | None => None
  end.

Fixpoint read_back_elem (e : Element) : Element :=
  match e with
  | mkElement t a x tl cs =>
      mkElement t a (read_back_str x) (read_back_str tl)
                (map read_back_elem cs)
  end.

(** Character data after the root element is not part of the tree. *)
Definition read_back (root : Element) : Element :=
  match read_back_elem root with
  | mkElement t a x _ cs => mkElement t a x None cs
  end.

(** The first character of an XML name, and the others (code points below
    256); the colon is left out, it would make a namespace prefix. *)
Definition name_start (a : ascii) : bool :=
  let n := PyStr.code a in
  (((65 <=? n) && (n <=? 90)) || ((97 <=? n) && (n <=? 122)) || (n =? 95)
   || ((192 <=? n) && (n <=? 214)) || ((216 <=? n) && (n <=? 246))
   || (248 <=? n))%nat.

Definition name_char (a : ascii) : bool :=
  let n := PyStr.code a in
  (name_start a || (n =? 45) || (n =? 46) || ((48 <=? n) && (n <=? 57))
   || (n =? 183))%nat.

Definition xml_name (s : string) : bool :=
  match s with
  | String a s' => name_start a && PyStr.all_chars name_char s'
  | EmptyString => false
  end.

Fixpoint distinct (l : list string) : bool :=
  match l with
  | [] => true
  | x :: l' => negb (existsb (String.eqb x) l') && distinct l'
  end.

(** Tags and attribute names that are written as they are and read back
    the same: XML names without namespace, the attribute names of an
    element distinct, none of them [xmlns]. *)
Fixpoint plain_names (e : Element) : bool :=
  match e with
  | mkElement t a _ _ cs =>
      xml_name t
      && forallb (fun kv => xml_name (fst kv)
                            && negb (String.eqb (fst kv) "xmlns")) a
      && distinct (map fst a)
      && forallb plain_names cs
  end.

Definition chars_ok (x : option string) : bool :=
  match x with Some s => PyStr.all_chars xml_char s | None => true end.

(** Every character of the written element is one the parser accepts.
    Tags and attribute names are taken to be [plain_names]: in the
    program they are literals or come from a parsed document. *)
Fixpoint well_formed (e : Element) : bool :=
  match e with
  | mkElement t a x tl cs =>
      forallb (fun kv => PyStr.all_chars xml_char (snd kv)) a
      && chars_ok x && chars_ok tl && forallb well_formed cs
  end.

(** [ET.parse(f).getroot()] for a file holding [tostring root], [None]
    when the parser raises: after the root element only white space may
    follow. *)
Definition parse_written (root : Element) : option Element :=
  if well_formed root
     && match tail root with
        | Some s => PyStr.all_chars xml_space s
        | None => true
        end
  then Some (read_back root) else None.

End ET.

(** ** [_prettify_xml] *)

(** [not x or not x.strip()] *)
Definition blank (x : option string) : bool :=
  match x with
  | Some s => PyStr.strip_is_empty s
  | None => true
  end.

Definition indent : string := "  ".

(** [i = "\n" + level * indent] *)
Definition indent_at (level : nat) : string :=
  ET.nl ++ PyStr.repeat_str level indent.

(** The element after [_prettify_xml(elem, level)] has mutated it. *)
Fixpoint prettify (level : nat) (elem : Element) : Element :=
  match elem with
  | mkElement t a x tl cs =>
      let i := indent_at level in
      match cs with
      | [] =>
          mkElement t a x
            (if negb (Nat.eqb level 0) && blank tl then Some i else tl) []
      | _ :: _ =>
          let x1 := if blank x then Some (i ++ indent) else x in
          let tl1 := if blank tl then Some i else tl in
          let cs1 := map (prettify (S level)) cs in
          let tl2 := if blank tl1 then Some i else tl1 in
          mkElement t a x1 tl2 cs1
      end
  end.

Definition xml_declaration : string :=
  "<?xml version=" ++ ET.dquote ++ "1.0" ++ ET.dquote ++ "?>" ++ ET.nl.

(** The string [_prettify_xml(elem)] returns at level 0. *)
Definition _prettify_xml (elem : Element) : string :=
  xml_declaration ++ ET.tostring (prettify 0 elem).

(** ** [create_gamelist_entry] *)

(** The text of a record value.  The parser binds the keys read by the
    generator to [str], and [merge_metadata] keeps, for every key, values
    of the catalogs' type for that key. *)
Definition as_text (v : pyval) : option string :=
  match v with
  | PStr s => Some s
  | PBool _ => None
  end.

(** [existing_game is not None and existing_game.find(t) is not None],
    with the text of the element found. *)
Definition existing_field (existing_game : option Element) (t : string)
    : option (option string) :=
  match existing_game with
  | Some g =>
      match ET.find t g with
      | Some c => Some (text c)
      | None => None
      end
  | None => None
  end.

(** The shape shared by the field blocks: the existing text if the
    existing record has the element, else the derived text. *)
Definition field_text (existing_game : option Element) (t : string)
    (derived : option string) : option string :=
  match existing_field existing_game t with
  | Some x => x
  | None => derived
  end.

Definition date_suffix : string := "0101T000000".

(** The [elif mame_data.get('year')] branch of the release date. *)
Definition releasedate_of_year (mame_data : record) : option string :=
  match mame_data !! "year" with
  | Some (PStr year) =>
      if PyStr.nonempty year then
        if PyStr.isdigit year && Nat.eqb (String.length year) 4
        then Some (year ++ date_suffix)
        else match PyStr.re_match_4digits year with
             | Some g => Some (g ++ date_suffix)
             | None => None
             end
      else None
  | _ => None
  end.

(** [mame_data.get('driver_status') in ['preliminary', 'imperfect']] *)
Definition driver_hidden (mame_data : record) : bool :=
  match mame_data !! "driver_status" with
  | Some (PStr s) => String.eqb s "preliminary" || String.eqb s "imperfect"
  | _ => false
  end.

Definition screenshot_ref (rom_name : string) : string :=
  "./media/screenshots/" ++ rom_name ++ ".png".
Definition marquee_ref (rom_name : string) : string :=
  "./media/marquees/" ++ rom_name ++ ".png".
Definition zip_ref (rom_name : string) : string :=
  "./" ++ rom_name ++ ".zip".

Definition create_gamelist_entry (rom_name : string) (mame_data : record)
    (snap_map flyer_map marquee_map : odict string)
    (existing_game : option Element) : Element :=
  let fld := field_text existing_game in
  let game_elem := ET.Element_new "game" in
  let game_elem :=
    ET.append game_elem (ET.leaf "path" (fld "path" (Some (zip_ref rom_name)))) in
  let game_elem :=
    ET.append game_elem
      (ET.leaf "name"
         (fld "name" (match mame_data !! "description" with
                      | Some v => as_text v
                      | None => Some rom_name
                      end))) in
  let game_elem :=
    ET.append game_elem
      (ET.leaf "desc"
         (fld "desc" (match mame_data !! "description" with
                      | Some v => as_text v
                      | None => Some EmptyString
                      end))) in
  let game_elem :=
    ET.append game_elem
      (ET.leaf "image"
         (fld "image" (if OD.mem rom_name snap_map
                       then Some (screenshot_ref rom_name) else None))) in
  let game_elem :=
    ET.append game_elem
      (ET.leaf "thumbnail"
         (fld "thumbnail" (if OD.mem rom_name snap_map
                           then Some (screenshot_ref rom_name) else None))) in
  let game_elem :=
    ET.append game_elem
      (ET.leaf "marquee"
         (fld "marquee" (if OD.mem rom_name marquee_map
                         then Some (marquee_ref rom_name) else None))) in
  let game_elem := ET.append game_elem (ET.leaf "video" (fld "video" None)) in
  let game_elem := ET.append game_elem (ET.leaf "rating" (fld "rating" None)) in
  let game_elem :=
    ET.append game_elem
      (ET.leaf "releasedate" (fld "releasedate" (releasedate_of_year mame_data))) in
  let game_elem :=
    ET.append game_elem
      (ET.leaf "developer"
         (fld "developer" (match mame_data !! "manufacturer" with
                           | Some v => as_text v
                           | None => Some EmptyString
                           end))) in
  let game_elem :=
    ET.append game_elem
      (ET.leaf "publisher"
         (fld "publisher" (match mame_data !! "manufacturer" with
                           | Some v => as_text v
                           | None => Some EmptyString
                           end))) in
  let game_elem :=
    ET.append game_elem (ET.leaf "genre" (fld "genre" (Some "Arcade"))) in
  let game_elem :=
    ET.append game_elem
      (ET.leaf "players" (fld "players" (mame_data !! "players" ≫= as_text))) in
  if driver_hidden mame_data
  then ET.append game_elem (ET.leaf "hidden" (Some "true"))
  else game_elem.

(** ** The existing gamelist *)

(** The loop of [load_existing_gamelist] over [root.findall('game')]. *)
Definition existing_step (existing_games : odict Element)
    (game_elem : Element) : odict Element :=
  match ET.find "path" game_elem with
  | Some path_elem =>
      match text path_elem with
      | Some path_text =>
          if PyStr.nonempty path_text
          then OD.set (PyPath.stem path_text) game_elem existing_games
          else existing_games
      | None => existing_games
      end
  | None => existing_games
  end.

Definition existing_of_root (root : Element) : odict Element :=
  fold_left existing_step (ET.findall "game" root) [].

(** ** The body of [generate_gamelist] before the file is written *)

(** [sorted(merged_games.keys())] *)
Definition sorted_keys (merged_games : catalog) : list string :=
  merge_sort String.le (map fst (map_to_list merged_games)).

(** First loop: one entry per merged identifier, in sorted order; each
    identifier joins [processed_games]. *)
Definition process_games (merged_games : catalog)
    (snap_map flyer_map marquee_map : odict string)
    (existing_games : odict Element)
    (st : Element * gset string) : Element * gset string :=
  fold_left
    (fun (acc : Element * gset string) rom_name =>
       match merged_games !! rom_name with
       | Some game_data =>
           let existing_game := OD.get rom_name existing_games in
           let game_elem :=
             create_gamelist_entry rom_name game_data snap_map flyer_map
                                   marquee_map existing_game in
           (ET.append (fst acc) game_elem, {[rom_name]} ∪ snd acc)
       | None => acc
       end)
    (sorted_keys merged_games) st.

(** Second loop: the existing games that were not processed, with the
    identifiers it logs. *)
Definition preserve_games (existing_games : odict Element)
    (processed_games : gset string) (st : Element * list string)
    : Element * list string :=
  fold_left
    (fun (acc : Element * list string) (kv : string * Element) =>
       if decide (fst kv ∈ processed_games) then acc
       else (ET.append (fst acc) (snd kv), (snd acc ++ [fst kv])%list))
    existing_games st.

(** The tree [gamelist_root] holds when the loops are over, the set
    [processed_games], and the identifiers of the preserved games. *)
Definition gamelist_tree (no_merge : bool) (merged_games : catalog)
    (snap_map flyer_map marquee_map : odict string)
    (existing_games : odict Element) (processed_games : gset string)
    : Element * gset string * list string :=
  let '(root, processed) :=
    process_games merged_games snap_map flyer_map marquee_map existing_games
                  (ET.Element_new "gameList", processed_games) in
  if no_merge then (root, processed, [])
  else
    let '(root, preserved) := preserve_games existing_games processed (root, []) in
    (root, processed, preserved).

(** ** Catalog parser: the loop of [parse_dat_xml] *)

(** [game_data] of one element that has a non-empty [name] attribute. *)
Definition game_data_of (rom_name : string) (game_elem : Element) : record :=
  let is_flag a := match ET.get a game_elem with
                   | Some v => String.eqb v "yes"
                   | None => false
                   end in
  let game_data : record :=
    <["isdevice" := PBool (is_flag "isdevice")]>
    (<["ismechanical" := PBool (is_flag "ismechanical")]>
    (<["isbios" := PBool (is_flag "isbios")]>
    (<["manufacturer" := PStr (ET.findtext "manufacturer" "" game_elem)]>
    (<["year" := PStr (ET.findtext "year" "" game_elem)]>
    (<["description" := PStr (ET.findtext "description" "" game_elem)]>
    (<["name" := PStr rom_name]> ∅)))))) in
  let game_data :=
    match ET.find "input" game_elem with
    | Some input_elem =>
        match ET.get "players" input_elem with
        | Some players =>
            if PyStr.nonempty players
            then <["players" := PStr players]> game_data else game_data
        | None => game_data
        end
    | None => game_data
    end in
  match ET.find "driver" game_elem with
  | Some driver_elem =>
      <["driver_emulation" :=
          PStr (default "" (ET.get "emulation" driver_elem))]>
      (<["driver_status" :=
          PStr (default "" (ET.get "status" driver_elem))]> game_data)
  | None => game_data
  end.

(** [root.findall('machine')] under a [datafile] root, else
    [root.findall('game')]. *)
Definition game_elements (root : Element) : list Element :=
  if String.eqb (tag root) "datafile"
  then ET.findall "machine" root else ET.findall "game" root.

(** The identifier of an element the loop does not skip. *)
Definition rom_name_of (game_elem : Element) : option string :=
  match ET.get "name" game_elem with
  | Some rom_name => if PyStr.nonempty rom_name then Some rom_name else None
  | None => None
  end.

Definition parse_dat_root (root : Element) : catalog :=
  fold_left
    (fun (games : catalog) game_elem =>
       match rom_name_of game_elem with
       | Some rom_name => <[rom_name := game_data_of rom_name game_elem]> games
       | None => games
       end)
    (game_elements root) ∅.

(** ** Media index: the loop of [extract_media_from_zip] *)

Definition media_map_step (media_type : string) (media_map : odict string)
    (filename : string) : odict string :=
  if PyStr.endswith filename ".png" then
    let base_name := PyPath.stem filename in
    if String.eqb media_type "artwork" then
      if PyStr.contains "flyer" (PyStr.lower filename)
      then OD.set (PyStr.split_first "_" base_name) filename media_map
      else if PyStr.contains "marquee" (PyStr.lower filename)
      then OD.set (PyStr.split_first "_" base_name ++ "_marquee")
                  filename media_map
      else media_map
    else OD.set base_name filename media_map
  else media_map.

Definition media_map_of (media_type : string) (filenames : list string)
    : odict string :=
  fold_left (media_map_step media_type) filenames [].

(** ** The file system, the console and the interpreter outcome *)

(** A file: its bytes and what [ET.parse] makes of them ([None] when it
    raises). *)
Record FileData : Type := mkFile { bytes : string; xml : option Element }.

Inductive Node : Type :=
| NDir
| NFile (d : FileData)
| NZip (members : list (string * FileData)).

Record State : Type := mkState {
  fs : odict Node;                 (* path -> node *)
  stdout : list string;            (* lines printed so far *)
  processed_games : gset string;   (* self.processed_games *)
  mkdtemp_name : string            (* the directory tempfile.mkdtemp picks *)
}.

Inductive outcome (A : Type) : Type :=
| Ret (a : A)
| Raise (e : string)
| SysExit (status : nat).
Arguments Ret {A} a.
Arguments Raise {A} e.
Arguments SysExit {A} status.

Definition M (A : Type) : Type := State -> State * outcome A.

Definition ret {A} (a : A) : M A := fun s => (s, Ret a).
Definition raise {A} (e : string) : M A := fun s => (s, Raise e).
Definition sys_exit {A} (status : nat) : M A := fun s => (s, SysExit status).

Definition bind {A B} (c : M A) (k : A -> M B) : M B :=
  fun s =>
    match c s with
    | (s', Ret a) => k a s'
    | (s', Raise e) => (s', Raise e)
    | (s', SysExit n) => (s', SysExit n)
    end.

#[global] Instance M_ret : MRet M := @ret.
#[global] Instance M_bind : MBind M := fun A B k c => bind c k.

(** [try: c except Exception as e: h e]; [SystemExit] is not an
    [Exception]. *)
Definition try_except {A} (c : M A) (h : string -> M A) : M A :=
  fun s =>
    match c s with
    | (s', Raise e) => h e s'
    | r => r
    end.

(** [try: c finally: f] *)
Definition try_finally {A} (c : M A) (f : M unit) : M A :=
  fun s =>
    match c s with
    | (s', r) =>
        match f s' with
        | (s'', Ret _) => (s'', r)
        | (s'', Raise e) => (s'', Raise e)
        | (s'', SysExit n) => (s'', SysExit n)
        end
    end.

Fixpoint for_each {B} (l : list B) (body : B -> M unit) : M unit :=
  match l with
  | [] => ret tt
  | b :: l' => body b ;; for_each l' body
  end.

Definition get_fs : M (odict Node) := fun s => (s, Ret (fs s)).
Definition put_fs (f : odict Node) : M unit :=
  fun s => (mkState f (stdout s) (processed_games s) (mkdtemp_name s), Ret tt).
Definition print (line : string) : M unit :=
  fun s => (mkState (fs s) (stdout s ++ [line])%list (processed_games s)
                    (mkdtemp_name s), Ret tt).
Definition get_processed : M (gset string) :=
  fun s => (s, Ret (processed_games s)).
Definition put_processed (p : gset string) : M unit :=
  fun s => (mkState (fs s) (stdout s) p (mkdtemp_name s), Ret tt).

(** *** Paths, as the strings of [pathlib.Path] objects *)

Module Path.

(** [Path(p)] *)
Definition of_str (p : string) : string := PyPath.norm p.

(** [a / b] for a path [a] and a string [b]: an absolute [b] replaces
    [a]. *)
Definition join (a b : string) : string :=
  if PyStr.nonempty (PyPath.root b) then PyPath.norm b
  else PyPath.build (PyPath.root a) (PyPath.parts a ++ PyPath.parts b).

(** [p.parent] *)
Definition parent (p : string) : string :=
  PyPath.build (PyPath.root p) (removelast (PyPath.parts p)).

(** [ds] is [cs] followed by at least one more part. *)
Fixpoint under (cs ds : list string) : bool :=
  match cs, ds with
  | [], _ :: _ => true
  | c :: cs', d :: ds' => String.eqb c d && under cs' ds'
  | _, _ => false
  end.

(** [p] names something below the directory [d]. *)
Definition below (d p : string) : bool :=
  String.eqb (PyPath.root d) (PyPath.root p)
  && under (PyPath.parts d) (PyPath.parts p).

(** The parts [os.path.normpath] keeps, for a path with root [r]: a [..]
    takes back the part before it. *)
Fixpoint collapse (r : string) (kept cs : list string) : list string :=
  match cs with
  | [] => rev kept
  | c :: cs' =>
      if String.eqb c ".." then
        match kept with
        | k :: kept' =>
            if String.eqb k ".." then collapse r (c :: kept) cs'
            else collapse r kept' cs'
        | [] => if PyStr.nonempty r then collapse r [] cs'
                else collapse r [c] cs'
        end
      else collapse r (c :: kept) cs'
  end.

Fixpoint ancestors_go (r : string) (pre cs : list string) : list string :=
  match cs with
  | [] => []
  | [_] => []
  | c :: cs' =>
      PyPath.build r (pre ++ [c])%list :: ancestors_go r (pre ++ [c])%list cs'
  end.

(** The directories [os.makedirs] visits for the parent of [p]. *)
Definition ancestors (p : string) : list string :=
  ancestors_go (PyPath.root p) [] (PyPath.parts p).

End Path.

(** *** File-system primitives *)

Module FS.

(** [str(OSError(errno, strerror, filename))] *)
Definition oserror (errno_strerror filename : string) : string :=
  errno_strerror ++ ": '" ++ filename ++ "'".

Definition ENOENT : string := "[Errno 2] No such file or directory".
Definition EEXIST : string := "[Errno 17] File exists".
Definition ENOTDIR : string := "[Errno 20] Not a directory".
Definition EISDIR : string := "[Errno 21] Is a directory".
Definition EINVAL : string := "[Errno 22] Invalid argument".
Definition ENOTEMPTY : string := "[Errno 39] Directory not empty".

Definition exists_ (p : string) (f : odict Node) : bool := OD.mem p f.

Definition is_dir (p : string) (f : odict Node) : bool :=
  match OD.get p f with Some NDir => true | _ => false end.

Definition is_file (p : string) (f : odict Node) : bool :=
  match OD.get p f with Some (NFile _) | Some (NZip _) => true | _ => false end.

Definition remove (p : string) (f : odict Node) : odict Node :=
  List.filter (fun kv => negb (String.eqb (fst kv) p)) f.

(** [p.glob("*.zip")]: the entries of directory [p] named [*.zip], in the
    order the system lists them. *)
Definition glob_zip (p : string) (f : odict Node) : list string :=
  map fst
    (List.filter (fun kv => String.eqb (Path.parent (fst kv)) p
                            && PyStr.endswith (PyPath.name (fst kv)) ".zip") f).

Definition makedirs (p : string) (f : odict Node) : odict Node :=
  fold_left (fun f d => if exists_ d f then f else OD.set d NDir f)
            (Path.ancestors p) f.

(** [p.mkdir(exist_ok=True)] *)
Definition mkdir_exist_ok (p : string) : M unit :=
  f ← get_fs;
  match OD.get p f with
  | Some NDir => ret tt
  | Some _ => raise (oserror EEXIST p)
  | None =>
      if is_dir (Path.parent p) f then put_fs (OD.set p NDir f)
      else if exists_ (Path.parent p) f then raise (oserror ENOTDIR p)
      else raise (oserror ENOENT p)
  end.

(** [zipfile.ZipFile(p, 'r')] *)
Definition zip_open (p : string) : M (list (string * FileData)) :=
  f ← get_fs;
  match OD.get p f with
  | Some (NZip members) => ret members
  | Some (NFile _) => raise "File is not a zip file"
  | Some NDir => raise (oserror EISDIR p)
  | None => raise (oserror ENOENT p)
  end.

(** [zf.getinfo(member)]: of several members with one name the last is
    found. *)
Definition zip_member (member : string) (members : list (string * FileData))
    : option FileData :=
  OD.get member (rev members).

(** Where [zf.extract(member, dest)] writes: the member's name without its
    empty, [.] and [..] components, below [dest], normalised. *)
Definition extract_target (dest member : string) : string :=
  PyPath.build (PyPath.root dest)
    (Path.collapse (PyPath.root dest) []
       (PyPath.parts dest
        ++ List.filter (fun c => negb (String.eqb c "..")) (PyPath.parts member))).

(** [zf.extract(member, dest)]: the directories above the target are made
    unless its parent is there; a member whose name ends in a slash is a
    directory. *)
Definition zip_extract (members : list (string * FileData)) (member dest : string)
    : M unit :=
  match zip_member member members with
  | Some d =>
      f ← get_fs;
      let target := extract_target dest member in
      if negb (is_dir (Path.parent target) f)
         && existsb (fun a => is_file a f) (Path.ancestors target)
      then raise (oserror ENOTDIR target)
      else if PyStr.endswith member "/" then
        if is_dir target f then ret tt
        else if exists_ target f then raise (oserror EEXIST target)
        else put_fs (OD.set target NDir (makedirs target f))
      else if is_dir target f then raise (oserror EISDIR target)
      else put_fs (OD.set target (NFile d) (makedirs target f))
  | None => raise (ET.dquote ++ "There is no item named '" ++ member
                   ++ "' in the archive" ++ ET.dquote)
  end.

(** The key of [k] after the directory [src] has become [dst]. *)
Definition moved (src dst k : string) : string :=
  if String.eqb k src then dst
  else if Path.below src k then
    PyPath.build (PyPath.root dst)
      (PyPath.parts dst ++ drop (length (PyPath.parts src)) (PyPath.parts k))
  else k.

(** [src.rename(dst)]: a file replaces a file, a directory moves with what
    is below it and replaces an empty directory. *)
Definition rename (src dst : string) : M unit :=
  f ← get_fs;
  let both := "'" ++ src ++ "' -> '" ++ dst ++ "'" in
  match OD.get src f with
  | None => raise (ENOENT ++ ": " ++ both)
  | Some n =>
      if negb (is_dir (Path.parent dst) f)
      then raise ((if exists_ (Path.parent dst) f then ENOTDIR else ENOENT)
                  ++ ": " ++ both)
      else if String.eqb src dst then ret tt
      else
        match n with
        | NDir =>
            if is_file dst f then raise (ENOTDIR ++ ": " ++ both)
            else if Path.below src dst then raise (EINVAL ++ ": " ++ both)
            else if existsb (fun kv => Path.below dst (fst kv)) f
            then raise (ENOTEMPTY ++ ": " ++ both)
            else put_fs (map (fun kv => (moved src dst (fst kv), snd kv))
                             (remove dst f))
        | _ =>
            if is_dir dst f then raise (EISDIR ++ ": " ++ both)
            else put_fs (OD.set dst n (remove src f))
        end
  end.

(** [shutil.copy2(src, dst)]: into a directory [dst] the file keeps its
    name. *)
Definition copy2 (src dst : string) : M unit :=
  f ← get_fs;
  let dst := if is_dir dst f then Path.join dst (PyPath.name src) else dst in
  match OD.get src f with
  | Some NDir => raise (oserror EISDIR src)
  | Some n =>
      if String.eqb src dst
      then raise ("'" ++ src ++ "' and '" ++ dst ++ "' are the same file")
      else if is_dir dst f then raise (oserror EISDIR dst)
      else if is_dir (Path.parent dst) f then put_fs (OD.set dst n f)
      else if exists_ (Path.parent dst) f then raise (oserror ENOTDIR dst)
      else raise (oserror ENOENT dst)
  | None => raise (oserror ENOENT src)
  end.

(** [p.unlink()] *)
Definition unlink (p : string) : M unit :=
  f ← get_fs;
  if is_file p f then put_fs (remove p f)
  else if is_dir p f then raise (oserror EISDIR p)
  else raise (oserror ENOENT p).

(** [shutil.rmtree(p)]: [p] has to be a directory; it goes with everything
    below it. *)
Definition rmtree (p : string) : M unit :=
  f ← get_fs;
  match OD.get p f with
  | Some NDir =>
      put_fs (List.filter (fun kv => negb (String.eqb (fst kv) p
                                           || Path.below p (fst kv))) f)
  | Some _ => raise (oserror ENOTDIR p)
  | None => raise (oserror ENOENT p)
  end.

(** [with open(p, 'w') as f: f.write(...)] *)
Definition write_file (p : string) (d : FileData) : M unit :=
  f ← get_fs;
  if is_dir p f then raise (oserror EISDIR p)
  else if is_dir (Path.parent p) f then put_fs (OD.set p (NFile d) f)
  else if exists_ (Path.parent p) f then raise (oserror ENOTDIR p)
  else raise (oserror ENOENT p).

(** [ET.parse(p).getroot()] *)
Definition et_parse (p : string) : M Element :=
  f ← get_fs;
  match OD.get p f with
  | Some (NFile d) =>
      match xml d with
      | Some root => ret root
      | None => raise "syntax error: line 1, column 0"
      end
  | Some (NZip _) => raise "not well-formed (invalid token): line 1, column 2"
  | Some NDir => raise (oserror EISDIR p)
  | None => raise (oserror ENOENT p)
  end.

End FS.

(** ** The converter object and its methods *)

(** The command line, as [main] passes it on. *)
Record Args : Type := mkArgs {
  arg_dat_zip : string;
  arg_extras_dir : string;
  arg_roms_dir : string;
  arg_extract_temp : option string;
  arg_no_merge : bool;
  arg_dry_run : bool;
  arg_verbose : bool
}.

Record MameToBatocera : Type := mkSelf {
  dat_zip_path : string;
  extras_dir : string;
  roms_dir : string;
  extract_temp : string;
  no_merge : bool;
  dry_run : bool;
  verbose : bool
}.

Definition media_dir (self : MameToBatocera) : string :=
  Path.join (roms_dir self) "media".
Definition screenshots_dir (self : MameToBatocera) : string :=
  Path.join (media_dir self) "screenshots".
Definition covers_dir (self : MameToBatocera) : string :=
  Path.join (media_dir self) "covers".
Definition marquees_dir (self : MameToBatocera) : string :=
  Path.join (media_dir self) "marquees".
Definition gamelist_path (self : MameToBatocera) : string :=
  Path.join (roms_dir self) "gamelist.xml".

(** The name [tempfile.mkdtemp] picks. *)
Definition get_mkdtemp_name : M string := fun s => (s, Ret (mkdtemp_name s)).

(** [tempfile.mkdtemp(prefix=...)]: a new directory, under a name that is
    not in use. *)
Definition mkdtemp : M string :=
  name ← get_mkdtemp_name;
  let d := Path.of_str name in
  f ← get_fs;
  if FS.exists_ d f then raise (FS.oserror FS.EEXIST d)
  else if FS.is_dir (Path.parent d) f then put_fs (OD.set d NDir f);; ret d
  else raise (FS.oserror FS.ENOENT d).

Definition __init__ (args : Args) : M MameToBatocera :=
  tmp ← match arg_extract_temp args with
        | Some p => if PyStr.nonempty p then ret p else mkdtemp
        | None => mkdtemp
        end;
  let self := mkSelf (Path.of_str (arg_dat_zip args))
                     (Path.of_str (arg_extras_dir args))
                     (Path.of_str (arg_roms_dir args)) (Path.of_str tmp)
                     (arg_no_merge args) (arg_dry_run args)
                     (arg_verbose args) in
  FS.mkdir_exist_ok (media_dir self);;
  FS.mkdir_exist_ok (screenshots_dir self);;
  FS.mkdir_exist_ok (covers_dir self);;
  FS.mkdir_exist_ok (marquees_dir self);;
  put_processed ∅;;
  ret self.

Definition log (self : MameToBatocera) (message level : string) : M unit :=
  if verbose self || String.eqb level "ERROR" || String.eqb level "WARNING"
  then print ("[" ++ level ++ "] " ++ message)
  else ret tt.

Definition extract_xml_from_zip (self : MameToBatocera) (zip_path : string)
    : M (option string) :=
  try_except
    (members ← FS.zip_open zip_path;
     let xml_files :=
       List.filter (fun name => PyStr.endswith name ".xml") (map fst members) in
     match xml_files with
     | [] => log self ("No XML file found in " ++ zip_path) "ERROR";; ret None
     | xml_file :: others =>
         match others with
         | [] => ret tt
         | _ :: _ =>
             log self ("Multiple XML files found in " ++ zip_path
                       ++ ", using first one") "WARNING"
         end;;
         let extract_path :=
           Path.join (extract_temp self)
                     (PyPath.stem zip_path ++ "_" ++ xml_file) in
         FS.zip_extract members xml_file (extract_temp self);;
         FS.rename (Path.join (extract_temp self) xml_file) extract_path;;
         ret (Some extract_path)
     end)
    (fun e =>
       log self ("Failed to extract XML from " ++ zip_path ++ ": " ++ e) "ERROR";;
       ret None).

Definition parse_dat_xml (self : MameToBatocera) (xml_path : string)
    : M catalog :=
  try_except
    (root ← FS.et_parse xml_path;
     for_each (omap rom_name_of (game_elements root))
              (fun rom_name => log self ("Parsed metadata for " ++ rom_name) "INFO");;
     ret (parse_dat_root root))
    (fun e =>
       log self ("Failed to parse DAT XML " ++ xml_path ++ ": " ++ e) "ERROR";;
       ret (∅ : catalog)).

Definition extract_media_from_zip (self : MameToBatocera)
    (zip_path media_type : string) : M (odict string) :=
  try_except
    (members ← FS.zip_open zip_path;
     let media_map := media_map_of media_type (map fst members) in
     log self ("Found " ++ pretty (length media_map) ++ " " ++ media_type
               ++ " images in " ++ zip_path) "INFO";;
     ret media_map)
    (fun e =>
       log self ("Failed to process media zip " ++ zip_path ++ ": " ++ e) "ERROR";;
       ret []).

Definition _extract_media_files (self : MameToBatocera) (zip_path : string)
    (media_map : odict string) (dest_dir : string) : M unit :=
  try_except
    (members ← FS.zip_open zip_path;
     for_each media_map
       (fun kv =>
          let rom_name := fst kv in
          let filename := snd kv in
          if dry_run self
          then log self ("Would extract " ++ filename ++ " to " ++ dest_dir
                         ++ "/" ++ rom_name ++ ".png") "INFO"
          else
            FS.zip_extract members filename (extract_temp self);;
            let temp_file := Path.join (extract_temp self) filename in
            let dest_file := Path.join dest_dir (rom_name ++ ".png") in
            f ← get_fs;
            if FS.exists_ temp_file f
            then FS.copy2 temp_file dest_file;;
                 log self ("Extracted " ++ filename ++ " to " ++ dest_file) "INFO";;
                 FS.unlink temp_file
            else ret tt))
    (fun e =>
       log self ("Failed to extract media from " ++ zip_path ++ ": " ++ e) "ERROR").

(** The loop of [_extract_artwork_media]; [marquee_map] is the caller's
    dictionary, so what the loop stored in it survives an exception: the
    loop returns it together with the exception, if any. *)
Fixpoint artwork_loop (self : MameToBatocera)
    (members : list (string * FileData)) (items : list (string * string))
    (marquee_map : odict string) : State -> State * (odict string * option string) :=
  fun s =>
    match items with
    | [] => (s, (marquee_map, None))
    | (rom_name, filename) :: items' =>
        if PyStr.contains "_marquee" rom_name then
          let base_rom_name := PyStr.replace "_marquee" "" rom_name in
          if dry_run self then
            match log self ("Would extract " ++ filename ++ " to "
                            ++ marquees_dir self ++ "/" ++ base_rom_name
                            ++ ".png") "INFO" s with
            | (s', _) => artwork_loop self members items' marquee_map s'
            end
          else
            let temp_file := Path.join (extract_temp self) filename in
            let dest_file := Path.join (marquees_dir self)
                                       (base_rom_name ++ ".png") in
            match FS.zip_extract members filename (extract_temp self) s with
            | (s1, Ret _) =>
                if FS.exists_ temp_file (fs s1) then
                  match (FS.copy2 temp_file dest_file;;
                         log self ("Extracted marquee " ++ filename ++ " to "
                                   ++ dest_file) "INFO";;
                         FS.unlink temp_file) s1 with
                  | (s2, Ret _) =>
                      artwork_loop self members items'
                                   (OD.set base_rom_name filename marquee_map) s2
                  | (s2, Raise e) => (s2, (marquee_map, Some e))
                  | (s2, SysExit _) => (s2, (marquee_map, None))
                  end
                else artwork_loop self members items' marquee_map s1
            | (s1, Raise e) => (s1, (marquee_map, Some e))
            | (s1, SysExit _) => (s1, (marquee_map, None))
            end
        else artwork_loop self members items' marquee_map s
    end.

Definition _extract_artwork_media (self : MameToBatocera) (zip_path : string)
    (artwork_map marquee_map : odict string) : M (odict string) :=
  fun s =>
    match FS.zip_open zip_path s with
    | (s1, Ret members) =>
        match artwork_loop self members artwork_map marquee_map s1 with
        | (s2, (marquee_map', None)) => (s2, Ret marquee_map')
        | (s2, (marquee_map', Some e)) =>
            (log self ("Failed to extract artwork media: " ++ e) "ERROR";;
             ret marquee_map') s2
        end
    | (s1, Raise e) =>
        (log self ("Failed to extract artwork media: " ++ e) "ERROR";;
         ret marquee_map) s1
    | (s1, SysExit n) => (s1, SysExit n)
    end.

Definition get_media_from_extras (self : MameToBatocera)
    : M (odict string * odict string * odict string) :=
  f ← get_fs;
  let snap_zip := Path.join (extras_dir self) "snap.zip" in
  snap_map ←
    (if FS.exists_ snap_zip f then
       snap_map ← extract_media_from_zip self snap_zip "snap";
       _extract_media_files self snap_zip snap_map (screenshots_dir self);;
       ret snap_map
     else ret []);
  f ← get_fs;
  let flyers_zip := Path.join (extras_dir self) "flyers.zip" in
  flyer_map ←
    (if FS.exists_ flyers_zip f then
       flyer_map ← extract_media_from_zip self flyers_zip "flyers";
       _extract_media_files self flyers_zip flyer_map (covers_dir self);;
       ret flyer_map
     else ret []);
  f ← get_fs;
  let artwork_zip := Path.join (extras_dir self) "artwork.zip" in
  marquee_map ←
    (if FS.exists_ artwork_zip f then
       artwork_map ← extract_media_from_zip self artwork_zip "artwork";
       _extract_artwork_media self artwork_zip artwork_map []
     else ret []);
  ret (snap_map, flyer_map, marquee_map).

Definition load_existing_gamelist (self : MameToBatocera)
    : M (odict Element) :=
  f ← get_fs;
  if negb (FS.exists_ (gamelist_path self) f) || no_merge self
  then ret []
  else
    try_except
      (root ← FS.et_parse (gamelist_path self);
       let existing_games := existing_of_root root in
       log self ("Loaded " ++ pretty (length existing_games)
                 ++ " existing games from gamelist.xml") "INFO";;
       ret existing_games)
      (fun e =>
         log self ("Failed to load existing gamelist.xml: " ++ e) "WARNING";;
         ret []).

Definition generate_gamelist (self : MameToBatocera) (merged_games : catalog)
    (snap_map flyer_map marquee_map : odict string) : M unit :=
  existing_games ← load_existing_gamelist self;
  processed ← get_processed;
  let '(gamelist_root, processed', preserved) :=
    gamelist_tree (no_merge self) merged_games snap_map flyer_map marquee_map
                  existing_games processed in
  put_processed processed';;
  for_each preserved
    (fun rom_name =>
       log self ("Preserved existing game not in MAME DAT: " ++ rom_name) "INFO");;
  let total := pretty (length (ET.findall "game" gamelist_root)) in
  if dry_run self then
    log self ("Would write gamelist.xml to " ++ gamelist_path self) "INFO";;
    log self ("Total games: " ++ total) "INFO"
  else
    let xml_str := _prettify_xml gamelist_root in
    FS.write_file (gamelist_path self)
      (mkFile xml_str (ET.parse_written (prettify 0 gamelist_root)));;
    log self ("Successfully wrote gamelist.xml with " ++ total ++ " games") "INFO".

Definition cleanup (self : MameToBatocera) : M unit :=
  f ← get_fs;
  if FS.exists_ (extract_temp self) f && negb (dry_run self)
  then FS.rmtree (extract_temp self);;
       log self ("Cleaned up temp directory: " ++ extract_temp self) "INFO"
  else ret tt.

(** The three optional catalog paths the classification loop of [run]
    assigns. *)
Definition classify_step (self : MameToBatocera)
    (paths : option string * option string * option string)
    (zip_file : string) : M (option string * option string * option string) :=
  let '(rom_dat_path, chd_dat_path, artwork_dat_path) := paths in
  let lname := PyStr.lower (PyPath.name zip_file) in
  if PyStr.contains "rom" lname then
    p ← extract_xml_from_zip self zip_file;
    ret (p, chd_dat_path, artwork_dat_path)
  else if PyStr.contains "chd" lname then
    p ← extract_xml_from_zip self zip_file;
    ret (rom_dat_path, p, artwork_dat_path)
  else if PyStr.contains "artwork" lname then
    p ← extract_xml_from_zip self zip_file;
    ret (rom_dat_path, chd_dat_path, p)
  else ret paths.

Fixpoint classify_all (self : MameToBatocera) (dat_zips : list string)
    (paths : option string * option string * option string)
    : M (option string * option string * option string) :=
  match dat_zips with
  | [] => ret paths
  | zip_file :: rest =>
      paths' ← classify_step self paths zip_file;
      classify_all self rest paths'
  end.

Definition parse_optional (self : MameToBatocera) (p : option string)
    : M catalog :=
  match p with
  | Some xml_path => parse_dat_xml self xml_path
  | None => ret (∅ : catalog)
  end.

(** [dat_zips]: the archives next to a file [dat_zip_path], else those in
    a directory [dat_zip_path]. *)
Definition find_dat_zips (self : MameToBatocera) (f : odict Node)
    : list string :=
  let dat_zips :=
    if FS.is_file (dat_zip_path self) f
    then FS.glob_zip (Path.parent (dat_zip_path self)) f else [] in
  match dat_zips with
  | [] => if FS.is_dir (dat_zip_path self) f
          then FS.glob_zip (dat_zip_path self) f else []
  | _ :: _ => dat_zips
  end.

(** The [try] block of [run]. *)
Definition run_body (self : MameToBatocera) : M unit :=
  log self "Starting MAME to Batocera conversion..." "INFO";;
  log self "Extracting and parsing DAT files..." "INFO";;
  f ← get_fs;
  let dat_zips := find_dat_zips self f in
  '(rom_dat_path, chd_dat_path, artwork_dat_path) ←
    classify_all self dat_zips (None, None, None);
  match rom_dat_path with
  | None => log self "Could not find ROM DAT file" "ERROR"
  | Some _ =>
      rom_games ← parse_optional self rom_dat_path;
      chd_games ← parse_optional self chd_dat_path;
      artwork_games ← parse_optional self artwork_dat_path;
      log self ("Parsed " ++ pretty (size rom_games) ++ " ROM games, "
                ++ pretty (size chd_games) ++ " CHD games, "
                ++ pretty (size artwork_games) ++ " artwork entries") "INFO";;
      let merged_games := merge_metadata rom_games chd_games artwork_games in
      log self ("Total merged games: " ++ pretty (size merged_games)) "INFO";;
      log self "Extracting media files..." "INFO";;
      '(snap_map, flyer_map, marquee_map) ← get_media_from_extras self;
      log self "Generating gamelist.xml..." "INFO";;
      generate_gamelist self merged_games snap_map flyer_map marquee_map;;
      log self "Conversion completed successfully!" "INFO"
  end.

Definition run (self : MameToBatocera) : M unit :=
  try_finally
    (try_except (run_body self)
       (fun e => log self ("Fatal error: " ++ e) "ERROR";; sys_exit 1))
    (cleanup self).

(** [main] with the parsed arguments: the state the process leaves and its
    exit status.  An exception that reaches the top level ends the process
    with status 1. *)
Definition main (args : Args) (s : State) : State * nat :=
  match (converter ← __init__ args; run converter) s with
  | (s', Ret _) => (s', 0)
  | (s', Raise _) => (s', 1)
  | (s', SysExit status) => (s', status)
  end.
(** *** Lookup equations of the three loops *)

Lemma merge_rom_id (rom_games : catalog) : merge_rom rom_games = rom_games.
Proof.
  unfold merge_rom.
  apply (map_fold_weak_ind (fun r (m : catalog) => r = m)); [done|].
  intros i x m r _ ->. done.
Qed.

Lemma merge_chd_lookup (merged chd_games : catalog) (id : string) :
  merge_chd merged chd_games !! id =
    match chd_games !! id with
    | None => merged !! id
    | Some data =>
        match merged !! id with
        | None => Some data
        | Some cur => Some (dict_update cur (truthy_fields data))
        end
    end.
Proof.
  unfold merge_chd. revert id.
  apply (map_fold_weak_ind (fun r (m : catalog) => forall id,
    r !! id = match m !! id with
              | None => merged !! id
              | Some data =>
                  match merged !! id with
                  | None => Some data
                  | Some cur => Some (dict_update cur (truthy_fields data))
                  end
              end)).
  - intros id. by rewrite lookup_empty.
  - intros i x m r Hi IH id. unfold merge_chd_step.
    pose proof (IH i) as IHi. rewrite Hi in IHi.
    destruct (decide (i = id)) as [->|Hne].
    + rewrite lookup_insert_eq. rewrite IHi.
      destruct (merged !! id); by rewrite lookup_insert_eq.
    + rewrite (lookup_insert_ne m) by done. rewrite <- IH.
      destruct (r !! i); by rewrite lookup_insert_ne.
Qed.

Lemma merge_artwork_lookup (merged artwork_games : catalog) (id : string) :
  merge_artwork merged artwork_games !! id =
    match artwork_games !! id with
    | None => merged !! id
    | Some data =>
        match merged !! id with
        | None => Some data
        | Some cur => Some (dict_update cur (truthy_missing_fields cur data))
        end
    end.
Proof.
  unfold merge_artwork. revert id.
  apply (map_fold_weak_ind (fun r (m : catalog) => forall id,
    r !! id = match m !! id with
              | None => merged !! id
              | Some data =>
                  match merged !! id with
                  | None => Some data
                  | Some cur =>
                      Some (dict_update cur (truthy_missing_fields cur data))
                  end
              end)).
  - intros id. by rewrite lookup_empty.
  - intros i x m r Hi IH id. unfold merge_artwork_step.
    pose proof (IH i) as IHi. rewrite Hi in IHi.
    destruct (decide (i = id)) as [->|Hne].
    + rewrite lookup_insert_eq. rewrite IHi.
      destruct (merged !! id); by rewrite lookup_insert_eq.
    + rewrite (lookup_insert_ne m) by done. rewrite <- IH.
      destruct (r !! i); by rewrite lookup_insert_ne.
Qed.

(** *** Field-level behaviour of the two update tiers *)

Lemma truthy_fields_lookup (data : record) (k : string) :
  truthy_fields data !! k =
    match data !! k with
    | Some v => if truthy v then Some v else None
    | None => None
    end.
Proof.
  unfold truthy_fields.
  destruct (data !! k) as [v|] eqn:Hk.
  - destruct (truthy v) eqn:Hv.
    + apply map_lookup_filter_Some. by split.
    + apply map_lookup_filter_None. right. intros v' Hv'. simpl.
      rewrite Hk in Hv'. injection Hv' as <-. by rewrite Hv.
  - apply map_lookup_filter_None. by left.
Qed.

Lemma truthy_missing_fields_lookup (cur data : record) (k : string) :
  truthy_missing_fields cur data !! k =
    match data !! k, cur !! k with
    | Some v, None => if truthy v then Some v else None
    | _, _ => None
    end.
Proof.
  unfold truthy_missing_fields.
  destruct (data !! k) as [v|] eqn:Hk.
  - destruct (cur !! k) as [w|] eqn:Hc.
    + apply map_lookup_filter_None. right. intros v' _ [_ Hn]. simpl in Hn.
      congruence.
    + destruct (truthy v) eqn:Hv.
      * apply map_lookup_filter_Some. by split.
      * apply map_lookup_filter_None. right. intros v' Hv' [Ht _]. simpl in Ht.
        rewrite Hk in Hv'. injection Hv' as <-. congruence.
  - apply map_lookup_filter_None. by left.
Qed.

Lemma dict_update_lookup {V} (d other : gmap string V) (k : string) :
  dict_update d other !! k =
    match other !! k with
    | Some v => Some v
    | None => d !! k
    end.
Proof.
  unfold dict_update. rewrite lookup_union.
  destruct (other !! k), (d !! k); done.
Qed.

(** The CHD tier on one record: a truthy CHD value replaces, anything else
    leaves the ROM binding (or its absence) as it is. *)
Lemma chd_update_field (cur data : record) (k : string) :
  dict_update cur (truthy_fields data) !! k =
    match data !! k with
    | Some v => if truthy v then Some v else cur !! k
    | None => cur !! k
    end.
Proof.
  rewrite dict_update_lookup, truthy_fields_lookup.
  destruct (data !! k) as [v|]; [destruct (truthy v)|]; done.
Qed.

(** The artwork tier on one record: a key already bound is kept; an
    unbound key receives a truthy artwork value. *)
Lemma artwork_update_field (cur data : record) (k : string) :
  dict_update cur (truthy_missing_fields cur data) !! k =
    match cur !! k with
    | Some w => Some w
    | None =>
        match data !! k with
        | Some v => if truthy v then Some v else None
        | None => None
        end
    end.
Proof.
  rewrite dict_update_lookup, truthy_missing_fields_lookup.
  destruct (data !! k) as [v|], (cur !! k) as [w|]; try done.
  by destruct (truthy v).
Qed.

(** The merged record of an identifier that both the ROM and the CHD
    catalog have, field by field. *)
Lemma merge_metadata_field_both (rom_games chd_games artwork_games : catalog)
    (id k : string) (rr rc : record) :
  rom_games !! id = Some rr ->
  chd_games !! id = Some rc ->
  field (merge_metadata rom_games chd_games artwork_games) id k =
    match dict_update rr (truthy_fields rc) !! k with
    | Some w => Some w
    | None =>
        match artwork_games !! id with
        | Some ra =>
            match ra !! k with
            | Some v => if truthy v then Some v else None
            | None => None
            end
        | None => None
        end
    end.
Proof.
  intros Hr Hc. unfold field, merge_metadata.
  rewrite merge_artwork_lookup, merge_chd_lookup, merge_rom_id, Hr, Hc.
  destruct (artwork_games !! id) as [ra|]; simpl.
  - apply artwork_update_field.
  - by destruct (dict_update rr (truthy_fields rc) !! k).
Qed.

(** *** Examples used below *)

Definition rom_pacman : catalog :=
  {[ "pacman" := ({[ "description" := PStr "Pac-Man (ROM set)";
                     "year" := PStr "1980";
                     "manufacturer" := PStr "" ]} : record) ]}.

Definition chd_pacman : catalog :=
  {[ "pacman" := ({[ "description" := PStr "Pac-Man (CHD set)";
                     "year" := PStr "";
                     "manufacturer" := PStr "Namco" ]} : record) ]}.

Definition artwork_pacman : catalog :=
  {[ "pacman" := ({[ "description" := PStr "Pac-Man (artwork)";
                     "manufacturer" := PStr "Midway";
                     "players" := PStr "2";
                     "driver_status" := PStr "" ]} : record);
     "galaga" := ({[ "description" := PStr "Galaga (artwork)" ]} : record) ]}.

(** C1, as the claim states it: on a field that is truthy in both the ROM
    and the CHD record of an identifier, the merged record would keep the
    ROM value. *)
Definition rom_value_wins_conflicts : Prop :=
  forall (rom_games chd_games artwork_games : catalog) (id k : string)
         (vr vc : pyval),
    field rom_games id k = Some vr -> truthy vr = true ->
    field chd_games id k = Some vc -> truthy vc = true ->
    field (merge_metadata rom_games chd_games artwork_games) id k = Some vr.

(** C1 (counterexample): with description ["Pac-Man (ROM set)"] in the ROM
    catalog and ["Pac-Man (CHD set)"] in the CHD catalog, the merged
    description is the CHD one, so the ROM value does not win. *)
Lemma rom_value_wins_conflicts_fails : ~ rom_value_wins_conflicts.
Proof.
  intros H.
  specialize (H rom_pacman chd_pacman ∅ "pacman" "description"
                (PStr "Pac-Man (ROM set)") (PStr "Pac-Man (CHD set)")
                eq_refl eq_refl eq_refl eq_refl).
  vm_compute in H. discriminate H.
Qed.

(** C1 (amended): for an identifier present in both the ROM and the CHD
    catalog, a truthy CHD value of a field is the merged value of that
    field, whatever the ROM record holds; the ROM value of a field stays
    exactly when the CHD record has no value or a falsy value for it. *)
Theorem chd_truthy_value_replaces_rom_value
    (rom_games chd_games artwork_games : catalog) (id k : string)
    (rr rc : record) :
  rom_games !! id = Some rr ->
  chd_games !! id = Some rc ->
  (forall vc, rc !! k = Some vc -> truthy vc = true ->
     field (merge_metadata rom_games chd_games artwork_games) id k = Some vc)
  /\ (forall vr, rr !! k = Some vr ->
        (forall vc, rc !! k = Some vc -> truthy vc = false) ->
        field (merge_metadata rom_games chd_games artwork_games) id k = Some vr).
Proof.
  intros Hr Hc.
  pose proof (merge_metadata_field_both rom_games chd_games artwork_games
                id k rr rc Hr Hc) as E.
  rewrite chd_update_field in E. split.
  - intros vc Hk Ht. rewrite E, Hk, Ht. done.
  - intros vr Hk Hf. rewrite E. destruct (rc !! k) as [vc|] eqn:Hck.
    + rewrite (Hf vc eq_refl), Hk. done.
    + rewrite Hk. done.
Qed.

Lemma chd_truthy_value_replaces_rom_value_witness :
  field (merge_metadata rom_pacman chd_pacman artwork_pacman)
        "pacman" "description" = Some (PStr "Pac-Man (CHD set)")
  /\ field (merge_metadata rom_pacman chd_pacman artwork_pacman)
           "pacman" "year" = Some (PStr "1980").
Proof.
  split.
  - refine (proj1 (chd_truthy_value_replaces_rom_value
                     rom_pacman chd_pacman artwork_pacman "pacman" "description"
                     _ _ eq_refl eq_refl) _ eq_refl eq_refl).
  - refine (proj2 (chd_truthy_value_replaces_rom_value
                     rom_pacman chd_pacman artwork_pacman "pacman" "year"
                     _ _ eq_refl eq_refl) _ eq_refl _).
    intros vc Hvc. vm_compute in Hvc. injection Hvc as <-. reflexivity.
Defined.

(** C3: for an identifier the merged ROM+CHD mapping already has, the
    artwork record adds a field only if its value is truthy and the key is
    not bound in the merged record, and leaves every bound key as it is,
    also one bound to a falsy value; for an identifier the mapping does not
    have, the artwork record is inserted whole. *)
Theorem artwork_fills_only_unbound_keys
    (rom_games chd_games artwork_games : catalog) (id : string) (ra : record) :
  artwork_games !! id = Some ra ->
  let merged := merge_chd (merge_rom rom_games) chd_games in
  (merged !! id = None ->
     merge_metadata rom_games chd_games artwork_games !! id = Some ra)
  /\ (forall cur, merged !! id = Some cur ->
        exists final,
          merge_metadata rom_games chd_games artwork_games !! id = Some final
          /\ forall k,
               final !! k =
                 match cur !! k with
                 | Some w => Some w
                 | None =>
                     match ra !! k with
                     | Some v => if truthy v then Some v else None
                     | None => None
                     end
                 end).
Proof.
  intros Ha merged. unfold merge_metadata. fold merged. split.
  - intros Hm. by rewrite merge_artwork_lookup, Ha, Hm.
  - intros cur Hm. eexists. split.
    + by rewrite merge_artwork_lookup, Ha, Hm.
    + intros k. apply artwork_update_field.
Qed.

Lemma artwork_fills_only_unbound_keys_witness :
  merge_metadata rom_pacman chd_pacman artwork_pacman !! "galaga"
    = Some ({[ "description" := PStr "Galaga (artwork)" ]} : record)
  /\ field (merge_metadata rom_pacman chd_pacman artwork_pacman)
           "pacman" "players" = Some (PStr "2")
  /\ field (merge_metadata rom_pacman chd_pacman artwork_pacman)
           "pacman" "manufacturer" = Some (PStr "Namco")
  /\ field (merge_metadata rom_pacman chd_pacman artwork_pacman)
           "pacman" "driver_status" = None.
Proof.
  pose proof (artwork_fills_only_unbound_keys rom_pacman chd_pacman
                artwork_pacman "galaga" _ eq_refl) as [Hnew _].
  pose proof (artwork_fills_only_unbound_keys rom_pacman chd_pacman
                artwork_pacman "pacman" _ eq_refl) as [_ Hold].
  split; [exact (Hnew eq_refl)|].
  destruct (Hold _ eq_refl) as (final & Hfin & Hk).
  unfold field. rewrite Hfin. simpl.
  rewrite (Hk "players"), (Hk "manufacturer"), (Hk "driver_status").
  repeat split.
Defined.

(** ** Properties of [create_gamelist_entry] *)

(** The text of the first child of [e] tagged [t]: [Some None] is an
    element without text, [None] no element at all. *)
Definition child_text (t : string) (e : Element) : option (option string) :=
  existing_field (Some e) t.

(** The thirteen fields every entry has, in document order. *)
Definition entry_fields : list string :=
  ["path"; "name"; "desc"; "image"; "thumbnail"; "marquee"; "video";
   "rating"; "releasedate"; "developer"; "publisher"; "genre"; "players"].

(** What a field holds when the existing record does not supply it. *)
Definition derived_text (rom_name : string) (mame_data : record)
    (snap_map marquee_map : odict string) (t : string) : option string :=
  if String.eqb t "path" then Some (zip_ref rom_name)
  else if String.eqb t "name" then
    match mame_data !! "description" with
    | Some v => as_text v
    | None => Some rom_name
    end
  else if String.eqb t "desc" then
    match mame_data !! "description" with
    | Some v => as_text v
    | None => Some ""
    end
  else if String.eqb t "image" || String.eqb t "thumbnail" then
    if OD.mem rom_name snap_map then Some (screenshot_ref rom_name) else None
  else if String.eqb t "marquee" then
    if OD.mem rom_name marquee_map then Some (marquee_ref rom_name) else None
  else if String.eqb t "releasedate" then releasedate_of_year mame_data
  else if String.eqb t "developer" || String.eqb t "publisher" then
    match mame_data !! "manufacturer" with
    | Some v => as_text v
    | None => Some ""
    end
  else if String.eqb t "genre" then Some "Arcade"
  else if String.eqb t "players" then mame_data !! "players" ≫= as_text
  else None.

Section entry.
Variables (rom_name : string) (mame_data : record).
Variables (snap_map flyer_map marquee_map : odict string).
Variable (existing_game : option Element).

Let entry : Element :=
  create_gamelist_entry rom_name mame_data snap_map flyer_map marquee_map
                        existing_game.

(** The entry is a [game] element whose children are the thirteen fields,
    each a leaf, followed by [hidden] when the driver status asks for it. *)
Lemma entry_shape :
  entry =
    mkElement "game" [] None None
      (map (fun t => ET.leaf t (field_text existing_game t
                                  (derived_text rom_name mame_data snap_map
                                                marquee_map t)))
           entry_fields
       ++ (if driver_hidden mame_data
           then [ET.leaf "hidden" (Some "true")] else []))%list.
Proof.
  unfold entry, create_gamelist_entry.
  destruct (driver_hidden mame_data); reflexivity.
Qed.

Lemma entry_tag : tag entry = "game".
Proof. rewrite entry_shape; reflexivity. Qed.

Lemma entry_children_tags :
  map tag (children entry) =
    (entry_fields ++ (if driver_hidden mame_data then ["hidden"] else []))%list.
Proof.
  rewrite entry_shape. simpl. destruct (driver_hidden mame_data); reflexivity.
Qed.

(** Each of the thirteen fields is found, as a leaf, with the existing
    text when the existing record has the field and the derived text
    otherwise. *)
Lemma entry_find_field (t : string) :
  In t entry_fields ->
  ET.find t entry =
    Some (ET.leaf t (field_text existing_game t
                       (derived_text rom_name mame_data snap_map
                                     marquee_map t))).
Proof.
  intros Hin. rewrite entry_shape.
  simpl in Hin.
  repeat (destruct Hin as [<- | Hin]; [reflexivity|]).
  destruct Hin.
Qed.

Lemma entry_child_text (t : string) :
  In t entry_fields ->
  child_text t entry =
    Some (field_text existing_game t
            (derived_text rom_name mame_data snap_map marquee_map t)).
Proof.
  intros Hin. unfold child_text, existing_field.
  rewrite (entry_find_field t Hin). reflexivity.
Qed.

Lemma entry_find_hidden :
  ET.find "hidden" entry =
    if driver_hidden mame_data
    then Some (ET.leaf "hidden" (Some "true")) else None.
Proof.
  rewrite entry_shape. destruct (driver_hidden mame_data); reflexivity.
Qed.

End entry.

(** *** Existing fields *)

Definition good_pacman : record :=
  {[ "description" := PStr "Pac-Man"; "year" := PStr "1980";
     "manufacturer" := PStr "Namco"; "driver_status" := PStr "good" ]}.

Definition edited_pacman : Element :=
  mkElement "game" [] None None
    [ET.leaf "path" (Some "./pacman.zip");
     ET.leaf "name" (Some "Pac-Man (my favourite)");
     ET.leaf "rating" (Some "0.9");
     ET.leaf "hidden" (Some "true")].

(** C2, as the claim states it: every field element of the existing record
    would be in the generated record with its text. *)
Definition every_existing_field_kept : Prop :=
  forall (rom_name : string) (mame_data : record)
         (snap_map flyer_map marquee_map : odict string)
         (existing_game : Element) (t : string) (x : option string),
    child_text t existing_game = Some x ->
    child_text t (create_gamelist_entry rom_name mame_data snap_map flyer_map
                    marquee_map (Some existing_game)) = Some x.

(** C2 (counterexample): an existing record with [<hidden>true</hidden>]
    for a machine whose driver status is [good] is regenerated without any
    [hidden] element. *)
Lemma every_existing_field_kept_fails : ~ every_existing_field_kept.
Proof.
  intros H.
  specialize (H "pacman" good_pacman [] [] [] edited_pacman "hidden"
                (Some "true") eq_refl).
  vm_compute in H. discriminate H.
Qed.

(** C2 (amended): for each of the thirteen fields [path], [name], [desc],
    [image], [thumbnail], [marquee], [video], [rating], [releasedate],
    [developer], [publisher], [genre] and [players], if the existing record
    of the identifier has the element, the generated record has it with the
    text of the existing one, whatever the catalogs and the media indices
    would derive. *)
Theorem existing_field_text_kept
    (rom_name : string) (mame_data : record)
    (snap_map flyer_map marquee_map : odict string)
    (existing_game : Element) (t : string) (x : option string) :
  In t entry_fields ->
  child_text t existing_game = Some x ->
  child_text t (create_gamelist_entry rom_name mame_data snap_map flyer_map
                  marquee_map (Some existing_game)) = Some x.
Proof.
  intros Hin Hx. rewrite entry_child_text by exact Hin.
  unfold child_text in Hx. unfold field_text. rewrite Hx. reflexivity.
Qed.

Lemma existing_field_text_kept_witness :
  child_text "rating"
    (create_gamelist_entry "pacman" good_pacman [] [] [] (Some edited_pacman))
    = Some (Some "0.9")
  /\ child_text "name"
       (create_gamelist_entry "pacman" good_pacman [] [] [] (Some edited_pacman))
       = Some (Some "Pac-Man (my favourite)").
Proof.
  split.
  - apply (existing_field_text_kept "pacman" good_pacman [] [] []
             edited_pacman "rating" (Some "0.9")).
    + simpl. tauto.
    + reflexivity.
  - apply (existing_field_text_kept "pacman" good_pacman [] [] []
             edited_pacman "name" (Some "Pac-Man (my favourite)")).
    + simpl. tauto.
    + reflexivity.
Defined.

(** *** Release date *)

(** C7, as the claim states it. *)
Definition year_normalization_as_stated : Prop :=
  forall (rom_name : string) (mame_data : record)
         (snap_map flyer_map marquee_map : odict string)
         (existing_game : option Element),
    existing_field existing_game "releasedate" = None ->
    let rd := child_text "releasedate"
                (create_gamelist_entry rom_name mame_data snap_map flyer_map
                   marquee_map existing_game) in
    (mame_data !! "year" = Some (PStr "1985") ->
       rd = Some (Some "19850101T000000"))
    /\ (mame_data !! "year" = Some (PStr "198?") ->
          rd = Some (Some "19850101T000000"))
    /\ (mame_data !! "year" = None -> rd = None).

(** C7 (counterexample): the year ["198?"] does not start with four digits,
    so the release date gets no text at all (and not ["19850101T000000"]). *)
Lemma year_normalization_as_stated_fails : ~ year_normalization_as_stated.
Proof.
  intros H.
  destruct (H "galaga" ({[ "year" := PStr "198?" ]} : record) [] [] [] None
              eq_refl) as (_ & H198 & _).
  specialize (H198 eq_refl). vm_compute in H198. discriminate H198.
Qed.

(** C7 (amended): in a record generated without an existing release date,
    the year ["1985"] gives the text ["19850101T000000"]; a year that
    starts with four decimal digits gives these four digits followed by
    ["0101T000000"]; the year ["198?"], a missing year and a year that
    matches neither form give a [releasedate] element without text, which
    is written [<releasedate />]. *)
Theorem releasedate_from_year
    (rom_name : string) (mame_data : record)
    (snap_map flyer_map marquee_map : odict string)
    (existing_game : option Element) :
  existing_field existing_game "releasedate" = None ->
  let rd := child_text "releasedate"
              (create_gamelist_entry rom_name mame_data snap_map flyer_map
                 marquee_map existing_game) in
  (mame_data !! "year" = Some (PStr "1985") ->
     rd = Some (Some "19850101T000000"))
  /\ (forall a b c d rest,
        mame_data !! "year"
          = Some (PStr (String a (String b (String c (String d rest))))) ->
        PyStr.re_digit a && PyStr.re_digit b && PyStr.re_digit c
          && PyStr.re_digit d = true ->
        rd = Some (Some (String a (String b (String c (String d date_suffix))))))
  /\ (mame_data !! "year" = Some (PStr "198?") -> rd = Some None)
  /\ (mame_data !! "year" = None -> rd = Some None)
  /\ (forall y,
        mame_data !! "year" = Some (PStr y) ->
        PyStr.isdigit y && Nat.eqb (String.length y) 4 = false ->
        PyStr.re_match_4digits y = None ->
        rd = Some None)
  /\ ET.tostring (ET.leaf "releasedate" None) = "<releasedate />".
Proof.
  intros Hex rd.
  assert (Hrd : rd = Some (releasedate_of_year mame_data)).
  { unfold rd. rewrite entry_child_text by (simpl; tauto).
    unfold field_text. rewrite Hex. reflexivity. }
  rewrite Hrd. unfold releasedate_of_year.
  repeat split.
  - intros ->. reflexivity.
  - intros a b c d rest -> Hd. simpl PyStr.nonempty. cbv iota.
    destruct (PyStr.isdigit _ && Nat.eqb _ 4) eqn:E.
    + apply andb_true_iff in E as [_ E]. apply Nat.eqb_eq in E.
      destruct rest; [reflexivity | discriminate E].
    + unfold PyStr.re_match_4digits. rewrite Hd. reflexivity.
  - intros ->. reflexivity.
  - intros ->. reflexivity.
  - intros y -> Hd Hm. rewrite Hd, Hm. by destruct (PyStr.nonempty y).
Qed.

Lemma releasedate_from_year_witness :
  child_text "releasedate"
    (create_gamelist_entry "galaga" ({[ "year" := PStr "1981?" ]} : record)
       [] [] [] None) = Some (Some "19810101T000000")
  /\ child_text "releasedate"
       (create_gamelist_entry "galaga" ({[ "year" := PStr "198?" ]} : record)
          [] [] [] None) = Some None.
Proof.
  split.
  - refine (proj1 (proj2 (releasedate_from_year "galaga"
                            ({[ "year" := PStr "1981?" ]} : record)
                            [] [] [] None eq_refl)) _ _ _ _ _ eq_refl eq_refl).
  - refine (proj1 (proj2 (proj2 (releasedate_from_year "galaga"
                            ({[ "year" := PStr "198?" ]} : record)
                            [] [] [] None eq_refl))) eq_refl).
Defined.

(** *** Fields without a value *)

(** C9, as the claim states it: a field with neither an existing nor a
    derivable value would have no element in the record. *)
Definition valueless_fields_omitted : Prop :=
  forall (rom_name : string) (mame_data : record)
         (snap_map flyer_map marquee_map : odict string)
         (existing_game : option Element) (t : string),
    In t entry_fields ->
    existing_field existing_game t = None ->
    derived_text rom_name mame_data snap_map marquee_map t = None ->
    ET.find t (create_gamelist_entry rom_name mame_data snap_map flyer_map
                 marquee_map existing_game) = None.

(** C9 (counterexample): a record generated from the catalog alone has a
    [video] element (without text). *)
Lemma valueless_fields_omitted_fails : ~ valueless_fields_omitted.
Proof.
  intros H.
  specialize (H "pacman" good_pacman [] [] [] None "video").
  assert (Hf : ET.find "video"
                 (create_gamelist_entry "pacman" good_pacman [] [] [] None)
               = None).
  { apply H; [simpl; tauto | reflexivity | reflexivity]. }
  vm_compute in Hf. discriminate Hf.
Qed.

(** C9 (amended): every generated record has the thirteen field elements,
    in their fixed order; a field with no existing and no derivable value
    (always [video] and [rating]; [image], [thumbnail] and [marquee] when
    the identifier is not in the media index) is an element without text,
    written as the empty element [<tag />]; only [hidden] is left out when
    it does not apply. *)
Theorem valueless_fields_are_empty_elements
    (rom_name : string) (mame_data : record)
    (snap_map flyer_map marquee_map : odict string)
    (existing_game : option Element) (t : string) :
  In t entry_fields ->
  existing_field existing_game t = None ->
  derived_text rom_name mame_data snap_map marquee_map t = None ->
  let entry := create_gamelist_entry rom_name mame_data snap_map flyer_map
                 marquee_map existing_game in
  ET.find t entry = Some (ET.leaf t None)
  /\ ET.tostring (ET.leaf t None) = "<" ++ t ++ " />"
  /\ firstn 13 (map tag (children entry)) = entry_fields
  /\ (driver_hidden mame_data = false -> ET.find "hidden" entry = None)
  /\ derived_text rom_name mame_data snap_map marquee_map "video" = None
  /\ derived_text rom_name mame_data snap_map marquee_map "rating" = None
  /\ (OD.mem rom_name snap_map = false ->
        derived_text rom_name mame_data snap_map marquee_map "image" = None
        /\ derived_text rom_name mame_data snap_map marquee_map "thumbnail"
           = None)
  /\ (OD.mem rom_name marquee_map = false ->
        derived_text rom_name mame_data snap_map marquee_map "marquee" = None).
Proof.
  intros Hin Hex Hder entry.
  split; [|split; [|split; [|split; [|split; [|split; [|split]]]]]].
  - unfold entry. rewrite entry_find_field by exact Hin.
    unfold field_text. rewrite Hex, Hder. reflexivity.
  - reflexivity.
  - unfold entry. rewrite entry_children_tags. reflexivity.
  - intros Hh. unfold entry. rewrite entry_find_hidden, Hh. reflexivity.
  - reflexivity.
  - reflexivity.
  - intros Hs. unfold derived_text. simpl. rewrite Hs. split; reflexivity.
  - intros Hm. unfold derived_text. simpl. rewrite Hm. reflexivity.
Qed.

Lemma valueless_fields_are_empty_elements_witness :
  ET.find "video" (create_gamelist_entry "pacman" good_pacman [] [] [] None)
    = Some (ET.leaf "video" None)
  /\ ET.tostring (ET.leaf "video" None) = "<video />".
Proof.
  pose proof (valueless_fields_are_empty_elements "pacman" good_pacman
                [] [] [] None "video") as H.
  destruct H as (H1 & H2 & _).
  - simpl. tauto.
  - reflexivity.
  - reflexivity.
  - split; [exact H1 | exact H2].
Defined.

(** ** Elements: induction, serialization, pretty-printing *)

Lemma Element_nested_ind (P : Element -> Prop) :
  (forall t a x tl cs, Forall P cs -> P (mkElement t a x tl cs)) ->
  forall e, P e.
Proof.
  intros H. fix IH 1. intros [t a x tl cs]. apply H.
  induction cs as [|c cs IHcs]; constructor; [apply IH | exact IHcs].
Qed.

Lemma append_cons (a : ascii) (s1 s2 : string) :
  String a s1 ++ s2 = String a (s1 ++ s2).
Proof. reflexivity. Qed.

Lemma append_empty_r (s : string) : s ++ "" = s.
Proof. induction s as [|a s IH]; [reflexivity|]. by rewrite append_cons, IH. Qed.

Lemma append_assoc (s1 s2 s3 : string) : (s1 ++ s2) ++ s3 = s1 ++ (s2 ++ s3).
Proof.
  induction s1 as [|a s1 IH]; [reflexivity|]. by rewrite !append_cons, IH.
Qed.

Lemma all_chars_app (p : ascii -> bool) (s1 s2 : string) :
  PyStr.all_chars p (s1 ++ s2) = PyStr.all_chars p s1 && PyStr.all_chars p s2.
Proof.
  induction s1 as [|a s1 IH]; [reflexivity|].
  rewrite append_cons. simpl. rewrite IH. by rewrite andb_assoc.
Qed.

Lemma repeat_indent_blank (n : nat) :
  PyStr.all_chars PyStr.py_isspace (PyStr.repeat_str n indent) = true.
Proof.
  induction n as [|n IH]; [reflexivity|].
  simpl. rewrite all_chars_app, IH. reflexivity.
Qed.

Lemma blank_indent_at (level : nat) : blank (Some (indent_at level)) = true.
Proof.
  unfold blank, indent_at, PyStr.strip_is_empty.
  rewrite all_chars_app, repeat_indent_blank. reflexivity.
Qed.

Lemma blank_indent_at_inner (level : nat) :
  blank (Some (indent_at level ++ indent)) = true.
Proof.
  pose proof (blank_indent_at level) as H.
  unfold blank, PyStr.strip_is_empty in *.
  rewrite all_chars_app, H. reflexivity.
Qed.

Lemma nonempty_indent_at (level : nat) : PyStr.nonempty (indent_at level) = true.
Proof. reflexivity. Qed.

Lemma nonempty_indent_at_inner (level : nat) :
  PyStr.nonempty (indent_at level ++ indent) = true.
Proof. reflexivity. Qed.

(** *** Equations of [prettify] *)

Lemma prettify_leaf level t a x tl :
  prettify level (mkElement t a x tl []) =
    mkElement t a x
      (if negb (Nat.eqb level 0) && blank tl then Some (indent_at level) else tl)
      [].
Proof. reflexivity. Qed.

Lemma prettify_node level t a x tl c cs :
  prettify level (mkElement t a x tl (c :: cs)) =
    mkElement t a
      (if blank x then Some (indent_at level ++ indent) else x)
      (if blank tl then Some (indent_at level) else tl)
      (map (prettify (S level)) (c :: cs)).
Proof.
  cbn [prettify]. f_equal.
  destruct (blank tl) eqn:E; [by rewrite blank_indent_at | by rewrite E].
Qed.

Lemma prettify_tag level e : tag (prettify level e) = tag e.
Proof. destruct e as [t a x tl [|c cs]]; reflexivity. Qed.

Lemma prettify_attrib level e : attrib (prettify level e) = attrib e.
Proof. destruct e as [t a x tl [|c cs]]; reflexivity. Qed.

Lemma prettify_children level e :
  children (prettify level e) = map (prettify (S level)) (children e).
Proof. destruct e as [t a x tl [|c cs]]; reflexivity. Qed.

Lemma prettify_leaf_text level e :
  children e = [] -> text (prettify level e) = text e.
Proof. destruct e as [t a x tl [|c cs]]; [reflexivity | discriminate]. Qed.

(** Pretty-printing twice is pretty-printing once. *)
Lemma prettify_idempotent (e : Element) :
  forall level, prettify level (prettify level e) = prettify level e.
Proof.
  induction e as [t a x tl cs IH] using Element_nested_ind. intros level.
  destruct cs as [|c cs].
  - rewrite !prettify_leaf. f_equal.
    destruct (negb (Nat.eqb level 0)); simpl; [|reflexivity].
    destruct (blank tl) eqn:E; [by rewrite blank_indent_at | by rewrite E].
  - rewrite prettify_node.
    change (map (prettify (S level)) (c :: cs))
      with (prettify (S level) c :: map (prettify (S level)) cs).
    rewrite prettify_node. f_equal.
    + destruct (blank x) eqn:E; [by rewrite blank_indent_at_inner | by rewrite E].
    + destruct (blank tl) eqn:E; [by rewrite blank_indent_at | by rewrite E].
    + change (prettify (S level) c :: map (prettify (S level)) cs)
        with (map (prettify (S level)) (c :: cs)).
      rewrite map_map. apply map_ext_Forall.
      eapply Forall_impl; [exact IH|]. intros e' He'. apply He'.
Qed.

(** *** Reading a written document back *)

(** Reading back without the end-of-line handling: what [ET.read_back]
    does on character data that holds no carriage return. *)
Definition reparse_str (x : option string) : option string :=
  match x with
  | Some s => if PyStr.nonempty s then Some s else None
  | None => None
  end.

Fixpoint reparse_elem (e : Element) : Element :=
  match e with
  | mkElement t a x tl cs =>
      mkElement t a (reparse_str x) (reparse_str tl) (map reparse_elem cs)
  end.

Definition reparse (root : Element) : Element :=
  match reparse_elem root with
  | mkElement t a x _ cs => mkElement t a x None cs
  end.

Lemma reparse_str_blank x : blank (reparse_str x) = blank x.
Proof. destruct x as [[|c s]|]; reflexivity. Qed.

Lemma reparse_str_not_blank x : blank x = false -> reparse_str x = x.
Proof. destruct x as [[|c s]|]; try reflexivity; discriminate. Qed.

Lemma reparse_str_idempotent x :
  reparse_str (reparse_str x) = reparse_str x.
Proof. destruct x as [[|c s]|]; reflexivity. Qed.

Lemma reparse_elem_eq t a x tl cs :
  reparse_elem (mkElement t a x tl cs) =
    mkElement t a (reparse_str x) (reparse_str tl)
              (map reparse_elem cs).
Proof. reflexivity. Qed.

Lemma reparse_elem_tag e : tag (reparse_elem e) = tag e.
Proof. destruct e; reflexivity. Qed.

Lemma reparse_elem_children e :
  children (reparse_elem e) = map reparse_elem (children e).
Proof. destruct e; reflexivity. Qed.

Lemma reparse_elem_text e :
  text (reparse_elem e) = reparse_str (text e).
Proof. destruct e; reflexivity. Qed.

Lemma reparse_children root :
  children (reparse root) = map reparse_elem (children root).
Proof. destruct root; reflexivity. Qed.

Lemma reparse_elem_idempotent (e : Element) :
  reparse_elem (reparse_elem e) = reparse_elem e.
Proof.
  induction e as [t a x tl cs IH] using Element_nested_ind.
  rewrite !reparse_elem_eq, !reparse_str_idempotent. f_equal.
  rewrite map_map. apply map_ext_Forall. exact IH.
Qed.

(** Pretty-printing a tree that was read back gives, up to reading back,
    the pretty-printed tree. *)
Lemma reparse_prettify_reparse (e : Element) :
  forall level,
    reparse_elem (prettify level (reparse_elem e))
    = reparse_elem (prettify level e).
Proof.
  induction e as [t a x tl cs IH] using Element_nested_ind. intros level.
  rewrite reparse_elem_eq. destruct cs as [|c cs].
  - simpl map. rewrite !prettify_leaf, !reparse_elem_eq. f_equal.
    + apply reparse_str_idempotent.
    + rewrite reparse_str_blank.
      destruct (negb (Nat.eqb level 0) && blank tl); [reflexivity|].
      apply reparse_str_idempotent.
  - change (map reparse_elem (c :: cs))
      with (reparse_elem c :: map reparse_elem cs).
    rewrite !prettify_node, !reparse_elem_eq, !reparse_str_blank. f_equal.
    + destruct (blank x); [reflexivity | apply reparse_str_idempotent].
    + destruct (blank tl); [reflexivity | apply reparse_str_idempotent].
    + change (reparse_elem c :: map reparse_elem cs)
        with (map reparse_elem (c :: cs)).
      rewrite !map_map. apply map_ext_Forall.
      eapply Forall_impl; [exact IH|]. intros e' He'. apply He'.
Qed.

(** *** Serialization *)

Definition concat_str (l : list string) : string :=
  fold_right String.append "" l.

Lemma serialize_children_eq (cs : list Element) :
  (fix go (l : list Element) : string :=
     match l with
     | [] => EmptyString
     | c :: l' => ET.serialize c ++ go l'
     end) cs = concat_str (map ET.serialize cs).
Proof.
  induction cs as [|c cs IH]; [reflexivity|].
  cbn [map concat_str fold_right]. f_equal. exact IH.
Qed.

Lemma serialize_eq t a x tl cs :
  ET.serialize (mkElement t a x tl cs) =
    "<" ++ t ++ String.concat "" (map ET.write_attrib a)
    ++ (if ET.has_text x || negb (Nat.eqb (length cs) 0)
        then ">" ++ ET.write_cdata x ++ concat_str (map ET.serialize cs)
             ++ "</" ++ t ++ ">"
        else " />")
    ++ ET.write_cdata tl.
Proof.
  rewrite <- (serialize_children_eq cs). reflexivity.
Qed.

Lemma has_text_reparse x : ET.has_text (reparse_str x) = ET.has_text x.
Proof. destruct x as [[|c s]|]; reflexivity. Qed.

Lemma write_cdata_reparse x :
  ET.write_cdata (reparse_str x) = ET.write_cdata x.
Proof. destruct x as [[|c s]|]; reflexivity. Qed.

(** A tree and the tree read back are written the same. *)
Lemma serialize_reparse (e : Element) :
  ET.serialize (reparse_elem e) = ET.serialize e.
Proof.
  induction e as [t a x tl cs IH] using Element_nested_ind.
  rewrite reparse_elem_eq, !serialize_eq.
  rewrite has_text_reparse, !write_cdata_reparse, length_map, map_map.
  replace (map (fun c => ET.serialize (reparse_elem c)) cs)
    with (map ET.serialize cs); [reflexivity|].
  apply map_ext_Forall. eapply Forall_impl; [exact IH|].
  intros e' He'. symmetry. exact He'.
Qed.

Lemma serialize_reparse_eq (e1 e2 : Element) :
  reparse_elem e1 = reparse_elem e2 ->
  ET.serialize e1 = ET.serialize e2.
Proof.
  intros H. rewrite <- (serialize_reparse e1), <- (serialize_reparse e2).
  by rewrite H.
Qed.

(** Writing, reading back and pretty-printing again changes no byte. *)
Lemma serialize_prettify_reparse (level : nat) (e : Element) :
  ET.serialize (prettify level (reparse_elem e))
  = ET.serialize (prettify level e).
Proof.
  apply serialize_reparse_eq, reparse_prettify_reparse.
Qed.

Lemma serialize_prettify_twice (level : nat) (e : Element) :
  ET.serialize (prettify level (reparse_elem (prettify level e)))
  = ET.serialize (prettify level e).
Proof.
  rewrite serialize_prettify_reparse, prettify_idempotent. reflexivity.
Qed.

(** *** The parser on a written document without control characters *)

Definition plain_text (x : option string) : bool :=
  match x with
  | Some s => PyStr.all_chars ET.plain_char s
  | None => true
  end.

(** No character data holds another control character than tab and line
    feed, and no attribute value one the parser rejects. *)
Fixpoint plain_tree (e : Element) : bool :=
  match e with
  | mkElement t a x tl cs =>
      forallb (fun kv => PyStr.all_chars ET.xml_char (snd kv)) a
      && plain_text x && plain_text tl && forallb plain_tree cs
  end.

Lemma plain_char_xml_char (a : ascii) :
  ET.plain_char a = true -> ET.xml_char a = true.
Proof.
  unfold ET.plain_char, ET.xml_char. intros H.
  apply orb_true_iff in H as [H|H]; [|by rewrite H, orb_true_r].
  apply orb_true_iff in H as [H|H]; rewrite H; [reflexivity|].
  by rewrite orb_true_r.
Qed.

Lemma plain_char_not_cr (a : ascii) :
  ET.plain_char a = true -> Ascii.eqb a (ascii_of_nat 13) = false.
Proof.
  intros H. destruct (Ascii.eqb_spec a (ascii_of_nat 13)) as [->|]; [|reflexivity].
  discriminate H.
Qed.

Lemma all_chars_impl (p q : ascii -> bool) (s : string) :
  (forall a, p a = true -> q a = true) ->
  PyStr.all_chars p s = true -> PyStr.all_chars q s = true.
Proof.
  intros Hpq. induction s as [|a s IH]; [reflexivity|]. simpl.
  rewrite !andb_true_iff. intros [Ha Hs]. split; [by apply Hpq | by apply IH].
Qed.

Lemma normalize_newlines_plain (s : string) :
  PyStr.all_chars ET.plain_char s = true -> ET.normalize_newlines s = s.
Proof.
  induction s as [|a s IH]; [reflexivity|]. simpl.
  rewrite andb_true_iff. intros [Ha Hs].
  rewrite (plain_char_not_cr a Ha). f_equal. by apply IH.
Qed.

Lemma escape_cdata_plain (s : string) :
  PyStr.all_chars ET.plain_char (ET.escape_cdata s) = true ->
  PyStr.all_chars ET.plain_char s = true.
Proof.
  induction s as [|a s IH]; [reflexivity|]. simpl.
  rewrite all_chars_app, !andb_true_iff. intros [Ha Hs].
  split; [|by apply IH]. clear IH Hs.
  destruct (Ascii.eqb_spec a "&") as [->|_]; [reflexivity|].
  destruct (Ascii.eqb_spec a "<") as [->|_]; [reflexivity|].
  destruct (Ascii.eqb_spec a ">") as [->|_]; [reflexivity|].
  simpl in Ha. by rewrite andb_true_r in Ha.
Qed.

Lemma escape_attrib_plain (s : string) :
  PyStr.all_chars ET.plain_char (ET.escape_attrib s) = true ->
  PyStr.all_chars ET.xml_char s = true.
Proof.
  induction s as [|a s IH]; [reflexivity|]. simpl.
  rewrite all_chars_app, !andb_true_iff. intros [Ha Hs].
  split; [|by apply IH]. clear IH Hs.
  destruct (Ascii.eqb_spec a "&") as [->|_]; [reflexivity|].
  destruct (Ascii.eqb_spec a "<") as [->|_]; [reflexivity|].
  destruct (Ascii.eqb_spec a ">") as [->|_]; [reflexivity|].
  destruct (Ascii.eqb_spec a (ascii_of_nat 34)) as [->|_]; [reflexivity|].
  destruct (Ascii.eqb_spec a (ascii_of_nat 13)) as [->|_]; [reflexivity|].
  destruct (Ascii.eqb_spec a (ascii_of_nat 10)) as [->|_]; [reflexivity|].
  destruct (Ascii.eqb_spec a (ascii_of_nat 9)) as [->|_]; [reflexivity|].
  simpl in Ha. rewrite andb_true_r in Ha. by apply plain_char_xml_char.
Qed.

Lemma write_cdata_plain (x : option string) :
  PyStr.all_chars ET.plain_char (ET.write_cdata x) = true -> plain_text x = true.
Proof. destruct x as [s|]; [apply escape_cdata_plain | reflexivity]. Qed.

Lemma write_attribs_plain (a : list (string * string)) :
  PyStr.all_chars ET.plain_char (String.concat "" (map ET.write_attrib a)) = true ->
  forallb (fun kv => PyStr.all_chars ET.xml_char (snd kv)) a = true.
Proof.
  induction a as [|kv a IH]; [reflexivity|].
  assert (Hkv : forall rest,
             PyStr.all_chars ET.plain_char (ET.write_attrib kv ++ rest) = true ->
             PyStr.all_chars ET.xml_char (snd kv) = true
             /\ PyStr.all_chars ET.plain_char rest = true).
  { intros rest. unfold ET.write_attrib.
    rewrite !all_chars_app, !andb_true_iff.
    intros [(_ & _ & _ & _ & Hv & _) Hrest].
    split; [by apply escape_attrib_plain | exact Hrest]. }
  intros H. cbn [forallb]. apply andb_true_iff.
  destruct a as [|kv' a'].
  - cbn [map String.concat] in H. rewrite <- (append_empty_r (ET.write_attrib kv)) in H.
    destruct (Hkv _ H) as [Hv _]. by split.
  - change (String.concat "" (map ET.write_attrib (kv :: kv' :: a')))
      with (ET.write_attrib kv ++ ""
            ++ String.concat "" (map ET.write_attrib (kv' :: a'))) in H.
    destruct (Hkv _ H) as [Hv Hrest]. split; [exact Hv | by apply IH].
Qed.

(** A document of plain characters comes from a plain tree. *)
Lemma serialize_plain (e : Element) :
  PyStr.all_chars ET.plain_char (ET.serialize e) = true -> plain_tree e = true.
Proof.
  induction e as [t a x tl cs IH] using Element_nested_ind.
  rewrite serialize_eq, !all_chars_app, !andb_true_iff.
  intros (_ & _ & Ha & Hbody & Htl).
  cbn [plain_tree]. rewrite !andb_true_iff. repeat split.
  - by apply write_attribs_plain.
  - destruct (ET.has_text x || negb (Nat.eqb (length cs) 0)) eqn:E.
    + rewrite !all_chars_app, !andb_true_iff in Hbody.
      destruct Hbody as (_ & Hx & _). by apply write_cdata_plain.
    + apply orb_false_iff in E as [E _]. by destruct x as [[|c s]|].
  - by apply write_cdata_plain.
  - destruct (ET.has_text x || negb (Nat.eqb (length cs) 0)) eqn:E.
    + rewrite !all_chars_app, !andb_true_iff in Hbody.
      destruct Hbody as (_ & _ & Hcs & _).
      clear E. induction cs as [|c cs IHcs]; [reflexivity|].
      cbn [map concat_str fold_right] in Hcs.
      rewrite all_chars_app, andb_true_iff in Hcs. destruct Hcs as [Hc Hcs].
      apply Forall_cons in IH as [IHc IH].
      cbn [forallb]. rewrite (IHc Hc). by apply IHcs.
    + apply orb_false_iff in E as [_ E]. by destruct cs.
Qed.

Lemma read_back_str_plain (x : option string) :
  plain_text x = true -> ET.read_back_str x = reparse_str x.
Proof.
  destruct x as [[|c s]|]; try reflexivity. intros H.
  unfold ET.read_back_str, reparse_str. cbn [PyStr.nonempty].
  by rewrite (normalize_newlines_plain _ H).
Qed.

Lemma read_back_elem_plain (e : Element) :
  plain_tree e = true -> ET.read_back_elem e = reparse_elem e.
Proof.
  induction e as [t a x tl cs IH] using Element_nested_ind.
  cbn [plain_tree]. rewrite !andb_true_iff. intros [[[_ Hx] Htl] Hcs].
  cbn [ET.read_back_elem reparse_elem].
  rewrite (read_back_str_plain x Hx), (read_back_str_plain tl Htl). f_equal.
  apply map_ext_Forall. rewrite forallb_forall in Hcs.
  rewrite List.Forall_forall in IH. apply List.Forall_forall.
  intros c Hc. apply (IH c Hc), (Hcs c Hc).
Qed.

Lemma plain_tree_well_formed (e : Element) :
  plain_tree e = true -> ET.well_formed e = true.
Proof.
  induction e as [t a x tl cs IH] using Element_nested_ind.
  cbn [plain_tree ET.well_formed]. rewrite !andb_true_iff.
  intros [[[Ha Hx] Htl] Hcs].
  assert (Hok : forall y, plain_text y = true -> ET.chars_ok y = true).
  { intros [s|] Hy; [|reflexivity].
    exact (all_chars_impl _ _ s plain_char_xml_char Hy). }
  repeat split; [exact Ha | by apply Hok | by apply Hok |].
  apply forallb_forall. intros c Hc. rewrite forallb_forall in Hcs.
  rewrite List.Forall_forall in IH. apply (IH c Hc), (Hcs c Hc).
Qed.

(** The root after pretty-printing has no tail or a line feed. *)
Lemma prettify_root_tail (e : Element) :
  tail e = None ->
  match tail (prettify 0 e) with
  | Some s => PyStr.all_chars ET.xml_space s
  | None => true
  end = true.
Proof. destruct e as [t a x tl [|c cs]]; simpl; intros ->; reflexivity. Qed.

(** The parser accepts a pretty-printed document of plain characters, and
    reads it back as written. *)
Lemma parse_written_plain (e : Element) :
  tail e = None ->
  PyStr.all_chars ET.plain_char (_prettify_xml e) = true ->
  ET.parse_written (prettify 0 e) = Some (reparse (prettify 0 e)).
Proof.
  intros Htl H. unfold _prettify_xml in H.
  rewrite all_chars_app, andb_true_iff in H. destruct H as [_ H].
  apply serialize_plain in H. unfold ET.parse_written.
  rewrite (plain_tree_well_formed _ H), (prettify_root_tail e Htl). simpl.
  unfold ET.read_back, reparse. by rewrite (read_back_elem_plain _ H).
Qed.

(** ** Insertion-ordered dictionaries: lookup and update *)

Lemma od_get_set_eq {V} (k : string) (v : V) (d : odict V) :
  OD.get k (OD.set k v d) = Some v.
Proof.
  induction d as [|[k' v'] d IH]; simpl.
  - by rewrite String.eqb_refl.
  - destruct (String.eqb k' k) eqn:E; simpl.
    + by rewrite String.eqb_refl.
    + by rewrite E.
Qed.

Lemma od_get_set_ne {V} (k k' : string) (v : V) (d : odict V) :
  k <> k' -> OD.get k' (OD.set k v d) = OD.get k' d.
Proof.
  intros Hne. induction d as [|[k0 v0] d IH]; simpl.
  - apply String.eqb_neq in Hne. by rewrite Hne.
  - destruct (String.eqb k0 k) eqn:E; simpl.
    + apply String.eqb_eq in E. subst k0.
      apply String.eqb_neq in Hne. by rewrite Hne.
    + by rewrite IH.
Qed.

Lemma od_get_None {V} (k : string) (d : odict V) :
  OD.get k d = None <-> ~ In k (map fst d).
Proof.
  induction d as [|[k' v'] d IH]; simpl; [tauto|].
  destruct (String.eqb k' k) eqn:E.
  - apply String.eqb_eq in E. split; [discriminate | tauto].
  - apply String.eqb_neq in E. rewrite IH. tauto.
Qed.

Lemma od_get_In {V} (k : string) (v : V) (d : odict V) :
  OD.get k d = Some v -> In (k, v) d.
Proof.
  induction d as [|[k' v'] d IH]; simpl; [discriminate|].
  destruct (String.eqb k' k) eqn:E.
  - apply String.eqb_eq in E. intros [= ->]. left. by subst.
  - intros H. right. by apply IH.
Qed.

Lemma od_In_get {V} (k : string) (v : V) (d : odict V) :
  List.NoDup (map fst d) -> In (k, v) d -> OD.get k d = Some v.
Proof.
  induction d as [|[k' v'] d IH]; simpl; [tauto|].
  intros Hnd [Heq | Hin].
  - injection Heq as -> ->. by rewrite String.eqb_refl.
  - apply List.NoDup_cons_iff in Hnd as [Hk Hnd].
    destruct (String.eqb k' k) eqn:E.
    + apply String.eqb_eq in E. subst k'. exfalso. apply Hk.
      apply in_map_iff. by exists (k, v).
    + by apply IH.
Qed.

Lemma od_set_fresh {V} (k : string) (v : V) (d : odict V) :
  OD.get k d = None -> OD.set k v d = (d ++ [(k, v)])%list.
Proof.
  induction d as [|[k' v'] d IH]; simpl; [reflexivity|].
  destruct (String.eqb k' k); [discriminate|].
  intros H. by rewrite IH.
Qed.

Lemma od_keys_set {V} (k : string) (v : V) (d : odict V) :
  map fst (OD.set k v d) =
    if OD.mem k d then map fst d else (map fst d ++ [k])%list.
Proof.
  unfold OD.mem. induction d as [|[k' v'] d IH]; simpl; [reflexivity|].
  destruct (String.eqb k' k) eqn:E; simpl.
  - apply String.eqb_eq in E. by subst.
  - rewrite IH. by destruct (OD.get k d).
Qed.

Lemma od_set_NoDup {V} (k : string) (v : V) (d : odict V) :
  List.NoDup (map fst d) -> List.NoDup (map fst (OD.set k v d)).
Proof.
  intros Hnd. rewrite od_keys_set. unfold OD.mem.
  destruct (OD.get k d) eqn:E; [exact Hnd|].
  apply od_get_None in E.
  apply NoDup_ListNoDup, NoDup_app. repeat split.
  - by apply NoDup_ListNoDup.
  - intros x Hx Hk. apply list_elem_of_singleton in Hk. subst x.
    apply E. by apply list_elem_of_In.
  - apply NoDup_singleton.
Qed.

Lemma od_set_In {V} (k : string) (v : V) (d : odict V) (kv : string * V) :
  In kv (OD.set k v d) -> kv = (k, v) \/ In kv d.
Proof.
  induction d as [|[k' v'] d IH]; simpl.
  - intros [<-|[]]. by left.
  - destruct (String.eqb k' k); simpl.
    + intros [<-|H]; [by left | by right; right].
    + intros [<-|H]; [by right; left|].
      destruct (IH H) as [->|H']; [by left | by right; right].
Qed.

(** Storing bindings with pairwise different, unbound keys appends them in
    order. *)
Lemma od_fold_set_fresh {V} (l d : odict V) :
  List.NoDup (map fst l) ->
  (forall k, In k (map fst l) -> OD.get k d = None) ->
  fold_left (fun acc kv => OD.set (fst kv) (snd kv) acc) l d = (d ++ l)%list.
Proof.
  revert d. induction l as [|[k v] l IH]; intros d Hnd Hfresh; simpl.
  - by rewrite app_nil_r.
  - apply List.NoDup_cons_iff in Hnd as [Hk Hnd].
    rewrite od_set_fresh by (apply Hfresh; by left).
    rewrite IH.
    + by rewrite <- app_assoc.
    + exact Hnd.
    + intros k' Hk'. apply od_get_None. rewrite map_app, in_app_iff. simpl.
      intros [Hd | [<- | []]].
      * specialize (Hfresh k' (or_intror Hk')). by apply od_get_None in Hfresh.
      * exact (Hk Hk').
Qed.

(** ** The sorted identifiers *)

Lemma sorted_keys_In (merged_games : catalog) (r : string) :
  In r (sorted_keys merged_games) <-> is_Some (merged_games !! r).
Proof.
  unfold sorted_keys. rewrite <- list_elem_of_In.
  rewrite (merge_sort_Permutation String.le).
  change (map fst (map_to_list merged_games)) with (map_to_list merged_games).*1.
  rewrite list_elem_of_fmap. split.
  - intros [[k d] [-> Hin]]. apply elem_of_map_to_list in Hin. by exists d.
  - intros [d Hd]. exists (r, d). split; [reflexivity|].
    by apply elem_of_map_to_list.
Qed.

Lemma sorted_keys_NoDup (merged_games : catalog) :
  List.NoDup (sorted_keys merged_games).
Proof.
  apply NoDup_ListNoDup. unfold sorted_keys.
  rewrite (merge_sort_Permutation String.le).
  apply NoDup_fst_map_to_list.
Qed.

Lemma sorted_keys_sorted (merged_games : catalog) :
  Sorted String.le (sorted_keys merged_games).
Proof. apply (Sorted_merge_sort String.le). Qed.

(** ** The tree built by [generate_gamelist] *)

Definition append_all (root : Element) (cs : list Element) : Element :=
  mkElement (tag root) (attrib root) (text root) (tail root)
            (children root ++ cs)%list.

(** The entry the first loop appends for [rom_name]. *)
Definition entry_of (merged_games : catalog)
    (snap_map flyer_map marquee_map : odict string)
    (existing_games : odict Element) (rom_name : string) : option Element :=
  match merged_games !! rom_name with
  | Some game_data =>
      Some (create_gamelist_entry rom_name game_data snap_map flyer_map
              marquee_map (OD.get rom_name existing_games))
  | None => None
  end.

(** The existing games the second loop appends: those whose identifier is
    not a merged one. *)
Definition orphans_of (merged_games : catalog)
    (existing_games : odict Element) : odict Element :=
  List.filter
    (fun kv => match merged_games !! fst kv with Some _ => false | None => true end)
    existing_games.

Lemma append_all_nil root : append_all root [] = root.
Proof. destruct root. unfold append_all. simpl. by rewrite app_nil_r. Qed.

Lemma append_all_append root cs c :
  ET.append (append_all root cs) c = append_all root (cs ++ [c]).
Proof. destruct root. unfold append_all. simpl. by rewrite <- app_assoc. Qed.

Lemma append_all_app root cs1 cs2 :
  append_all (append_all root cs1) cs2 = append_all root (cs1 ++ cs2).
Proof. destruct root. unfold append_all. simpl. by rewrite <- app_assoc. Qed.

Section generator.
Variables (merged_games : catalog).
Variables (snap_map flyer_map marquee_map : odict string).
Variable (existing_games : odict Element).

Let entry := entry_of merged_games snap_map flyer_map marquee_map existing_games.

Let step := fun (acc : Element * gset string) (rom_name : string) =>
  match merged_games !! rom_name with
  | Some game_data =>
      (ET.append (fst acc)
         (create_gamelist_entry rom_name game_data snap_map flyer_map
            marquee_map (OD.get rom_name existing_games)),
       ({[rom_name]} ∪ snd acc : gset string))
  | None => acc
  end.

Lemma process_loop_root (ks : list string) (root : Element) (P : gset string) :
  fst (fold_left step ks (root, P)) = append_all root (omap entry ks).
Proof.
  revert root P. induction ks as [|r ks IH]; intros root P; simpl.
  - by rewrite append_all_nil.
  - unfold step at 2, entry at 1, entry_of. destruct (merged_games !! r) as [d|]; simpl.
    + rewrite IH. rewrite <- (append_all_nil root) at 1.
      rewrite append_all_append, append_all_app. reflexivity.
    + apply IH.
Qed.

Lemma process_loop_set (ks : list string) (root : Element) (P : gset string)
    (r : string) :
  r ∈ snd (fold_left step ks (root, P))
  <-> r ∈ P \/ (In r ks /\ is_Some (merged_games !! r)).
Proof.
  revert root P. induction ks as [|k ks IH]; intros root P; simpl.
  - split; [by left | intros [H|[[] _]]; exact H].
  - destruct (step (root, P) k) as [root' P'] eqn:Es. rewrite IH.
    unfold step in Es. destruct (merged_games !! k) as [d|] eqn:Hk;
      simpl in Es; injection Es as <- <-.
    + assert (Hs : is_Some (merged_games !! k)) by (by rewrite Hk).
      rewrite elem_of_union, elem_of_singleton.
      split; intros H;
        [destruct H as [[H|H]|[H1 H2]] | destruct H as [H|[[H1|H1] H2]]];
        subst; tauto.
    + assert (Hn : ~ is_Some (merged_games !! k)).
      { rewrite Hk. by intros [? ?]. }
      split; intros H;
        [destruct H as [H|[H1 H2]] | destruct H as [H|[[H1|H1] H2]]];
        subst; tauto.
Qed.

Lemma process_games_root (root : Element) (P : gset string) :
  fst (process_games merged_games snap_map flyer_map marquee_map
         existing_games (root, P))
  = append_all root (omap entry (sorted_keys merged_games)).
Proof. apply process_loop_root. Qed.

Lemma process_games_set (root : Element) (P : gset string) (r : string) :
  r ∈ snd (process_games merged_games snap_map flyer_map marquee_map
             existing_games (root, P))
  <-> r ∈ P \/ is_Some (merged_games !! r).
Proof.
  unfold process_games. fold step. rewrite process_loop_set.
  rewrite sorted_keys_In. tauto.
Qed.

Lemma preserve_games_spec (d : odict Element) (P : gset string)
    (root : Element) (names : list string) :
  preserve_games d P (root, names)
  = (append_all root
       (map snd (List.filter (fun kv => negb (bool_decide (fst kv ∈ P))) d)),
     (names ++ map fst
        (List.filter (fun kv => negb (bool_decide (fst kv ∈ P))) d))%list).
Proof.
  unfold preserve_games. revert root names.
  induction d as [|[k g] d IH]; intros root names; simpl.
  - by rewrite append_all_nil, app_nil_r.
  - destruct (decide (k ∈ P)) as [Hin|Hnin].
    + rewrite bool_decide_eq_true_2 by done. simpl. apply IH.
    + rewrite bool_decide_eq_false_2 by done. simpl. rewrite IH. f_equal.
      * rewrite <- (append_all_nil root) at 1.
        rewrite append_all_append, append_all_app. reflexivity.
      * by rewrite <- app_assoc.
Qed.

(** With a fresh [processed_games], the tree is the root [gameList] with
    the entries of the sorted merged identifiers followed, unless merging
    is disabled, by the existing games of the other identifiers. *)
Lemma gamelist_tree_root (no_merge : bool) :
  fst (fst (gamelist_tree no_merge merged_games snap_map flyer_map marquee_map
              existing_games ∅))
  = mkElement "gameList" [] None None
      (omap entry (sorted_keys merged_games)
       ++ (if no_merge then []
           else map snd (orphans_of merged_games existing_games)))%list.
Proof.
  unfold gamelist_tree.
  destruct (process_games _ _ _ _ _ _) as [root P] eqn:E.
  pose proof (process_games_root (ET.Element_new "gameList") ∅) as Hroot.
  pose proof (process_games_set (ET.Element_new "gameList") ∅) as Hset.
  rewrite E in Hroot, Hset. simpl in Hroot, Hset. subst root.
  destruct no_merge.
  - simpl. unfold append_all. simpl. by rewrite app_nil_r.
  - rewrite preserve_games_spec. simpl. unfold append_all. simpl.
    do 2 f_equal. unfold orphans_of. f_equal.
    apply filter_ext. intros [k g]. simpl.
    destruct (merged_games !! k) as [d|] eqn:Hk.
    + rewrite bool_decide_eq_true_2; [reflexivity|].
      apply Hset. right. by rewrite Hk.
    + rewrite bool_decide_eq_false_2; [reflexivity|].
      rewrite Hset, Hk. intros [H|H]; [set_solver | by destruct H].
Qed.

Lemma gamelist_tree_preserved (no_merge : bool) :
  snd (gamelist_tree no_merge merged_games snap_map flyer_map marquee_map
         existing_games ∅)
  = if no_merge then []
    else map fst (orphans_of merged_games existing_games).
Proof.
  unfold gamelist_tree.
  destruct (process_games _ _ _ _ _ _) as [root P] eqn:E.
  pose proof (process_games_set (ET.Element_new "gameList") ∅) as Hset.
  rewrite E in Hset. simpl in Hset.
  destruct no_merge; [reflexivity|].
  rewrite preserve_games_spec. simpl.
  unfold orphans_of. f_equal.
  apply filter_ext. intros [k g]. simpl.
  destruct (merged_games !! k) as [d|] eqn:Hk.
  - rewrite bool_decide_eq_true_2; [reflexivity|].
    apply Hset. right. by rewrite Hk.
  - rewrite bool_decide_eq_false_2; [reflexivity|].
    rewrite Hset, Hk. intros [H|H]; [set_solver | by destruct H].
Qed.

(** Every merged identifier has its entry, so the entries are as many as
    the identifiers. *)
Lemma entries_of_sorted_keys :
  omap entry (sorted_keys merged_games)
  = map (fun r => create_gamelist_entry r (default ∅ (merged_games !! r))
                    snap_map flyer_map marquee_map (OD.get r existing_games))
        (sorted_keys merged_games).
Proof.
  assert (H : Forall (fun r => is_Some (merged_games !! r))
                     (sorted_keys merged_games)).
  { apply List.Forall_forall. intros r Hr. by apply sorted_keys_In. }
  induction H as [|r ks [d Hd] _ IH]; [reflexivity|].
  change (omap entry (r :: ks))
    with (match entry r with
          | Some y => y :: omap entry ks
          | None => omap entry ks
          end).
  unfold entry at 1, entry_of. rewrite Hd. simpl. rewrite Hd. simpl.
  f_equal. exact IH.
Qed.

End generator.

(** ** Running the methods *)

(** The state after some lines were printed. *)
Definition emit (s : State) (lines : list string) : State :=
  mkState (fs s) (stdout s ++ lines)%list (processed_games s) (mkdtemp_name s).

(** The state of the next process: a new converter object starts with an
    empty [processed_games]. *)
Definition next_process (s : State) : State :=
  mkState (fs s) (stdout s) ∅ (mkdtemp_name s).

(** The lines [log] prints. *)
Definition log_lines (self : MameToBatocera) (message level : string)
    : list string :=
  if verbose self || String.eqb level "ERROR" || String.eqb level "WARNING"
  then ["[" ++ level ++ "] " ++ message] else [].

Lemma emit_nil s : emit s [] = s.
Proof. destruct s. unfold emit. simpl. by rewrite app_nil_r. Qed.

Lemma emit_emit s l1 l2 : emit (emit s l1) l2 = emit s (l1 ++ l2).
Proof. unfold emit. simpl. by rewrite <- app_assoc. Qed.

Lemma bind_run {A B} (c : M A) (k : A -> M B) (s s' : State) (a : A) :
  c s = (s', Ret a) -> (c ≫= k) s = k a s'.
Proof. intros H. unfold mbind, M_bind, bind. by rewrite H. Qed.

Lemma bind_run_raise {A B} (c : M A) (k : A -> M B) (s s' : State) e :
  c s = (s', Raise e) -> (c ≫= k) s = (s', Raise e).
Proof. intros H. unfold mbind, M_bind, bind. by rewrite H. Qed.

Lemma log_run self message level s :
  log self message level s = (emit s (log_lines self message level), Ret tt).
Proof.
  unfold log, log_lines.
  destruct (verbose self || String.eqb level "ERROR" || String.eqb level "WARNING").
  - reflexivity.
  - by rewrite emit_nil.
Qed.

Lemma for_each_log_run {B} self (l : list B) (msg : B -> string) level s :
  for_each l (fun b => log self (msg b) level) s
  = (emit s (concat (map (fun b => log_lines self (msg b) level) l)), Ret tt).
Proof.
  revert s. induction l as [|b l IH]; intros s; simpl.
  - by rewrite emit_nil.
  - erewrite bind_run by apply log_run. rewrite IH, emit_emit. reflexivity.
Qed.

(** What [load_existing_gamelist] returns on a file system. *)
Definition loaded_games (self : MameToBatocera) (f : odict Node)
    : odict Element :=
  if negb (FS.exists_ (gamelist_path self) f) || no_merge self then []
  else match OD.get (gamelist_path self) f with
       | Some (NFile d) =>
           match xml d with
           | Some root => existing_of_root root
           | None => []
           end
       | _ => []
       end.

Lemma load_existing_gamelist_run self s :
  exists lines,
    load_existing_gamelist self s
    = (emit s lines, Ret (loaded_games self (fs s))).
Proof.
  unfold load_existing_gamelist, loaded_games.
  erewrite bind_run by reflexivity.
  destruct (negb (FS.exists_ (gamelist_path self) (fs s)) || no_merge self).
  { exists []. by rewrite emit_nil. }
  unfold try_except, FS.et_parse, mbind, M_bind, bind, get_fs.
  destruct (OD.get (gamelist_path self) (fs s)) as [[|d|ms]|] eqn:E.
  - unfold raise. rewrite log_run. eexists. reflexivity.
  - destruct (xml d) as [root|].
    + unfold ret at 1. rewrite log_run. eexists. reflexivity.
    + unfold raise. rewrite log_run. eexists. reflexivity.
  - unfold raise. rewrite log_run. eexists. reflexivity.
  - unfold raise. rewrite log_run. eexists. reflexivity.
Qed.

(** The root [generate_gamelist] builds on a file system, for a new
    converter object. *)
Definition gamelist_root_on (self : MameToBatocera) (merged_games : catalog)
    (snap_map flyer_map marquee_map : odict string) (f : odict Node)
    : Element :=
  fst (fst (gamelist_tree (no_merge self) merged_games snap_map flyer_map
              marquee_map (loaded_games self f) ∅)).

(** The file it writes: the bytes, and the tree they are read back as. *)
Definition written_gamelist (root : Element) : FileData :=
  mkFile (_prettify_xml root) (ET.parse_written (prettify 0 root)).

Lemma generate_gamelist_run self merged_games snap_map flyer_map marquee_map s :
  dry_run self = false ->
  processed_games s = ∅ ->
  FS.is_dir (Path.parent (gamelist_path self)) (fs s) = true ->
  FS.is_dir (gamelist_path self) (fs s) = false ->
  exists lines P,
    generate_gamelist self merged_games snap_map flyer_map marquee_map s
    = (mkState
         (OD.set (gamelist_path self)
            (NFile (written_gamelist
                      (gamelist_root_on self merged_games snap_map flyer_map
                         marquee_map (fs s))))
            (fs s))
         lines P (mkdtemp_name s),
       Ret tt).
Proof.
  intros Hdry Hproc Hparent Hnodir.
  unfold generate_gamelist, gamelist_root_on.
  destruct (load_existing_gamelist_run self s) as [l1 Hload].
  erewrite bind_run by exact Hload.
  erewrite bind_run by reflexivity.
  change (processed_games (emit s l1)) with (processed_games s). rewrite Hproc.
  destruct (gamelist_tree _ _ _ _ _ _ _) as [[root P] preserved].
  erewrite bind_run by reflexivity.
  erewrite bind_run by apply for_each_log_run.
  rewrite Hdry. unfold FS.write_file.
  erewrite bind_run.
  2:{ erewrite bind_run by reflexivity. unfold emit, put_processed. simpl.
      rewrite Hnodir, Hparent. reflexivity. }
  rewrite log_run. unfold emit, put_fs. simpl. eexists _, _. reflexivity.
Qed.

Lemma generate_gamelist_dry_run self merged_games snap_map flyer_map marquee_map s :
  dry_run self = true ->
  exists lines P,
    generate_gamelist self merged_games snap_map flyer_map marquee_map s
    = (mkState (fs s) lines P (mkdtemp_name s), Ret tt).
Proof.
  intros Hdry. unfold generate_gamelist.
  destruct (load_existing_gamelist_run self s) as [l1 Hload].
  erewrite bind_run by exact Hload.
  erewrite bind_run by reflexivity.
  destruct (gamelist_tree _ _ _ _ _ _ _) as [[root P] preserved].
  erewrite bind_run by reflexivity.
  erewrite bind_run by apply for_each_log_run.
  rewrite Hdry. erewrite bind_run by apply log_run. rewrite log_run.
  eexists _, _. reflexivity.
Qed.

(** ** Orphans *)

(** What pretty-printing leaves alone: tags, attributes, the tree shape,
    the text of leaves, and every text and tail that is not blank. *)
Fixpoint strip_layout (e : Element) : Element :=
  match e with
  | mkElement t a x tl cs =>
      mkElement t a
        (match cs with
         | [] => x
         | _ :: _ => if blank x then None else x
         end)
        (if blank tl then None else tl)
        (map strip_layout cs)
  end.

Lemma prettify_layout_only (e : Element) :
  forall level, strip_layout (prettify level e) = strip_layout e.
Proof.
  induction e as [t a x tl cs IH] using Element_nested_ind. intros level.
  destruct cs as [|c cs].
  - rewrite prettify_leaf. simpl. f_equal.
    destruct (negb (Nat.eqb level 0)); simpl; [|reflexivity].
    destruct (blank tl) eqn:E; [by rewrite blank_indent_at | by rewrite E].
  - rewrite prettify_node.
    change (map (prettify (S level)) (c :: cs))
      with (prettify (S level) c :: map (prettify (S level)) cs).
    cbn [strip_layout]. f_equal.
    + destruct (blank x) eqn:E; [by rewrite blank_indent_at_inner | by rewrite E].
    + destruct (blank tl) eqn:E; [by rewrite blank_indent_at | by rewrite E].
    + change (prettify (S level) c :: map (prettify (S level)) cs)
        with (map (prettify (S level)) (c :: cs)).
      rewrite map_map. apply map_ext_Forall.
      eapply Forall_impl; [exact IH|]. intros e' He'. apply He'.
Qed.

Lemma loaded_games_file self f b root :
  OD.get (gamelist_path self) f = Some (NFile (mkFile b (Some root))) ->
  loaded_games self f = if no_merge self then [] else existing_of_root root.
Proof.
  intros Hf. unfold loaded_games, FS.exists_, OD.mem. rewrite Hf. simpl.
  by destruct (no_merge self).
Qed.

Definition homebrew_game : Element :=
  mkElement "game" [("id", "7")] (Some "  ") (Some "  ")
    [mkElement "path" [] (Some "./homebrew.zip") None [];
     mkElement "name" [] (Some "My homebrew") (Some " ") []].

Definition old_gamelist : Element :=
  mkElement "gameList" [] None None [edited_pacman; homebrew_game].

Definition merged_pacman : catalog := {[ "pacman" := good_pacman ]}.

Definition roms_with_gamelist : State :=
  mkState [("roms", NDir);
           ("roms/gamelist.xml", NFile (mkFile "" (Some old_gamelist)))]
          [] ∅ "tmp/mame2batocera_0".

Definition converter (no_merge dry_run : bool) : MameToBatocera :=
  mkSelf "dats" "extras" "roms" "tmp/mame2batocera_0" no_merge dry_run false.

(** C5: an identifier of the existing gamelist that is not in the unified
    set has its existing [game] element appended, after the generated
    entries, to the tree that is written when merging is enabled (the
    pretty-printer re-indents it and changes nothing else); with the
    merge-disable flag the written tree holds the entries generated for the
    unified identifiers and nothing else. *)
Theorem orphans_kept_unless_merge_disabled
    (self : MameToBatocera) (merged_games : catalog)
    (snap_map flyer_map marquee_map : odict string) (s : State)
    (b : string) (root : Element) (id : string) (e : Element) :
  dry_run self = false ->
  processed_games s = ∅ ->
  FS.is_dir (Path.parent (gamelist_path self)) (fs s) = true ->
  OD.get (gamelist_path self) (fs s) = Some (NFile (mkFile b (Some root))) ->
  OD.get id (existing_of_root root) = Some e ->
  merged_games !! id = None ->
  exists out_root,
    OD.get (gamelist_path self)
      (fs (fst (generate_gamelist self merged_games snap_map flyer_map
                  marquee_map s)))
    = Some (NFile (written_gamelist out_root))
    /\ (no_merge self = false ->
          (exists entries before after,
             children out_root = (entries ++ before ++ e :: after)%list
             /\ length entries = length (sorted_keys merged_games))
          /\ In (prettify 1 e) (children (prettify 0 out_root))
          /\ strip_layout (prettify 1 e) = strip_layout e)
    /\ (no_merge self = true ->
          length (children out_root) = length (sorted_keys merged_games)
          /\ Forall (fun c => exists r d,
                       merged_games !! r = Some d
                       /\ c = create_gamelist_entry r d snap_map flyer_map
                                marquee_map None)
                    (children out_root)).
Proof.
  intros Hdry Hproc Hparent Hfile Hid Hnew.
  assert (Hnodir : FS.is_dir (gamelist_path self) (fs s) = false).
  { unfold FS.is_dir. by rewrite Hfile. }
  destruct (generate_gamelist_run self merged_games snap_map flyer_map
              marquee_map s Hdry Hproc Hparent Hnodir) as (lines & P & Hrun).
  rewrite Hrun. simpl fst. simpl fs.
  exists (gamelist_root_on self merged_games snap_map flyer_map marquee_map (fs s)).
  split; [apply od_get_set_eq|].
  unfold gamelist_root_on. rewrite gamelist_tree_root.
  rewrite (loaded_games_file self (fs s) b root Hfile).
  split; intros Hnm; rewrite Hnm; cbn [children].
  - assert (Hin : In e (map snd (orphans_of merged_games (existing_of_root root)))).
    { apply in_map_iff. exists (id, e). split; [reflexivity|].
      unfold orphans_of. apply filter_In. split; [by apply od_get_In|].
      simpl. by rewrite Hnew. }
    split; [|split].
    + destruct (in_split _ _ Hin) as (before & after & Hsplit).
      eexists _, before, after. split; [by rewrite Hsplit|].
      rewrite entries_of_sorted_keys. apply length_map.
    + rewrite prettify_children. cbn [children]. apply in_map.
      apply in_app_iff. by right.
    + apply prettify_layout_only.
  - rewrite app_nil_r, entries_of_sorted_keys. split; [apply length_map|].
    apply List.Forall_forall. intros c Hc. apply in_map_iff in Hc as (r & <- & Hr).
    apply sorted_keys_In in Hr as [d Hd]. exists r, d. rewrite Hd. by split.
Qed.

Lemma orphans_kept_unless_merge_disabled_witness :
  exists out_root,
    OD.get "roms/gamelist.xml"
      (fs (fst (generate_gamelist (converter false false) merged_pacman
                  [] [] [] roms_with_gamelist)))
    = Some (NFile (written_gamelist out_root))
    /\ In (prettify 1 homebrew_game) (children (prettify 0 out_root)).
Proof.
  destruct (orphans_kept_unless_merge_disabled
              (converter false false) merged_pacman [] [] []
              roms_with_gamelist "" old_gamelist "homebrew" homebrew_game
              eq_refl eq_refl eq_refl eq_refl eq_refl eq_refl)
    as (out_root & Hfile & Hmerge & _).
  exists out_root. split; [exact Hfile|].
  exact (proj1 (proj2 (Hmerge eq_refl))).
Defined.

(** ** Generating twice *)

(** The identifier under which [load_existing_gamelist] stores a [game]
    element, if it stores it. *)
Definition entry_key (game_elem : Element) : option string :=
  match ET.find "path" game_elem with
  | Some path_elem =>
      match text path_elem with
      | Some path_text =>
          if PyStr.nonempty path_text then Some (PyPath.stem path_text)
          else None
      | None => None
      end
  | None => None
  end.

(** The [path] child of a [game] element holds text only. *)
Definition plain_path (game_elem : Element) : bool :=
  match ET.find "path" game_elem with
  | Some path_elem =>
      match children path_elem with [] => true | _ :: _ => false end
  | None => true
  end.

(** An identifier that is the stem of its own [./<identifier>.zip]. *)
Definition plain_identifier (rom_name : string) : bool :=
  String.eqb (PyPath.stem (zip_ref rom_name)) rom_name.

Lemma existing_step_key (existing_games : odict Element) (g : Element) :
  existing_step existing_games g =
    match entry_key g with
    | Some k => OD.set k g existing_games
    | None => existing_games
    end.
Proof.
  unfold existing_step, entry_key.
  destruct (ET.find "path" g) as [p|]; [|reflexivity].
  destruct (text p) as [t|]; [|reflexivity].
  by destruct (PyStr.nonempty t).
Qed.

Lemma find_map (f : Element -> Element) (t : string) (cs : list Element) :
  (forall c, tag (f c) = tag c) ->
  List.find (fun c => String.eqb (tag c) t) (map f cs)
  = option_map f (List.find (fun c => String.eqb (tag c) t) cs).
Proof.
  intros Hf. induction cs as [|c cs IH]; [reflexivity|].
  simpl. rewrite Hf. by destruct (String.eqb (tag c) t).
Qed.

Definition reprint (level : nat) (e : Element) : Element :=
  reparse_elem (prettify level e).

Lemma reprint_tag level e : tag (reprint level e) = tag e.
Proof. unfold reprint. by rewrite reparse_elem_tag, prettify_tag. Qed.

Lemma reprint_find level t e :
  ET.find t (reprint level e) = option_map (reprint (S level)) (ET.find t e).
Proof.
  unfold ET.find, reprint at 1.
  rewrite reparse_elem_children, prettify_children, map_map.
  apply (find_map (fun c => reparse_elem (prettify (S level) c))).
  intros c. apply (reprint_tag (S level)).
Qed.

Lemma reprint_leaf_text level e :
  children e = [] -> text (reprint level e) = reparse_str (text e).
Proof.
  intros H. unfold reprint. by rewrite reparse_elem_text, prettify_leaf_text.
Qed.

Lemma reprint_children_nil level e :
  children e = [] -> children (reprint level e) = [].
Proof.
  intros H. unfold reprint.
  by rewrite reparse_elem_children, prettify_children, H.
Qed.

(** Writing and reading back does not change the identifier of an element
    whose [path] is plain. *)
Lemma entry_key_reprint (g : Element) :
  plain_path g = true -> entry_key (reprint 1 g) = entry_key g.
Proof.
  unfold plain_path, entry_key. rewrite reprint_find.
  destruct (ET.find "path" g) as [p|]; [|reflexivity]. simpl.
  destruct (children p) eqn:Hc; [|discriminate]. intros _.
  rewrite reprint_leaf_text by exact Hc.
  by destruct (text p) as [[|c s]|].
Qed.

Lemma plain_path_reprint (g : Element) :
  plain_path g = true -> plain_path (reprint 1 g) = true.
Proof.
  unfold plain_path. rewrite reprint_find.
  destruct (ET.find "path" g) as [p|]; [|reflexivity]. simpl.
  destruct (children p) eqn:Hc; [|discriminate]. intros _.
  by rewrite reprint_children_nil.
Qed.

(** *** The invariant of the loaded gamelist *)

Definition loaded_ok (kv : string * Element) : Prop :=
  tag (snd kv) = "game" /\ entry_key (snd kv) = Some (fst kv)
  /\ plain_path (snd kv) = true.

Definition existing_ok (existing_games : odict Element) : Prop :=
  List.NoDup (map fst existing_games) /\ Forall loaded_ok existing_games.

Lemma existing_ok_nil : existing_ok [].
Proof. split; constructor. Qed.

Lemma existing_ok_set k g d :
  existing_ok d -> loaded_ok (k, g) -> existing_ok (OD.set k g d).
Proof.
  intros [Hnd Hall] Hg. split; [by apply od_set_NoDup|].
  apply List.Forall_forall. intros kv Hin.
  destruct (od_set_In _ _ _ _ Hin) as [->|Hin']; [exact Hg|].
  exact (proj1 (List.Forall_forall _ _) Hall kv Hin').
Qed.

Lemma existing_fold_ok (gs : list Element) (d : odict Element) :
  Forall (fun g => tag g = "game" /\ plain_path g = true) gs ->
  existing_ok d -> existing_ok (fold_left existing_step gs d).
Proof.
  intros Hgs. revert d. induction Hgs as [|g gs [Ht Hp] _ IH]; intros d Hd.
  - exact Hd.
  - simpl. apply IH. rewrite existing_step_key.
    destruct (entry_key g) as [k|] eqn:Hk; [|exact Hd].
    apply existing_ok_set; [exact Hd|]. by repeat split.
Qed.

Lemma findall_tag t root : Forall (fun g => tag g = t) (ET.findall t root).
Proof.
  apply List.Forall_forall. intros g Hg. unfold ET.findall in Hg.
  apply filter_In in Hg as [_ Hg]. by apply String.eqb_eq.
Qed.

Lemma existing_of_root_ok (root : Element) :
  forallb plain_path (ET.findall "game" root) = true ->
  existing_ok (existing_of_root root).
Proof.
  intros Hplain. apply existing_fold_ok; [|apply existing_ok_nil].
  apply List.Forall_forall. intros g Hg. split.
  - pose proof (findall_tag "game" root) as H.
    by apply (proj1 (List.Forall_forall _ _) H).
  - by apply (proj1 (forallb_forall _ _) Hplain).
Qed.

Lemma loaded_games_ok self f :
  (forall b root,
     OD.get (gamelist_path self) f = Some (NFile (mkFile b (Some root))) ->
     forallb plain_path (ET.findall "game" root) = true) ->
  existing_ok (loaded_games self f).
Proof.
  intros H. unfold loaded_games.
  destruct (negb _ || _); [apply existing_ok_nil|].
  destruct (OD.get (gamelist_path self) f) as [[|[b [root|]]|ms]|] eqn:E;
    try apply existing_ok_nil.
  apply existing_of_root_ok. by apply (H b root).
Qed.

(** *** One generation after another *)

Lemma filter_all {A} (p : A -> bool) (l : list A) :
  Forall (fun a => p a = true) l -> List.filter p l = l.
Proof.
  induction 1 as [|a l Ha _ IH]; [reflexivity|]. simpl. by rewrite Ha, IH.
Qed.

Lemma filter_none {A} (p : A -> bool) (l : list A) :
  Forall (fun a => p a = false) l -> List.filter p l = [].
Proof.
  induction 1 as [|a l Ha _ IH]; [reflexivity|]. simpl. by rewrite Ha, IH.
Qed.

Lemma root_serialize_ext t a x tl (cs1 cs0 : list Element) :
  map (fun c => ET.serialize (prettify 1 c)) cs1
  = map (fun c => ET.serialize (prettify 1 c)) cs0 ->
  ET.serialize (prettify 0 (mkElement t a x tl cs1))
  = ET.serialize (prettify 0 (mkElement t a x tl cs0)).
Proof.
  intros H. destruct cs1 as [|c1 cs1], cs0 as [|c0 cs0]; try discriminate H.
  - reflexivity.
  - rewrite !prettify_node, !serialize_eq, !map_map, H. reflexivity.
Qed.

(** The entry for [r] over the loaded gamelist [E], the root for [E], and
    the children of that root with the identifier of each. *)
Definition entry_over (merged_games : catalog)
    (snap_map flyer_map marquee_map : odict string) (E : odict Element)
    (r : string) : Element :=
  create_gamelist_entry r (default ∅ (merged_games !! r)) snap_map flyer_map
                        marquee_map (OD.get r E).

Definition tree_over (merged_games : catalog)
    (snap_map flyer_map marquee_map : odict string) (E : odict Element)
    : Element :=
  mkElement "gameList" [] None None
    (map (entry_over merged_games snap_map flyer_map marquee_map E)
         (sorted_keys merged_games)
     ++ map snd (orphans_of merged_games E))%list.

Definition keyed_over (merged_games : catalog)
    (snap_map flyer_map marquee_map : odict string) (E : odict Element)
    : odict Element :=
  (map (fun r => (r, entry_over merged_games snap_map flyer_map marquee_map E r))
       (sorted_keys merged_games)
   ++ orphans_of merged_games E)%list.

Section regenerate.
Variables (merged_games : catalog).
Variables (snap_map flyer_map marquee_map : odict string).

Local Abbreviation cge := (entry_over merged_games snap_map flyer_map marquee_map).
Local Abbreviation tree := (tree_over merged_games snap_map flyer_map marquee_map).
Local Abbreviation keyed := (keyed_over merged_games snap_map flyer_map marquee_map).

Lemma keyed_children E : map snd (keyed E) = children (tree E).
Proof.
  unfold keyed_over, tree_over. cbn [children]. rewrite map_app, map_map. reflexivity.
Qed.

(** An entry generated over the entry that was written is the written
    entry as it is read back. *)
Lemma entry_regenerated (r : string) (d : record) (x : option Element) :
  create_gamelist_entry r d snap_map flyer_map marquee_map
    (Some (reprint 1 (create_gamelist_entry r d snap_map flyer_map
                        marquee_map x)))
  = reparse_elem
      (create_gamelist_entry r d snap_map flyer_map marquee_map x).
Proof.
  remember (create_gamelist_entry r d snap_map flyer_map marquee_map x)
    as e0 eqn:He0.
  assert (Hfind : forall t, In t entry_fields ->
            ET.find t e0
            = Some (ET.leaf t (field_text x t
                                 (derived_text r d snap_map marquee_map t)))).
  { intros t Ht. rewrite He0. by apply entry_find_field. }
  pose proof (entry_shape r d snap_map flyer_map marquee_map x) as Hs.
  rewrite <- He0 in Hs.
  rewrite (entry_shape r d snap_map flyer_map marquee_map
             (Some (reprint 1 e0))).
  symmetry. rewrite Hs at 1. symmetry.
  rewrite reparse_elem_eq. f_equal. rewrite map_app, map_map. f_equal.
  - apply map_ext_in. intros t Ht.
    unfold field_text at 1, existing_field.
    rewrite reprint_find, (Hfind t Ht).
    simpl option_map. cbv iota. by rewrite reprint_leaf_text.
  - by destruct (driver_hidden d).
Qed.

Lemma orphans_of_keys_NoDup (E : odict Element) :
  List.NoDup (map fst E) -> List.NoDup (map fst (orphans_of merged_games E)).
Proof.
  unfold orphans_of. induction E as [|[k g] d IH]; intros Hnd; [constructor|].
  simpl in Hnd. apply List.NoDup_cons_iff in Hnd as [Hk Hnd]. simpl.
  destruct (merged_games !! k); [by apply IH|].
  simpl. constructor; [|by apply IH].
  intros Hin. apply Hk. apply in_map_iff in Hin as (kv & <- & Hkv).
  apply filter_In in Hkv as [Hkv _]. apply in_map_iff. by exists kv.
Qed.

Lemma orphans_of_map_values (f : Element -> Element) (E : odict Element) :
  orphans_of merged_games (map (fun kv => (fst kv, f (snd kv))) E)
  = map (fun kv => (fst kv, f (snd kv))) (orphans_of merged_games E).
Proof.
  unfold orphans_of. induction E as [|[k g] d IH]; [reflexivity|]. simpl.
  destruct (merged_games !! k); simpl; by rewrite IH.
Qed.

Lemma orphans_of_idempotent (E : odict Element) :
  orphans_of merged_games (orphans_of merged_games E)
  = orphans_of merged_games E.
Proof.
  unfold orphans_of. induction E as [|[k g] d IH]; [reflexivity|]. simpl.
  destruct (merged_games !! k) eqn:Hk; simpl; rewrite ?Hk; by rewrite ?IH.
Qed.

Section with_existing.
Variable (E0 : odict Element).
Hypothesis (HE0 : existing_ok E0).
Hypothesis (Hplain :
  forallb plain_identifier (sorted_keys merged_games) = true).

Lemma entry_loaded_ok (r : string) :
  In r (sorted_keys merged_games) -> loaded_ok (r, cge E0 r).
Proof.
  intros Hr. unfold loaded_ok, entry_over. cbn [fst snd].
  split; [apply entry_tag|].
  pose proof (entry_find_field r (default ∅ (merged_games !! r)) snap_map
                flyer_map marquee_map (OD.get r E0) "path") as Hfind.
  specialize (Hfind ltac:(simpl; tauto)).
  unfold entry_key, plain_path. rewrite Hfind. cbn [text children ET.leaf].
  split; [|reflexivity].
  unfold field_text, existing_field.
  destruct (OD.get r E0) as [g|] eqn:Hg.
  - destruct HE0 as [_ Hall].
    pose proof (proj1 (List.Forall_forall _ _) Hall (r, g) (od_get_In _ _ _ Hg))
      as (_ & Hkey & _).
    cbn [fst snd] in Hkey. unfold entry_key in Hkey.
    destruct (ET.find "path" g) as [p|]; [|discriminate Hkey]. exact Hkey.
  - cbn [derived_text String.eqb Ascii.eqb Bool.eqb].
    pose proof (proj1 (forallb_forall _ _) Hplain r Hr) as Hp.
    unfold plain_identifier in Hp. apply String.eqb_eq in Hp.
    replace (PyStr.nonempty (zip_ref r)) with true by reflexivity.
    by rewrite Hp.
Qed.

Lemma orphans_loaded_ok : Forall loaded_ok (orphans_of merged_games E0).
Proof.
  destruct HE0 as [_ Hall]. apply List.Forall_forall. intros kv Hkv.
  apply filter_In in Hkv as [Hkv _].
  exact (proj1 (List.Forall_forall _ _) Hall kv Hkv).
Qed.

Lemma keyed_loaded_ok : Forall loaded_ok (keyed E0).
Proof.
  unfold keyed_over. apply Forall_app. split; [|apply orphans_loaded_ok].
  apply List.Forall_forall. intros kv Hkv.
  apply in_map_iff in Hkv as (r & <- & Hr). by apply entry_loaded_ok.
Qed.

Lemma keyed_keys :
  map fst (keyed E0)
  = (sorted_keys merged_games ++ map fst (orphans_of merged_games E0))%list.
Proof.
  unfold keyed_over. rewrite map_app, map_map. cbn [fst]. by rewrite map_id.
Qed.

Lemma orphans_keys_NoDup : List.NoDup (map fst (orphans_of merged_games E0)).
Proof. apply orphans_of_keys_NoDup. by destruct HE0. Qed.

Lemma keyed_NoDup : List.NoDup (map fst (keyed E0)).
Proof.
  rewrite keyed_keys. apply NoDup_ListNoDup, NoDup_app. repeat split.
  - apply NoDup_ListNoDup, sorted_keys_NoDup.
  - intros r Hr Ho. apply list_elem_of_In in Hr, Ho.
    apply sorted_keys_In in Hr as [d Hd].
    apply in_map_iff in Ho as (kv & <- & Hkv).
    apply filter_In in Hkv as [_ Hkv]. by rewrite Hd in Hkv.
  - apply NoDup_ListNoDup, orphans_keys_NoDup.
Qed.

(** The identifiers of the [game] elements of the tree: no identifier
    twice. *)
Lemma tree_keys :
  map entry_key (children (tree E0)) = map Some (map fst (keyed E0)).
Proof.
  rewrite <- keyed_children, !map_map.
  apply map_ext_Forall. eapply Forall_impl; [apply keyed_loaded_ok|].
  intros kv (_ & Hk & _). exact Hk.
Qed.

(** What the next run loads from the written file. *)
Definition reloaded : odict Element :=
  existing_of_root (reparse (prettify 0 (tree E0))).

Lemma reload_fold (L d : odict Element) :
  Forall loaded_ok L ->
  List.NoDup (map fst L) ->
  (forall k, In k (map fst L) -> OD.get k d = None) ->
  fold_left existing_step (map (fun kv => reprint 1 (snd kv)) L) d
  = (d ++ map (fun kv => (fst kv, reprint 1 (snd kv))) L)%list.
Proof.
  intros Hok. revert d. induction Hok as [|[k g] L (Ht & Hk & Hp) _ IH];
    intros d Hnd Hfresh.
  - simpl. by rewrite app_nil_r.
  - cbn [map fold_left fst snd] in *.
    apply List.NoDup_cons_iff in Hnd as [HkL Hnd].
    rewrite existing_step_key, entry_key_reprint, Hk by exact Hp.
    rewrite od_set_fresh by (apply Hfresh; by left).
    rewrite IH.
    + by rewrite <- app_assoc.
    + exact Hnd.
    + intros k' Hk'. apply od_get_None. rewrite map_app, in_app_iff.
      cbn [map fst]. intros [Hd | [<- | []]].
      * specialize (Hfresh k' (or_intror Hk')). by apply od_get_None in Hfresh.
      * exact (HkL Hk').
Qed.

Lemma reloaded_eq :
  reloaded = map (fun kv => (fst kv, reprint 1 (snd kv))) (keyed E0).
Proof.
  assert (Hch : children (reparse (prettify 0 (tree E0)))
                = map (fun kv => reprint 1 (snd kv)) (keyed E0)).
  { rewrite reparse_children, prettify_children, <- keyed_children.
    rewrite !map_map. reflexivity. }
  unfold reloaded, existing_of_root, ET.findall. rewrite Hch.
  rewrite filter_all.
  - rewrite (reload_fold (keyed E0) []); [reflexivity|..].
    + apply keyed_loaded_ok.
    + apply keyed_NoDup.
    + reflexivity.
  - apply Forall_map. eapply Forall_impl; [apply keyed_loaded_ok|].
    intros kv (Ht & _). cbn beta. rewrite reprint_tag, Ht. reflexivity.
Qed.

Lemma reloaded_keys : map fst reloaded = map fst (keyed E0).
Proof. rewrite reloaded_eq, map_map. reflexivity. Qed.

Lemma reloaded_get (r : string) :
  In r (sorted_keys merged_games) ->
  OD.get r reloaded = Some (reprint 1 (cge E0 r)).
Proof.
  intros Hr. apply od_In_get.
  - rewrite reloaded_keys. apply keyed_NoDup.
  - rewrite reloaded_eq. apply in_map_iff.
    exists (r, cge E0 r). split; [reflexivity|].
    unfold keyed_over. apply in_app_iff. left. apply in_map_iff. by exists r.
Qed.

Lemma reloaded_orphans :
  orphans_of merged_games reloaded
  = map (fun kv => (fst kv, reprint 1 (snd kv))) (orphans_of merged_games E0).
Proof.
  rewrite reloaded_eq. unfold keyed_over. rewrite map_app.
  unfold orphans_of at 1. rewrite List.filter_app.
  fold (orphans_of merged_games
          (map (fun kv => (fst kv, reprint 1 (snd kv)))
               (orphans_of merged_games E0))).
  rewrite orphans_of_map_values, orphans_of_idempotent.
  rewrite filter_none; [reflexivity|].
  apply Forall_map, Forall_map, List.Forall_forall. intros r Hr. cbn [fst].
  apply sorted_keys_In in Hr as [d Hd]. by rewrite Hd.
Qed.

(** The second run writes the bytes of the first. *)
Lemma regenerate_same_bytes :
  _prettify_xml (tree reloaded) = _prettify_xml (tree E0).
Proof.
  unfold _prettify_xml, ET.tostring. f_equal. unfold tree_over.
  apply root_serialize_ext. rewrite !map_app, !map_map. f_equal.
  - apply map_ext_in. intros r Hr.
    unfold entry_over at 1. rewrite reloaded_get by exact Hr.
    unfold entry_over.
    rewrite entry_regenerated. apply serialize_prettify_reparse.
  - rewrite reloaded_orphans, map_map. apply map_ext. intros kv. cbn [snd].
    apply serialize_prettify_twice.
Qed.

End with_existing.
End regenerate.

(** *** The theorem on [generate_gamelist] *)

(** The bytes and the parsed tree of the file at [p], if it is a file. *)
Definition file_bytes (p : string) (f : odict Node) : option string :=
  match OD.get p f with
  | Some (NFile d) => Some (bytes d)
  | _ => None
  end.

Definition file_xml (p : string) (f : odict Node) : option Element :=
  match OD.get p f with
  | Some (NFile d) => xml d
  | _ => None
  end.

Lemma gamelist_root_on_tree self merged_games snap_map flyer_map marquee_map f :
  gamelist_root_on self merged_games snap_map flyer_map marquee_map f
  = tree_over merged_games snap_map flyer_map marquee_map (loaded_games self f).
Proof.
  unfold gamelist_root_on, tree_over. rewrite gamelist_tree_root.
  rewrite entries_of_sorted_keys. f_equal. f_equal.
  destruct (no_merge self) eqn:Hnm; [|reflexivity].
  unfold loaded_games. rewrite Hnm, orb_true_r. reflexivity.
Qed.

Lemma is_dir_set_file (p q : string) (d : FileData) (f : odict Node) :
  FS.is_dir q (OD.set p (NFile d) f)
  = if String.eqb p q then false else FS.is_dir q f.
Proof.
  unfold FS.is_dir. destruct (String.eqb p q) eqn:E.
  - apply String.eqb_eq in E. subst q. by rewrite od_get_set_eq.
  - apply String.eqb_neq in E. by rewrite od_get_set_ne.
Qed.

(** C4, as the claim states it: whatever the identifiers are, a second
    generation over the output of the first would write the same bytes. *)
Definition generation_idempotent_as_stated : Prop :=
  forall (self : MameToBatocera) (merged_games : catalog)
         (snap_map flyer_map marquee_map : odict string) (s : State),
    dry_run self = false ->
    FS.is_dir (Path.parent (gamelist_path self)) (fs s) = true ->
    FS.is_dir (gamelist_path self) (fs s) = false ->
    let s1 := fst (generate_gamelist self merged_games snap_map flyer_map
                     marquee_map (next_process s)) in
    let s2 := fst (generate_gamelist self merged_games snap_map flyer_map
                     marquee_map (next_process s1)) in
    file_bytes (gamelist_path self) (fs s2)
    = file_bytes (gamelist_path self) (fs s1).

Definition empty_roms : State :=
  mkState [("roms", NDir)] [] ∅ "tmp/mame2batocera_0".

Definition merged_slash : catalog :=
  {[ "a/b" := ({[ "description" := PStr "A slash B" ]} : record) ]}.

(** C4 (counterexample): for the identifier ["a/b"] the first run writes
    the path [./a/b.zip]; the second run loads that entry under the
    identifier ["b"], finds no existing entry for ["a/b"], and appends the
    loaded one as an orphan: the second output has two [game] elements. *)
Lemma generation_idempotent_as_stated_fails : ~ generation_idempotent_as_stated.
Proof.
  intros H.
  specialize (H (converter false false) merged_slash [] [] [] empty_roms
                eq_refl eq_refl eq_refl).
  vm_compute in H. discriminate H.
Qed.

(** C4 (amended): when every unified identifier is the stem of its own
    [./<identifier>.zip] (an identifier without [/]), the [path] elements
    of the gamelist that exists before the first run hold text only, and
    the document the first run writes holds no control character other
    than tab and line feed (in particular no carriage return, which the
    parser would read back as a line feed), a second run with the same
    catalogs and media indices over the output of the first writes
    byte-identical output, and in that output no identifier belongs to
    more than one [game] element. *)
Theorem generation_idempotent
    (self : MameToBatocera) (merged_games : catalog)
    (snap_map flyer_map marquee_map : odict string) (s : State) :
  dry_run self = false ->
  FS.is_dir (Path.parent (gamelist_path self)) (fs s) = true ->
  FS.is_dir (gamelist_path self) (fs s) = false ->
  forallb plain_identifier (sorted_keys merged_games) = true ->
  (forall root, file_xml (gamelist_path self) (fs s) = Some root ->
     forallb plain_path (ET.findall "game" root) = true) ->
  let s1 := fst (generate_gamelist self merged_games snap_map flyer_map
                   marquee_map (next_process s)) in
  (forall xml_str, file_bytes (gamelist_path self) (fs s1) = Some xml_str ->
     PyStr.all_chars ET.plain_char xml_str = true) ->
  let s2 := fst (generate_gamelist self merged_games snap_map flyer_map
                   marquee_map (next_process s1)) in
  exists xml_str root1 ids,
    file_bytes (gamelist_path self) (fs s1) = Some xml_str
    /\ file_bytes (gamelist_path self) (fs s2) = Some xml_str
    /\ file_xml (gamelist_path self) (fs s1) = Some root1
    /\ map entry_key (children root1) = map Some ids
    /\ List.NoDup ids.
Proof.
  intros Hdry Hparent Hnodir Hids Hpaths s1 Hplain s2.
  set (p := gamelist_path self) in *.
  set (E0 := loaded_games self (fs s)).
  assert (HE0 : existing_ok E0).
  { apply loaded_games_ok. intros b root Hf. apply Hpaths.
    unfold file_xml, p. by rewrite Hf. }
  set (T0 := tree_over merged_games snap_map flyer_map marquee_map E0).
  (* first run *)
  destruct (generate_gamelist_run self merged_games snap_map flyer_map
              marquee_map (next_process s) Hdry eq_refl Hparent Hnodir)
    as (l1 & P1 & Hrun1).
  rewrite gamelist_root_on_tree in Hrun1.
  change (fs (next_process s)) with (fs s) in Hrun1.
  fold E0 T0 p in Hrun1.
  assert (Hs1 : fs s1 = OD.set p (NFile (written_gamelist T0)) (fs s)).
  { unfold s1. by rewrite Hrun1. }
  assert (Hget1 : OD.get p (fs s1) = Some (NFile (written_gamelist T0))).
  { rewrite Hs1. apply od_get_set_eq. }
  assert (Hw : written_gamelist T0
               = mkFile (_prettify_xml T0) (Some (reparse (prettify 0 T0)))).
  { unfold written_gamelist. f_equal. apply parse_written_plain; [reflexivity|].
    apply Hplain. unfold file_bytes. by rewrite Hget1. }
  rewrite Hw in Hget1.
  (* second run *)
  assert (Hne : String.eqb p (Path.parent p) = false).
  { apply String.eqb_neq. intros Heq. rewrite <- Heq in Hparent. congruence. }
  assert (Hparent1 : FS.is_dir (Path.parent p) (fs (next_process s1)) = true).
  { change (fs (next_process s1)) with (fs s1).
    by rewrite Hs1, is_dir_set_file, Hne. }
  assert (Hnodir1 : FS.is_dir p (fs (next_process s1)) = false).
  { change (fs (next_process s1)) with (fs s1).
    by rewrite Hs1, is_dir_set_file, String.eqb_refl. }
  destruct (generate_gamelist_run self merged_games snap_map flyer_map
              marquee_map (next_process s1) Hdry eq_refl Hparent1 Hnodir1)
    as (l2 & P2 & Hrun2).
  rewrite gamelist_root_on_tree in Hrun2.
  change (fs (next_process s1)) with (fs s1) in Hrun2. fold p in Hrun2.
  set (E1 := loaded_games self (fs s1)) in Hrun2.
  set (T1 := tree_over merged_games snap_map flyer_map marquee_map E1) in Hrun2.
  assert (Hget2 : OD.get p (fs s2) = Some (NFile (written_gamelist T1))).
  { unfold s2. rewrite Hrun2. apply od_get_set_eq. }
  assert (HE1 : E1 = if no_merge self then []
                     else reloaded merged_games snap_map flyer_map marquee_map E0).
  { unfold E1. by rewrite (loaded_games_file self (fs s1) _ _ Hget1). }
  assert (Hbytes : _prettify_xml T1 = _prettify_xml T0).
  { unfold T1. rewrite HE1. destruct (no_merge self) eqn:Hnm.
    - unfold T0, E0, loaded_games. by rewrite Hnm, orb_true_r.
    - by apply regenerate_same_bytes. }
  exists (_prettify_xml T0), (reparse (prettify 0 T0)),
         (map fst (keyed_over merged_games snap_map flyer_map marquee_map E0)).
  unfold file_bytes, file_xml. rewrite Hget1, Hget2. simpl bytes. simpl xml.
  split; [reflexivity|]. split; [by rewrite Hbytes|]. split; [reflexivity|].
  split; [|by apply keyed_NoDup].
  rewrite reparse_children, prettify_children.
  rewrite <- (tree_keys merged_games snap_map flyer_map marquee_map E0 HE0 Hids).
  unfold T0.
  rewrite <- (keyed_children merged_games snap_map flyer_map marquee_map E0).
  rewrite !map_map.
  apply map_ext_Forall.
  eapply Forall_impl;
    [apply (keyed_loaded_ok merged_games snap_map flyer_map marquee_map E0 HE0 Hids)|].
  intros kv (_ & _ & Hp). cbn beta. apply (entry_key_reprint _ Hp).
Qed.

Lemma generation_idempotent_witness :
  let s1 := fst (generate_gamelist (converter false false) merged_pacman
                   [] [] [] (next_process roms_with_gamelist)) in
  let s2 := fst (generate_gamelist (converter false false) merged_pacman
                   [] [] [] (next_process s1)) in
  exists xml_str,
    file_bytes "roms/gamelist.xml" (fs s1) = Some xml_str
    /\ file_bytes "roms/gamelist.xml" (fs s2) = Some xml_str.
Proof.
  intros s1 s2.
  destruct (generation_idempotent (converter false false) merged_pacman
              [] [] [] roms_with_gamelist eq_refl eq_refl eq_refl eq_refl)
    as (xml_str & root1 & ids & H1 & H2 & _).
  - intros root Hroot. vm_compute in Hroot. injection Hroot as <-. reflexivity.
  - intros xml_str Hfile. vm_compute in Hfile. injection Hfile as <-.
    vm_compute. reflexivity.
  - exists xml_str. split; [exact H1 | exact H2].
Defined.

(** ** Artwork index keys *)

Lemma prefix_nil (s : string) : String.prefix "" s = true.
Proof. by destruct s. Qed.

Lemma prefix_app (p s t : string) :
  String.prefix p s = true -> String.prefix p (s ++ t) = true.
Proof.
  revert s. induction p as [|a p IH]; intros s H; [apply prefix_nil|].
  destruct s as [|b s]; [discriminate H|].
  rewrite append_cons. simpl in *.
  destruct (ascii_dec a b); [by apply IH | discriminate H].
Qed.

Lemma contains_app_l (sub s t : string) :
  PyStr.contains sub s = true -> PyStr.contains sub (s ++ t) = true.
Proof.
  induction s as [|a s IH]; intros H.
  - cbn [PyStr.contains] in H. rewrite orb_false_r in H.
    destruct sub; [|discriminate H]. by destruct t.
  - rewrite append_cons. cbn [PyStr.contains] in *.
    apply orb_true_iff in H as [H|H]; apply orb_true_iff.
    + left. rewrite <- append_cons. by apply prefix_app.
    + right. by apply IH.
Qed.

Lemma prefix_char_cons (c a : ascii) (w : string) :
  String.prefix (String c "") (String a w) = Ascii.eqb c a.
Proof.
  cbn [String.prefix]. destruct (ascii_dec c a) as [->|Hne].
  - rewrite Ascii.eqb_refl. apply prefix_nil.
  - symmetry. by apply Ascii.eqb_neq.
Qed.

(** The first segment of a split at ['_'] holds no ['_']. *)
Lemma split_first_no_underscore (s : string) :
  PyStr.contains "_" (PyStr.split_first "_" s) = false.
Proof.
  unfold PyStr.split_first. induction s as [|a s IH]; [reflexivity|].
  cbn [PyStr.split]. destruct (Ascii.eqb a "_") eqn:Ea; [reflexivity|].
  assert (Ea' : Ascii.eqb "_" a = false).
  { apply Ascii.eqb_neq. apply Ascii.eqb_neq in Ea. congruence. }
  destruct (PyStr.split "_" s) as [|w ws]; cbn [hd] in *;
    cbn [PyStr.contains]; rewrite prefix_char_cons, Ea'.
  - reflexivity.
  - exact IH.
Qed.

Lemma length_append (s t : string) :
  String.length (s ++ t) = String.length s + String.length t.
Proof.
  induction s as [|a s IH]; [reflexivity|]. rewrite append_cons. simpl.
  by rewrite IH.
Qed.

Lemma append_inv_tail (s1 s2 t : string) : s1 ++ t = s2 ++ t -> s1 = s2.
Proof.
  revert s2. induction s1 as [|a s1 IH]; intros [|b s2] H.
  - reflexivity.
  - apply (f_equal String.length) in H.
    rewrite !length_append in H. simpl in H. lia.
  - apply (f_equal String.length) in H.
    rewrite !length_append in H. simpl in H. lia.
  - rewrite !append_cons in H. injection H as -> H. f_equal. by apply IH.
Qed.

(** What the artwork branch of [extract_media_from_zip] stores: the key of
    an entry is the first segment of its base name, with the suffix
    [_marquee] for a marquee. *)
Definition artwork_entry_ok (kv : string * string) : Prop :=
  let seg := PyStr.split_first "_" (PyPath.stem (snd kv)) in
  (PyStr.contains "flyer" (PyStr.lower (snd kv)) = true /\ fst kv = seg)
  \/ (PyStr.contains "flyer" (PyStr.lower (snd kv)) = false
      /\ PyStr.contains "marquee" (PyStr.lower (snd kv)) = true
      /\ fst kv = seg ++ "_marquee").

Lemma od_set_Forall {V} (P : string * V -> Prop) k v (d : odict V) :
  Forall P d -> P (k, v) -> Forall P (OD.set k v d).
Proof.
  intros Hd Hkv. apply List.Forall_forall. intros kv Hin.
  destruct (od_set_In _ _ _ _ Hin) as [->|Hin']; [exact Hkv|].
  exact (proj1 (List.Forall_forall _ _) Hd kv Hin').
Qed.

Lemma artwork_step_ok (m : odict string) (f : string) :
  Forall artwork_entry_ok m ->
  Forall artwork_entry_ok (media_map_step "artwork" m f).
Proof.
  intros Hm. unfold media_map_step.
  destruct (PyStr.endswith f ".png"); [|exact Hm].
  change (String.eqb "artwork" "artwork") with true. cbv iota.
  destruct (PyStr.contains "flyer" (PyStr.lower f)) eqn:Hf.
  - apply od_set_Forall; [exact Hm|]. left. by split.
  - destruct (PyStr.contains "marquee" (PyStr.lower f)) eqn:Hq; [|exact Hm].
    apply od_set_Forall; [exact Hm|]. right. by repeat split.
Qed.

Lemma artwork_map_ok (filenames : list string) :
  Forall artwork_entry_ok (media_map_of "artwork" filenames).
Proof.
  unfold media_map_of.
  assert (H : forall m, Forall artwork_entry_ok m ->
                Forall artwork_entry_ok
                  (fold_left (media_map_step "artwork") filenames m)).
  { induction filenames as [|f l IH]; intros m Hm; [exact Hm|].
    simpl. apply IH. by apply artwork_step_ok. }
  apply H. constructor.
Qed.

(** C10: in the artwork index the key of a flyer entry is the first
    ['_']-segment of its base name and the key of a marquee entry is that
    segment followed by [_marquee]; hence, for a machine identifier that
    contains ['_'], no flyer entry is stored under the identifier and no
    marquee entry under [<identifier>_marquee]. *)
Theorem artwork_keys_stop_at_underscore (filenames : list string) (id : string) :
  PyStr.contains "_" id = true ->
  let media_map := media_map_of "artwork" filenames in
  (forall m f,
     PyStr.endswith f ".png" = true ->
     PyStr.contains "flyer" (PyStr.lower f) = true ->
     media_map_step "artwork" m f
     = OD.set (PyStr.split_first "_" (PyPath.stem f)) f m)
  /\ (forall m f,
        PyStr.endswith f ".png" = true ->
        PyStr.contains "flyer" (PyStr.lower f) = false ->
        PyStr.contains "marquee" (PyStr.lower f) = true ->
        media_map_step "artwork" m f
        = OD.set (PyStr.split_first "_" (PyPath.stem f) ++ "_marquee") f m)
  /\ (forall k f, In (k, f) media_map -> artwork_entry_ok (k, f))
  /\ (forall f, In (id, f) media_map ->
        PyStr.contains "flyer" (PyStr.lower f) = false)
  /\ OD.get (id ++ "_marquee") media_map = None.
Proof.
  intros Hid media_map.
  pose proof (artwork_map_ok filenames) as Hok. fold media_map in Hok.
  assert (Hall : forall k f, In (k, f) media_map -> artwork_entry_ok (k, f)).
  { intros k f Hin. exact (proj1 (List.Forall_forall _ _) Hok _ Hin). }
  split; [|split; [|split; [exact Hall|split]]].
  - intros m f Hpng Hf. unfold media_map_step. rewrite Hpng, Hf. reflexivity.
  - intros m f Hpng Hf Hq. unfold media_map_step. rewrite Hpng, Hf, Hq.
    reflexivity.
  - intros f Hin. destruct (Hall _ _ Hin) as [[_ Hk]|[Hf _]]; [|exact Hf].
    cbn [fst snd] in Hk. exfalso.
    pose proof (split_first_no_underscore (PyPath.stem f)) as Hseg.
    rewrite <- Hk in Hseg. congruence.
  - destruct (OD.get (id ++ "_marquee") media_map) as [f|] eqn:Hget;
      [|reflexivity].
    exfalso. apply od_get_In in Hget.
    pose proof (split_first_no_underscore (PyPath.stem f)) as Hseg.
    destruct (Hall _ _ Hget) as [[_ Hk]|(_ & _ & Hk)]; cbn [fst snd] in Hk.
    + rewrite <- Hk in Hseg.
      rewrite (contains_app_l "_" id "_marquee" Hid) in Hseg. discriminate.
    + apply append_inv_tail in Hk. rewrite <- Hk in Hseg. congruence.
Qed.

Lemma artwork_keys_stop_at_underscore_witness :
  media_map_of "artwork" ["sf2_ce_flyer.png"; "sf2_ce_marquee.png"]
    = [("sf2", "sf2_ce_flyer.png"); ("sf2_marquee", "sf2_ce_marquee.png")]
  /\ OD.get "sf2_ce_marquee"
       (media_map_of "artwork" ["sf2_ce_flyer.png"; "sf2_ce_marquee.png"])
     = None.
Proof.
  split; [reflexivity|].
  exact (proj2 (proj2 (proj2 (proj2
           (artwork_keys_stop_at_underscore
              ["sf2_ce_flyer.png"; "sf2_ce_marquee.png"] "sf2_ce" eq_refl))))).
Defined.

(** ** Paths: parts, roots and what lies below a directory *)

Lemma contains_char_cons (c a : ascii) (w : string) :
  PyStr.contains (String c "") (String a w)
  = Ascii.eqb c a || PyStr.contains (String c "") w.
Proof. cbn [PyStr.contains]. by rewrite prefix_char_cons. Qed.

(** *** Splitting at a separator *)

Lemma split_not_nil (sep : ascii) (s : string) : PyStr.split sep s <> [].
Proof.
  induction s as [|a s IH]; simpl; [done|].
  destruct (Ascii.eqb a sep); [done|]. by destruct (PyStr.split sep s).
Qed.

Lemma split_app_sep (sep : ascii) (a b : string) :
  PyStr.split sep (a ++ String sep b)
  = (PyStr.split sep a ++ PyStr.split sep b)%list.
Proof.
  induction a as [|x a IH].
  - change ("" ++ String sep b) with (String sep b). cbn [PyStr.split].
    by rewrite Ascii.eqb_refl.
  - rewrite append_cons. cbn [PyStr.split]. rewrite IH.
    destruct (Ascii.eqb x sep); [reflexivity|].
    destruct (PyStr.split sep a) eqn:E; [by apply split_not_nil in E|].
    reflexivity.
Qed.

Lemma split_nosep (sep : ascii) (w : string) :
  PyStr.contains (String sep "") w = false -> PyStr.split sep w = [w].
Proof.
  induction w as [|a w IH]; [reflexivity|].
  rewrite contains_char_cons. intros H. apply orb_false_iff in H as [Ha Hw].
  cbn [PyStr.split]. rewrite (IH Hw).
  assert (Ascii.eqb a sep = false) as ->; [|reflexivity].
  apply Ascii.eqb_neq. apply Ascii.eqb_neq in Ha. congruence.
Qed.


Lemma split_components (sep : ascii) (s : string) :
  Forall (fun w => PyStr.contains (String sep "") w = false)
         (PyStr.split sep s).
Proof.
  induction s as [|a s IH]; cbn [PyStr.split].
  - by repeat constructor.
  - destruct (Ascii.eqb a sep) eqn:E; [by constructor|].
    destruct (PyStr.split sep s) as [|w ws].
    + repeat constructor. rewrite contains_char_cons.
      apply orb_false_iff. split; [|reflexivity].
      apply Ascii.eqb_neq. apply Ascii.eqb_neq in E. congruence.
    + apply Forall_cons in IH as [Hw Hws]. constructor; [|exact Hws].
      rewrite contains_char_cons, Hw, orb_false_r.
      apply Ascii.eqb_neq. apply Ascii.eqb_neq in E. congruence.
Qed.

(** *** Parts *)

(** A part of a path: a file name. *)
Definition clean (c : string) : bool :=
  PyStr.nonempty c && negb (String.eqb c ".") && negb (PyStr.contains "/" c).

Lemma parts_clean (p : string) : Forall (fun c => clean c = true) (PyPath.parts p).
Proof.
  unfold PyPath.parts. apply List.Forall_forall. intros c Hc.
  apply filter_In in Hc as [Hin Hc].
  pose proof (split_components "/" p) as H.
  rewrite List.Forall_forall in H. unfold clean.
  by rewrite Hc, (H c Hin).
Qed.

Lemma filter_clean (cs : list string) :
  Forall (fun c => clean c = true) cs ->
  List.filter (fun c => PyStr.nonempty c && negb (String.eqb c ".")) cs = cs.
Proof.
  induction 1 as [|c cs Hc _ IH]; [reflexivity|]. cbn [List.filter].
  unfold clean in Hc. apply andb_true_iff in Hc as [Hc _]. by rewrite Hc, IH.
Qed.

Lemma clean_nosep (c : string) :
  clean c = true -> PyStr.contains "/" c = false.
Proof.
  unfold clean. intros H. apply andb_true_iff in H as [_ H].
  by apply negb_true_iff in H.
Qed.

Lemma split_concat (cs : list string) :
  Forall (fun c => clean c = true) cs -> cs <> [] ->
  PyStr.split "/" (String.concat "/" cs) = cs.
Proof.
  induction 1 as [|c cs Hc Hcs IH]; [done|]. intros _.
  destruct cs as [|c' cs'].
  - apply split_nosep, clean_nosep, Hc.
  - change (String.concat "/" (c :: c' :: cs'))
      with (c ++ String "/" (String.concat "/" (c' :: cs'))).
    rewrite split_app_sep, (split_nosep "/" c (clean_nosep c Hc)).
    by rewrite IH.
Qed.

Definition is_root (r : string) : Prop := r = "" \/ r = "/" \/ r = "//".

Lemma root_is_root (p : string) : is_root (PyPath.root p).
Proof.
  unfold PyPath.root, is_root.
  destruct (PyStr.startswith p "///"); [auto|].
  destruct (PyStr.startswith p "//"); [auto|].
  destruct (PyStr.startswith p "/"); auto.
Qed.

Lemma parts_build (r : string) (cs : list string) :
  is_root r -> Forall (fun c => clean c = true) cs ->
  PyPath.parts (PyPath.build r cs) = cs.
Proof.
  intros Hr Hcs. destruct cs as [|c cs'].
  - by destruct Hr as [->|[->| ->]].
  - remember (c :: cs') as cs eqn:E.
    assert (Hne : cs <> []) by (by subst).
    assert (Hb : PyPath.build r cs = r ++ String.concat "/" cs) by (by subst).
    rewrite Hb. unfold PyPath.parts.
    destruct Hr as [->|[->| ->]].
    + change ("" ++ String.concat "/" cs) with (String.concat "/" cs).
      rewrite (split_concat cs Hcs Hne). by apply filter_clean.
    + change ("/" ++ String.concat "/" cs)
        with (String "/" (String.concat "/" cs)).
      cbn [PyStr.split Ascii.eqb]. rewrite (split_concat cs Hcs Hne).
      simpl. by apply filter_clean.
    + change ("//" ++ String.concat "/" cs)
        with (String "/" (String "/" (String.concat "/" cs))).
      cbn [PyStr.split Ascii.eqb]. rewrite (split_concat cs Hcs Hne).
      simpl. by apply filter_clean.
Qed.

Lemma prefix_cons_eq (a : ascii) (p s : string) :
  String.prefix (String a p) (String a s) = String.prefix p s.
Proof. cbn [String.prefix]. by destruct (ascii_dec a a). Qed.

Lemma prefix_cons_ne (a b : ascii) (p s : string) :
  a <> b -> String.prefix (String a p) (String b s) = false.
Proof. intros H. cbn [String.prefix]. by destruct (ascii_dec a b). Qed.

Lemma root_cons (x : ascii) (s : string) :
  x <> "/"%char -> PyPath.root (String x s) = "".
Proof.
  intros Hx. unfold PyPath.root, PyStr.startswith.
  by rewrite !prefix_cons_ne by congruence.
Qed.

Lemma root_slash_cons (x : ascii) (s : string) :
  x <> "/"%char -> PyPath.root (String "/" (String x s)) = "/".
Proof.
  intros Hx. unfold PyPath.root, PyStr.startswith.
  rewrite !prefix_cons_eq, !prefix_cons_ne by congruence. by rewrite prefix_nil.
Qed.

Lemma root_slash_slash_cons (x : ascii) (s : string) :
  x <> "/"%char -> PyPath.root (String "/" (String "/" (String x s))) = "//".
Proof.
  intros Hx. unfold PyPath.root, PyStr.startswith.
  rewrite !prefix_cons_eq, !prefix_cons_ne by congruence. by rewrite prefix_nil.
Qed.

Lemma clean_head (c : string) :
  clean c = true -> exists x c', c = String x c' /\ x <> "/"%char.
Proof.
  intros H. pose proof (clean_nosep c H) as Hs.
  destruct c as [|x c']; [discriminate|]. exists x, c'. split; [reflexivity|].
  rewrite contains_char_cons in Hs. apply orb_false_iff in Hs as [Hx _].
  apply Ascii.eqb_neq in Hx. congruence.
Qed.

Lemma root_build (r : string) (cs : list string) :
  is_root r -> Forall (fun c => clean c = true) cs ->
  PyPath.root (PyPath.build r cs) = r.
Proof.
  intros Hr Hcs. destruct cs as [|c cs'].
  - by destruct Hr as [->|[->| ->]].
  - apply Forall_cons in Hcs as [Hc _].
    destruct (clean_head c Hc) as (x & c' & -> & Hx).
    assert (Hb : exists rest,
               PyPath.build r (String x c' :: cs') = r ++ String x rest).
    { destruct cs'; [by exists c'|]. eexists. cbn [PyPath.build String.concat].
      rewrite append_cons. reflexivity. }
    destruct Hb as [rest ->].
    destruct Hr as [->|[->| ->]].
    + by apply root_cons.
    + by apply root_slash_cons.
    + by apply root_slash_slash_cons.
Qed.

Lemma parts_norm (p : string) : PyPath.parts (PyPath.norm p) = PyPath.parts p.
Proof. apply parts_build; [apply root_is_root | apply parts_clean]. Qed.

Lemma root_norm (p : string) : PyPath.root (PyPath.norm p) = PyPath.root p.
Proof. apply root_build; [apply root_is_root | apply parts_clean]. Qed.

(** [Path(str(Path(p)))] is [Path(p)]. *)
Lemma norm_idempotent (p : string) : PyPath.norm (PyPath.norm p) = PyPath.norm p.
Proof. unfold PyPath.norm at 1. by rewrite parts_norm, root_norm. Qed.

(** *** Joining *)

Lemma join_relative (a b : string) :
  PyPath.root b = "" ->
  Path.join a b = PyPath.build (PyPath.root a) (PyPath.parts a ++ PyPath.parts b).
Proof. intros H. unfold Path.join. by rewrite H. Qed.

Lemma parts_app_clean (a b : string) :
  Forall (fun c => clean c = true) (PyPath.parts a ++ PyPath.parts b).
Proof. apply Forall_app. split; apply parts_clean. Qed.

Lemma parts_join (a b : string) :
  PyPath.root b = "" ->
  PyPath.parts (Path.join a b) = (PyPath.parts a ++ PyPath.parts b)%list.
Proof.
  intros H. rewrite (join_relative a b H).
  apply parts_build; [apply root_is_root | apply parts_app_clean].
Qed.

Lemma root_join (a b : string) :
  PyPath.root b = "" -> PyPath.root (Path.join a b) = PyPath.root a.
Proof.
  intros H. rewrite (join_relative a b H).
  apply root_build; [apply root_is_root | apply parts_app_clean].
Qed.

(** *** Below a directory *)

Lemma under_app (cs ds : list string) :
  ds <> [] -> Path.under cs (cs ++ ds) = true.
Proof.
  intros Hds. induction cs as [|c cs IH]; simpl.
  - by destruct ds.
  - by rewrite String.eqb_refl, IH.
Qed.

Lemma under_length (cs ds : list string) :
  Path.under cs ds = true -> length cs < length ds.
Proof.
  revert ds. induction cs as [|c cs IH]; intros [|d ds]; simpl; try done.
  - lia.
  - intros H. apply andb_true_iff in H as [_ H]. apply IH in H. lia.
Qed.

Lemma under_trans (a b c : list string) :
  Path.under a b = true -> Path.under b c = true -> Path.under a c = true.
Proof.
  revert b c. induction a as [|x a IH]; intros [|y b] [|z c]; simpl; try done.
  rewrite !andb_true_iff. intros [Hxy Hab] [Hyz Hbc].
  apply String.eqb_eq in Hxy, Hyz. subst. rewrite String.eqb_refl.
  split; [reflexivity|]. by apply (IH b c).
Qed.

Lemma below_ne (d p : string) : Path.below d p = true -> p <> d.
Proof.
  unfold Path.below. intros H Heq. subst p.
  apply andb_true_iff in H as [_ H]. apply under_length in H. lia.
Qed.

Lemma below_trans (a b c : string) :
  Path.below a b = true -> Path.below b c = true -> Path.below a c = true.
Proof.
  unfold Path.below. rewrite !andb_true_iff. intros [Hr1 H1] [Hr2 H2].
  apply String.eqb_eq in Hr1, Hr2. rewrite Hr1, Hr2, String.eqb_refl.
  split; [reflexivity|]. by apply (under_trans _ (PyPath.parts b)).
Qed.

Lemma below_asym (a b : string) :
  Path.below a b = true -> Path.below b a = false.
Proof.
  intros H. destruct (Path.below b a) eqn:E; [|reflexivity].
  pose proof (below_trans a b a H E) as H'. by apply below_ne in H'.
Qed.

(** What is joined to a directory lies below it. *)
Lemma below_join (a b : string) :
  PyPath.root b = "" -> PyPath.parts b <> [] ->
  Path.below a (Path.join a b) = true.
Proof.
  intros Hr Hp. unfold Path.below.
  rewrite (root_join a b Hr), (parts_join a b Hr), String.eqb_refl.
  by apply under_app.
Qed.

(** *** Where an archive member is extracted *)

(** The path names no [..] step. *)
Definition resolved (p : string) : bool :=
  forallb (fun c => negb (String.eqb c "..")) (PyPath.parts p).

(** A member name that is extracted under its own name: relative, with at
    least one part and without [..] step. *)
Definition plain_member (m : string) : bool :=
  String.eqb (PyPath.root m) ""
  && negb (Nat.eqb (length (PyPath.parts m)) 0)
  && resolved m.

Lemma collapse_resolved (r : string) (kept cs : list string) :
  forallb (fun c => negb (String.eqb c "..")) cs = true ->
  Path.collapse r kept cs = (rev kept ++ cs)%list.
Proof.
  revert kept. induction cs as [|c cs IH]; intros kept H; cbn [Path.collapse].
  - by rewrite app_nil_r.
  - cbn [forallb] in H. apply andb_true_iff in H as [Hc Hcs].
    apply negb_true_iff in Hc. rewrite Hc, (IH _ Hcs). cbn [rev].
    by rewrite <- app_assoc.
Qed.

Lemma filter_resolved (cs : list string) :
  forallb (fun c => negb (String.eqb c "..")) cs = true ->
  List.filter (fun c => negb (String.eqb c "..")) cs = cs.
Proof.
  induction cs as [|c cs IH]; [reflexivity|]. cbn [forallb List.filter].
  intros H. apply andb_true_iff in H as [Hc Hcs]. by rewrite Hc, IH.
Qed.

Lemma plain_member_spec (m : string) :
  plain_member m = true ->
  PyPath.root m = "" /\ PyPath.parts m <> [] /\ resolved m = true.
Proof.
  unfold plain_member. rewrite !andb_true_iff.
  intros [[Hr Hp] Hres]. apply String.eqb_eq in Hr.
  repeat split; [exact Hr| |exact Hres].
  intros E. by rewrite E in Hp.
Qed.

(** The member is extracted to [dest / member]. *)
Lemma extract_target_join (dest member : string) :
  resolved dest = true -> plain_member member = true ->
  FS.extract_target dest member = Path.join dest member.
Proof.
  intros Hd Hm. destruct (plain_member_spec member Hm) as (Hr & _ & Hres).
  unfold FS.extract_target. rewrite (join_relative dest member Hr).
  unfold resolved in Hd, Hres.
  rewrite (filter_resolved _ Hres), collapse_resolved; [reflexivity|].
  by rewrite forallb_app, Hd, Hres.
Qed.

(** *** Names made of an archive's stem *)

Lemma last_In {A} (l : list A) (d : A) : l <> [] -> In (List.last l d) l.
Proof.
  induction l as [|a l IH]; [done|]. intros _.
  destruct l as [|b l]; [by left|]. right. by apply IH.
Qed.

Lemma name_nosep (p : string) : PyStr.contains "/" (PyPath.name p) = false.
Proof.
  unfold PyPath.name. destruct (PyPath.parts p) as [|c cs] eqn:E; [reflexivity|].
  pose proof (parts_clean p) as H. rewrite E, List.Forall_forall in H.
  apply clean_nosep, H, last_In. discriminate.
Qed.

Lemma substring_nosep (i : nat) (n : string) :
  PyStr.contains "/" n = false ->
  PyStr.contains "/" (String.substring 0 i n) = false.
Proof.
  revert i. induction n as [|a n IH]; intros [|i] H; try reflexivity.
  rewrite contains_char_cons in H. apply orb_false_iff in H as [Ha Hn].
  cbn [String.substring]. rewrite contains_char_cons, Ha. by apply IH.
Qed.

Lemma stem_nosep (p : string) : PyStr.contains "/" (PyPath.stem p) = false.
Proof.
  unfold PyPath.stem, PyPath.stem_of_name.
  pose proof (name_nosep p) as H.
  destruct (PyStr.rfind "." (PyPath.name p)) as [i|]; [|exact H].
  destruct (_ && _); [by apply substring_nosep | exact H].
Qed.




(** ** What a run leaves of the files outside the scratch directory *)


Definition is_ret {A} (r : outcome A) : Prop :=
  match r with Ret _ => True | _ => False end.

Definition not_exit {A} (r : outcome A) : Prop :=
  match r with SysExit _ => False | _ => True end.

(** The outcome is no exit, and a returned value satisfies [R]. *)
Definition ret_in {A} (R : A -> Prop) (r : outcome A) : Prop :=
  match r with Ret a => R a | Raise _ => True | SysExit _ => False end.

(** What is stored at [q], if it is not a directory. *)
Definition content (q : string) (f : odict Node) : option Node :=
  match OD.get q f with
  | Some NDir | None => None
  | Some n => Some n
  end.













Lemma od_get_filter_key {V} (P : string -> bool) p (f : odict V) :
  P p = true ->
  OD.get p (List.filter (fun kv => P (fst kv)) f) = OD.get p f.
Proof.
  intros Hp. induction f as [|[k v] f IH]; [reflexivity|]. simpl.
  destruct (P k) eqn:Hk; simpl.
  - by rewrite IH.
  - destruct (String.eqb k p) eqn:E; [|exact IH].
    apply String.eqb_eq in E. congruence.
Qed.

Lemma od_get_filter {V} (P : string -> bool) (p : string) (f : odict V) :
  OD.get p (List.filter (fun kv => P (fst kv)) f)
  = if P p then OD.get p f else None.
Proof.
  destruct (P p) eqn:Hp; [by apply od_get_filter_key|].
  induction f as [|[k v] f IH]; [reflexivity|]. simpl.
  destruct (P k) eqn:Hk; simpl.
  - destruct (String.eqb_spec k p) as [->|_]; [congruence | exact IH].
  - exact IH.
Qed.

Lemma od_get_remove (p q : string) (f : odict Node) :
  OD.get p (FS.remove q f) = if String.eqb p q then None else OD.get p f.
Proof.
  unfold FS.remove.
  rewrite (od_get_filter (fun k => negb (String.eqb k q))).
  by destruct (String.eqb p q).
Qed.





Lemma state_eta s : mkState (fs s) (stdout s) (processed_games s) (mkdtemp_name s) = s.
Proof. by destruct s. Qed.

(** *** Frames *)

Section frames.
Variable temp : string.



Lemma is_ret_not_exit {A} (r : outcome A) : is_ret r -> not_exit r.
Proof. by destruct r. Qed.

Lemma ret_in_not_exit {A} (R : A -> Prop) (r : outcome A) :
  ret_in R r -> not_exit r.
Proof. by destruct r. Qed.












(** *** The primitives *)








End frames.

(** *** The methods a run without ROM catalog goes through *)

Section frame.
Variable self : MameToBatocera.
Hypothesis Htemp : resolved (extract_temp self) = true.





End frame.

(** ** The run without ROM catalog, and the dry run *)


(** *** The constructor *)










Definition chd_catalog : Element :=
  mkElement "datafile" [] None None
    [mkElement "machine" [("name", "pacman")] None None
       [ET.leaf "description" (Some "Pac-Man")]].

(** A catalog directory that holds a CHD archive only. *)
Definition chd_only_world : State :=
  mkState [("dats", NDir); ("roms", NDir); ("extras", NDir); ("tmp", NDir);
           ("dats/MAME CHDs.zip",
            NZip [("chds.xml", mkFile "<datafile/>" (Some chd_catalog))])]
          [] ∅ "tmp/mame2batocera_0".

Definition plain_args (dry_run : bool) : Args :=
  mkArgs "dats" "extras" "roms" None false dry_run true.

(** The converter object [__init__] makes of [plain_args]. *)
Definition plain_self (dry_run : bool) : MameToBatocera :=
  mkSelf "dats" "extras" "roms" "tmp/mame2batocera_0" false dry_run true.




(** *** Dry run *)

Definition rom_catalog : Element :=
  mkElement "datafile" [] None None
    [mkElement "machine" [("name", "pacman")] None None
       [ET.leaf "description" (Some "Pac-Man"); ET.leaf "year" (Some "1980")]].

(** ROM archive, screenshots archive, an empty ROM directory. *)
Definition fresh_world : State :=
  mkState [("dats", NDir); ("roms", NDir); ("extras", NDir); ("tmp", NDir);
           ("dats/MAME ROMs.zip",
            NZip [("mame.xml", mkFile "<datafile/>" (Some rom_catalog))]);
           ("extras/snap.zip", NZip [("pacman.png", mkFile "PNG" None)])]
          [] ∅ "tmp/mame2batocera_0".

(** The paths of [s'] that [s] does not have. *)
Definition created (s s' : State) : list string :=
  List.filter (fun p => negb (FS.exists_ p (fs s))) (map fst (fs s')).

(** C8: a run with [--dry-run] over [fresh_world] ends with status 0 and
    writes no gamelist, but it has made the scratch directory and the four
    media directories, has extracted the ROM catalog from its archive, and
    leaves all of these behind; the run proper, without [--dry-run],
    leaves the media directories, the screenshot and the gamelist. *)
Theorem dry_run_creates_directories_and_files :
  let dry := main (plain_args true) fresh_world in
  let wet := main (plain_args false) fresh_world in
  snd dry = 0
  /\ file_bytes "roms/gamelist.xml" (fs (fst dry)) = None
  /\ In "[INFO] Would write gamelist.xml to roms/gamelist.xml" (stdout (fst dry))
  /\ created fresh_world (fst dry)
     = ["tmp/mame2batocera_0"; "roms/media"; "roms/media/screenshots";
        "roms/media/covers"; "roms/media/marquees";
        "tmp/mame2batocera_0/MAME ROMs_mame.xml"]
  /\ FS.is_file "tmp/mame2batocera_0/MAME ROMs_mame.xml" (fs (fst dry)) = true
  /\ created fresh_world (fst wet)
     = ["roms/media"; "roms/media/screenshots"; "roms/media/covers";
        "roms/media/marquees"; "roms/media/screenshots/pacman.png";
        "roms/gamelist.xml"].
Proof.
  vm_compute. repeat split. tauto.
Qed.

(** ** Further properties of [merge_metadata] *)

Lemma merge_metadata_lookup (rom_games chd_games artwork_games : catalog)
    (id : string) :
  merge_metadata rom_games chd_games artwork_games !! id =
    let merged :=
      match chd_games !! id with
      | None => rom_games !! id
      | Some rc =>
          match rom_games !! id with
          | None => Some rc
          | Some rr => Some (dict_update rr (truthy_fields rc))
          end
      end in
    match artwork_games !! id with
    | None => merged
    | Some ra =>
        match merged with
        | None => Some ra
        | Some cur => Some (dict_update cur (truthy_missing_fields cur ra))
        end
    end.
Proof.
  unfold merge_metadata.
  by rewrite merge_artwork_lookup, merge_chd_lookup, merge_rom_id.
Qed.

(** X1: the identifiers of the merged catalog are exactly those of the
    three catalogs together: no identifier is dropped, none is invented. *)
Theorem merged_identifiers_are_the_union
    (rom_games chd_games artwork_games : catalog) :
  dom (merge_metadata rom_games chd_games artwork_games)
  = dom rom_games ∪ dom chd_games ∪ dom artwork_games.
Proof.
  apply set_eq. intros id.
  rewrite !elem_of_union, !elem_of_dom, merge_metadata_lookup. cbn zeta.
  destruct (artwork_games !! id), (chd_games !! id), (rom_games !! id);
    unfold is_Some;
    (split; [intros [x Hx]|intros [[[x Hx]|[x Hx]]|[x Hx]]]);
    try discriminate; eauto 6.
Qed.

(** X2: an identifier that only one catalog has keeps the record of that
    catalog as it is, flags and falsy values included. *)
Theorem unshared_record_is_kept
    (rom_games chd_games artwork_games : catalog) (id : string) :
  (chd_games !! id = None -> artwork_games !! id = None ->
     merge_metadata rom_games chd_games artwork_games !! id = rom_games !! id)
  /\ (rom_games !! id = None -> artwork_games !! id = None ->
        merge_metadata rom_games chd_games artwork_games !! id
        = chd_games !! id)
  /\ (rom_games !! id = None -> chd_games !! id = None ->
        merge_metadata rom_games chd_games artwork_games !! id
        = artwork_games !! id).
Proof.
  rewrite merge_metadata_lookup. cbn zeta.
  repeat split; intros -> ->; [done| |].
  - by destruct (chd_games !! id).
  - by destruct (artwork_games !! id).
Qed.

Lemma unshared_record_is_kept_witness :
  merge_metadata rom_pacman ∅ ∅ !! "pacman" = rom_pacman !! "pacman"
  /\ merge_metadata ∅ chd_pacman ∅ !! "pacman" = chd_pacman !! "pacman"
  /\ merge_metadata rom_pacman chd_pacman artwork_pacman !! "galaga"
     = artwork_pacman !! "galaga".
Proof.
  split; [|split].
  - exact (proj1 (unshared_record_is_kept rom_pacman ∅ ∅ "pacman")
             eq_refl eq_refl).
  - exact (proj1 (proj2 (unshared_record_is_kept ∅ chd_pacman ∅ "pacman"))
             eq_refl eq_refl).
  - exact (proj2 (proj2 (unshared_record_is_kept rom_pacman chd_pacman
                           artwork_pacman "galaga"))
             eq_refl eq_refl).
Defined.

(** X3: merging never invents a value and never drops a ROM field: a
    field of a merged record holds the value one of the three catalogs has
    for that identifier and field, and every field the ROM record binds is
    bound in the merged record. *)
Theorem merged_fields_come_from_the_catalogs
    (rom_games chd_games artwork_games : catalog) (id k : string) :
  (forall v,
     field (merge_metadata rom_games chd_games artwork_games) id k = Some v ->
     field rom_games id k = Some v \/ field chd_games id k = Some v
     \/ field artwork_games id k = Some v)
  /\ (is_Some (field rom_games id k) ->
      is_Some (field (merge_metadata rom_games chd_games artwork_games) id k)).
Proof.
  unfold field. rewrite merge_metadata_lookup. cbn zeta.
  destruct (artwork_games !! id) as [ra|], (chd_games !! id) as [rc|],
    (rom_games !! id) as [rr|]; simpl;
    rewrite ?artwork_update_field, ?chd_update_field;
    (split; [intros v|intros [w Hw]]);
    repeat match goal with
           | |- context [match ?x !! k with _ => _ end] =>
               let E := fresh "E" in destruct (x !! k) eqn:E
           | |- context [if truthy ?x then _ else _] =>
               let E := fresh "E" in destruct (truthy x) eqn:E
           end;
    try rewrite Hw; unfold is_Some; naive_solver.
Qed.

Lemma merged_fields_come_from_the_catalogs_witness :
  is_Some (field (merge_metadata rom_pacman chd_pacman artwork_pacman)
                 "pacman" "manufacturer").
Proof.
  apply (proj2 (merged_fields_come_from_the_catalogs
                  rom_pacman chd_pacman artwork_pacman "pacman" "manufacturer")).
  vm_compute. by eexists.
Defined.

Lemma dict_update_truthy_self (d : record) :
  dict_update d (truthy_fields d) = d.
Proof.
  apply map_eq. intros k. rewrite chd_update_field.
  destruct (d !! k) as [v|]; [by destruct (truthy v)|done].
Qed.

Lemma dict_update_missing_self (d : record) :
  dict_update d (truthy_missing_fields d d) = d.
Proof.
  apply map_eq. intros k. rewrite artwork_update_field.
  by destruct (d !! k).
Qed.

(** X4: merging is neutral on empty CHD and artwork catalogs and
    idempotent: a catalog merged with itself in all three roles is that
    catalog. *)
Theorem merge_neutral_and_idempotent (games : catalog) :
  merge_metadata games ∅ ∅ = games /\ merge_metadata games games games = games.
Proof.
  split; apply map_eq; intros id; rewrite merge_metadata_lookup; cbn zeta.
  - by rewrite !lookup_empty.
  - destruct (games !! id) as [d|]; [|done].
    by rewrite dict_update_truthy_self, dict_update_missing_self.
Qed.

(** ** The catalog parser *)

(** The three keys the parser binds to [bool]. *)
Definition flag_key (k : string) : bool :=
  String.eqb k "isbios" || String.eqb k "ismechanical" || String.eqb k "isdevice".

(** [game_elem.get(a) == 'yes'] *)
Definition is_flag (a : string) (game_elem : Element) : bool :=
  match ET.get a game_elem with
  | Some v => String.eqb v "yes"
  | None => false
  end.

(** The players value the parser stores, if any. *)
Definition players_of (game_elem : Element) : option string :=
  match ET.find "input" game_elem with
  | Some input_elem =>
      match ET.get "players" input_elem with
      | Some players => if PyStr.nonempty players then Some players else None
      | None => None
      end
  | None => None
  end.

(** The record of one element, key by key. *)
Lemma game_data_lookup (rom_name : string) (g : Element) (k : string) :
  game_data_of rom_name g !! k =
    if String.eqb k "name" then Some (PStr rom_name)
    else if String.eqb k "description"
    then Some (PStr (ET.findtext "description" "" g))
    else if String.eqb k "year" then Some (PStr (ET.findtext "year" "" g))
    else if String.eqb k "manufacturer"
    then Some (PStr (ET.findtext "manufacturer" "" g))
    else if String.eqb k "isbios" then Some (PBool (is_flag "isbios" g))
    else if String.eqb k "ismechanical"
    then Some (PBool (is_flag "ismechanical" g))
    else if String.eqb k "isdevice" then Some (PBool (is_flag "isdevice" g))
    else if String.eqb k "players" then PStr <$> players_of g
    else if String.eqb k "driver_status"
    then (fun d => PStr (default "" (ET.get "status" d))) <$> ET.find "driver" g
    else if String.eqb k "driver_emulation"
    then (fun d => PStr (default "" (ET.get "emulation" d)))
           <$> ET.find "driver" g
    else None.
Proof.
  unfold game_data_of, players_of.
  fold (is_flag "isbios" g) (is_flag "ismechanical" g) (is_flag "isdevice" g).
  generalize (is_flag "isbios" g), (is_flag "ismechanical" g),
    (is_flag "isdevice" g), (ET.findtext "description" "" g),
    (ET.findtext "year" "" g), (ET.findtext "manufacturer" "" g).
  intros b1 b2 b3 t1 t2 t3.
  repeat match goal with
         | |- context [String.eqb k ?c] =>
             destruct (String.eqb_spec k c) as [->|?]
         end;
    destruct (ET.find "input" g) as [i|];
    try destruct (ET.get "players" i) as [p|];
    try destruct (PyStr.nonempty p);
    destruct (ET.find "driver" g) as [d|];
    try reflexivity;
    simpl; rewrite ?lookup_insert_ne by congruence; try apply lookup_empty.
Qed.

(** The elements of [l] the loop stores under [rom_name]. *)
Definition named (rom_name : string) (l : list Element) : list Element :=
  List.filter (fun g => match rom_name_of g with
                        | Some n => String.eqb n rom_name
                        | None => false
                        end) l.

Lemma parse_loop_lookup (l : list Element) (games : catalog) (rom_name : string) :
  fold_left
    (fun (games : catalog) game_elem =>
       match rom_name_of game_elem with
       | Some rom_name => <[rom_name := game_data_of rom_name game_elem]> games
       | None => games
       end) l games !! rom_name
  = match last (named rom_name l) with
    | Some g => Some (game_data_of rom_name g)
    | None => games !! rom_name
    end.
Proof.
  revert games. induction l as [|g l IH]; intros games; [reflexivity|].
  cbn [fold_left named List.filter]. rewrite IH. fold (named rom_name l).
  destruct (rom_name_of g) as [n|] eqn:Hn; [|reflexivity].
  destruct (String.eqb_spec n rom_name) as [->|Hne].
  - destruct (named rom_name l) as [|g' l'] eqn:E.
    + simpl. by rewrite lookup_insert_eq.
    + rewrite last_cons_cons.
      destruct (last (g' :: l')) eqn:L; [reflexivity|].
      apply last_None in L. discriminate.
  - destruct (last (named rom_name l)); [reflexivity|].
    by rewrite lookup_insert_ne.
Qed.

Lemma rom_name_of_Some (g : Element) (rom_name : string) :
  rom_name_of g = Some rom_name
  <-> ET.get "name" g = Some rom_name /\ rom_name <> "".
Proof.
  unfold rom_name_of. destruct (ET.get "name" g) as [n|];
    [|split; [discriminate | intros [? _]; discriminate]].
  destruct n as [|a n]; simpl.
  - split; [done|]. intros [[= <-] H]. by destruct H.
  - split.
    + intros [= <-]. by split.
    + by intros [[= <-] _].
Qed.

(** X5: the catalog holds one record per non-empty [name] attribute of the
    selected elements ([machine] under a [datafile] root, else [game]);
    elements without [name], or with an empty one, are skipped, and of
    several elements with the same name the last one gives the record. *)
Theorem parsed_catalog_lookup (root : Element) (rom_name : string) :
  parse_dat_root root !! rom_name
  = game_data_of rom_name <$> last (named rom_name (game_elements root))
  /\ (is_Some (parse_dat_root root !! rom_name)
      <-> rom_name <> ""
          /\ exists g, In g (game_elements root)
                       /\ ET.get "name" g = Some rom_name).
Proof.
  assert (E : parse_dat_root root !! rom_name
              = game_data_of rom_name
                  <$> last (named rom_name (game_elements root))).
  { unfold parse_dat_root. rewrite parse_loop_lookup, lookup_empty.
    by destruct (last _). }
  split; [exact E|]. rewrite E, fmap_is_Some. split.
  - intros [g Hg]. apply last_Some in Hg as [l' Hl'].
    assert (Hin : In g (named rom_name (game_elements root))).
    { rewrite Hl'. apply in_or_app. right. by left. }
    apply filter_In in Hin as [Hin Hname].
    destruct (rom_name_of g) as [n|] eqn:Hn; [|discriminate].
    apply String.eqb_eq in Hname. subst n.
    apply rom_name_of_Some in Hn as [Hget Hne]. eauto.
  - intros (Hne & g & Hin & Hget).
    assert (Hn : In g (named rom_name (game_elements root))).
    { apply filter_In. split; [exact Hin|].
      rewrite (proj2 (rom_name_of_Some g rom_name) (conj Hget Hne)).
      apply String.eqb_refl. }
    destruct (named rom_name (game_elements root)) as [|g0 l0] eqn:El;
      [destruct Hn|].
    rewrite <- El. destruct (last (named rom_name (game_elements root))) eqn:L.
    + by eexists.
    + apply last_None in L. congruence.
Qed.

(** A record as the parser types it: [bool] under the three flag keys,
    [str] under every other key. *)
Definition typed (d : record) : Prop :=
  forall k v, d !! k = Some v ->
    match v with
    | PBool _ => flag_key k = true
    | PStr _ => flag_key k = false
    end.

(** The record of identifier [rom_name] binds the four text keys. *)
Definition complete (rom_name : string) (d : record) : Prop :=
  d !! "name" = Some (PStr rom_name)
  /\ (exists s, d !! "description" = Some (PStr s))
  /\ (exists s, d !! "year" = Some (PStr s))
  /\ (exists s, d !! "manufacturer" = Some (PStr s)).

Lemma game_data_typed (rom_name : string) (g : Element) :
  typed (game_data_of rom_name g).
Proof.
  intros k v. rewrite game_data_lookup. unfold flag_key.
  repeat match goal with
         | |- context [String.eqb k ?c] =>
             destruct (String.eqb_spec k c) as [->|?]
         end;
    try (intros [= <-]; reflexivity); try discriminate.
  - destruct (players_of g); [intros [= <-]; reflexivity|discriminate].
  - destruct (ET.find "driver" g); [intros [= <-]; reflexivity|discriminate].
  - destruct (ET.find "driver" g); [intros [= <-]; reflexivity|discriminate].
Qed.

Lemma game_data_complete (rom_name : string) (g : Element) :
  complete rom_name (game_data_of rom_name g).
Proof.
  unfold complete. rewrite !game_data_lookup. simpl. eauto 10.
Qed.

(** X6: every record of a parsed catalog binds [name] (to its own
    identifier), [description], [year] and [manufacturer] to strings and
    the three flags to booleans, binds no other key to a boolean, binds
    [players] only to a non-empty string, and binds [driver_status] and
    [driver_emulation] together or not at all. *)
Theorem parsed_record_shape (root : Element) (rom_name : string) (d : record) :
  parse_dat_root root !! rom_name = Some d ->
  complete rom_name d
  /\ typed d
  /\ (exists b1 b2 b3, d !! "isbios" = Some (PBool b1)
                       /\ d !! "ismechanical" = Some (PBool b2)
                       /\ d !! "isdevice" = Some (PBool b3))
  /\ (forall v, d !! "players" = Some v -> exists p, v = PStr p /\ p <> "")
  /\ (is_Some (d !! "driver_status") <-> is_Some (d !! "driver_emulation"))
  /\ (forall k, is_Some (d !! k) ->
        In k ["name"; "description"; "year"; "manufacturer"; "isbios";
              "ismechanical"; "isdevice"; "players"; "driver_status";
              "driver_emulation"]).
Proof.
  unfold parse_dat_root. rewrite parse_loop_lookup, lookup_empty.
  destruct (last _) as [g|]; [|discriminate]. intros [= <-].
  split; [apply game_data_complete|]. split; [apply game_data_typed|].
  split; [|split; [|split]].
  - rewrite !game_data_lookup. simpl. by eexists _, _, _.
  - intros v. rewrite game_data_lookup. simpl. unfold players_of.
    destruct (ET.find "input" g) as [i|]; [|discriminate].
    destruct (ET.get "players" i) as [p|]; [|discriminate].
    destruct p as [|a p]; [discriminate|].
    intros [= <-]. by eexists.
  - rewrite !game_data_lookup. simpl.
    destruct (ET.find "driver" g); simpl; unfold is_Some; split;
      intros [x Hx]; try discriminate; eauto.
  - intros k. rewrite game_data_lookup.
    repeat match goal with
           | |- context [String.eqb k ?c] =>
               destruct (String.eqb_spec k c) as [->|?]
           end; try (intros _; simpl; tauto).
    intros [x Hx]. discriminate.
Qed.

Lemma parsed_record_shape_witness :
  exists d, parse_dat_root rom_catalog !! "pacman" = Some d
            /\ complete "pacman" d /\ typed d.
Proof.
  assert (H : parse_dat_root rom_catalog !! "pacman"
              = Some (game_data_of "pacman"
                        (mkElement "machine" [("name", "pacman")] None None
                           [ET.leaf "description" (Some "Pac-Man");
                            ET.leaf "year" (Some "1980")])))
    by (cbv [parse_dat_root game_elements ET.findall children tag rom_catalog
               String.eqb Ascii.eqb Bool.eqb List.filter fold_left
               rom_name_of ET.get attrib OD.get PyStr.nonempty];
        apply lookup_insert_eq).
  eexists. split; [exact H|].
  pose proof (parsed_record_shape rom_catalog "pacman" _ H) as (Hc & Ht & _).
  exact (conj Hc Ht).
Defined.

(** *** Parsed catalogs through the merge *)

(** Every record of the catalog is complete for its identifier and typed. *)
Definition parsed (c : catalog) : Prop :=
  forall id d, c !! id = Some d -> complete id d /\ typed d.

Lemma parse_dat_root_parsed (root : Element) : parsed (parse_dat_root root).
Proof.
  intros id d. unfold parse_dat_root. rewrite parse_loop_lookup, lookup_empty.
  destruct (last _) as [g|]; [|discriminate]. intros [= <-].
  split; [apply game_data_complete | apply game_data_typed].
Qed.

Lemma update_keeps_shape (id : string) (cur data upd : record) :
  complete id cur -> typed cur -> complete id data -> typed data ->
  (forall k v, upd !! k = Some v -> data !! k = Some v) ->
  complete id (dict_update cur upd) /\ typed (dict_update cur upd).
Proof.
  intros (Cn & Cd & Cy & Cm) Tc (Dn & Dd & Dy & Dm) Td Hupd.
  assert (Hk : forall k (P : pyval -> Prop),
             (exists v, cur !! k = Some v /\ P v) ->
             (exists v, data !! k = Some v /\ P v) ->
             exists v, dict_update cur upd !! k = Some v /\ P v).
  { intros k P (v & Hv & HP) (w & Hw & HQ). rewrite dict_update_lookup.
    destruct (upd !! k) as [u|] eqn:E; [|eauto].
    apply Hupd in E. rewrite Hw in E. injection E as <-. eauto. }
  split; [split; [|split; [|split]]|].
  - destruct (Hk "name" (fun v => v = PStr id)) as (v & Hv & ->); eauto.
  - destruct Cd as [s Hs], Dd as [t Ht].
    destruct (Hk "description" (fun v => exists s, v = PStr s))
      as (v & Hv & [u ->]); eauto.
  - destruct Cy as [s Hs], Dy as [t Ht].
    destruct (Hk "year" (fun v => exists s, v = PStr s))
      as (v & Hv & [u ->]); eauto.
  - destruct Cm as [s Hs], Dm as [t Ht].
    destruct (Hk "manufacturer" (fun v => exists s, v = PStr s))
      as (v & Hv & [u ->]); eauto.
  - intros k v. rewrite dict_update_lookup.
    destruct (upd !! k) as [u|] eqn:E.
    + intros [= <-]. apply Hupd in E. by apply Td.
    + apply Tc.
Qed.

Lemma merge_parsed (rom_games chd_games artwork_games : catalog) :
  parsed rom_games -> parsed chd_games -> parsed artwork_games ->
  parsed (merge_metadata rom_games chd_games artwork_games).
Proof.
  intros Hr Hc Ha id d. rewrite merge_metadata_lookup. cbn zeta.
  assert (Hm : forall cur,
             match chd_games !! id with
             | Some rc =>
                 match rom_games !! id with
                 | Some rr => Some (dict_update rr (truthy_fields rc))
                 | None => Some rc
                 end
             | None => rom_games !! id
             end = Some cur -> complete id cur /\ typed cur).
  { intros cur. destruct (chd_games !! id) as [rc|] eqn:Ec;
      destruct (rom_games !! id) as [rr|] eqn:Er; try discriminate;
      intros [= <-]; [|by apply Hc|by apply Hr].
    destruct (Hr _ _ Er), (Hc _ _ Ec).
    apply (update_keeps_shape id rr rc); try done.
    intros k v. rewrite truthy_fields_lookup.
    destruct (rc !! k) as [w|]; [|discriminate].
    by destruct (truthy w). }
  destruct (artwork_games !! id) as [ra|] eqn:Ea; [|apply Hm].
  destruct (match chd_games !! id with Some _ => _ | None => _ end) as [cur|]
    eqn:Ecur.
  - intros [= <-]. destruct (Hm cur eq_refl), (Ha _ _ Ea).
    apply (update_keeps_shape id cur ra); try done.
    intros k v. rewrite truthy_missing_fields_lookup.
    destruct (ra !! k) as [w|]; [|discriminate].
    destruct (cur !! k); [discriminate|]. by destruct (truthy w).
  - intros [= <-]. by apply Ha.
Qed.

(** X7: the records merged from three parsed catalogs are typed as the
    parser types them and still bind [name] (to the identifier),
    [description], [year] and [manufacturer] to strings; hence a generated
    entry without existing record has the merged description as [name] and
    [desc], also when it is empty (the identifier is never used as a
    fallback), and the merged manufacturer as [developer] and
    [publisher]. *)
Theorem merged_parsed_records_keep_their_types
    (rom_root chd_root artwork_root : Element) (id : string) (d : record) :
  merge_metadata (parse_dat_root rom_root) (parse_dat_root chd_root)
                 (parse_dat_root artwork_root) !! id = Some d ->
  complete id d /\ typed d
  /\ exists description manufacturer,
       d !! "description" = Some (PStr description)
       /\ d !! "manufacturer" = Some (PStr manufacturer)
       /\ forall snap_map flyer_map marquee_map,
            let entry := create_gamelist_entry id d snap_map flyer_map
                           marquee_map None in
            child_text "name" entry = Some (Some description)
            /\ child_text "desc" entry = Some (Some description)
            /\ child_text "developer" entry = Some (Some manufacturer)
            /\ child_text "publisher" entry = Some (Some manufacturer).
Proof.
  intros Hd.
  destruct (merge_parsed _ _ _ (parse_dat_root_parsed rom_root)
              (parse_dat_root_parsed chd_root)
              (parse_dat_root_parsed artwork_root) id d Hd) as [Hc Ht].
  split; [exact Hc|]. split; [exact Ht|].
  destruct Hc as (_ & [description Hdesc] & _ & [manufacturer Hman]).
  exists description, manufacturer. split; [exact Hdesc|].
  split; [exact Hman|]. intros snap_map flyer_map marquee_map entry.
  unfold entry. rewrite !entry_child_text by (simpl; tauto).
  unfold field_text, existing_field, derived_text. simpl.
  by rewrite Hdesc, Hman.
Qed.

Lemma merged_parsed_records_keep_their_types_witness :
  exists d : record,
    merge_metadata (parse_dat_root rom_catalog) (parse_dat_root chd_catalog)
                   (parse_dat_root (ET.Element_new "datafile")) !! "pacman"
    = Some d
    /\ complete "pacman" d /\ typed d.
Proof.
  assert (Hrom : parse_dat_root rom_catalog !! "pacman"
                 = Some (game_data_of "pacman"
                           (mkElement "machine" [("name", "pacman")] None None
                              [ET.leaf "description" (Some "Pac-Man");
                               ET.leaf "year" (Some "1980")])))
    by (cbv [parse_dat_root game_elements ET.findall children tag rom_catalog
               String.eqb Ascii.eqb Bool.eqb List.filter fold_left
               rom_name_of ET.get attrib OD.get PyStr.nonempty];
        apply lookup_insert_eq).
  assert (Hchd : parse_dat_root chd_catalog !! "pacman"
                 = Some (game_data_of "pacman"
                           (mkElement "machine" [("name", "pacman")] None None
                              [ET.leaf "description" (Some "Pac-Man")])))
    by (cbv [parse_dat_root game_elements ET.findall children tag chd_catalog
               String.eqb Ascii.eqb Bool.eqb List.filter fold_left
               rom_name_of ET.get attrib OD.get PyStr.nonempty];
        apply lookup_insert_eq).
  assert (Hart : parse_dat_root (ET.Element_new "datafile") !! "pacman" = None)
    by apply lookup_empty.
  eexists. split.
  - rewrite merge_metadata_lookup, Hrom, Hchd, Hart. reflexivity.
  - assert (H : merge_metadata (parse_dat_root rom_catalog)
                  (parse_dat_root chd_catalog)
                  (parse_dat_root (ET.Element_new "datafile")) !! "pacman"
                = Some (dict_update
                          (game_data_of "pacman"
                             (mkElement "machine" [("name", "pacman")] None None
                                [ET.leaf "description" (Some "Pac-Man");
                                 ET.leaf "year" (Some "1980")]))
                          (truthy_fields
                             (game_data_of "pacman"
                                (mkElement "machine" [("name", "pacman")]
                                   None None
                                   [ET.leaf "description" (Some "Pac-Man")])))))
      by (rewrite merge_metadata_lookup, Hrom, Hchd, Hart; reflexivity).
    destruct (merged_parsed_records_keep_their_types _ _ _ _ _ H)
      as (Hc & Ht & _).
    exact (conj Hc Ht).
Defined.

(** ** The media index of [snap.zip] and [flyers.zip] *)

(** The [.png] names of [filenames] whose base name is [k]. *)
Definition images_named (k : string) (filenames : list string) : list string :=
  List.filter (fun f => PyStr.endswith f ".png" && String.eqb (PyPath.stem f) k)
              filenames.

Lemma media_map_loop_get (media_type : string) (filenames : list string)
    (m : odict string) (k : string) :
  String.eqb media_type "artwork" = false ->
  OD.get k (fold_left (media_map_step media_type) filenames m)
  = match last (images_named k filenames) with
    | Some f => Some f
    | None => OD.get k m
    end.
Proof.
  intros Ht. revert m. induction filenames as [|f l IH]; intros m;
    [reflexivity|].
  cbn [fold_left images_named List.filter]. rewrite IH.
  fold (images_named k l). unfold media_map_step. rewrite Ht.
  destruct (PyStr.endswith f ".png"); [|reflexivity]. cbn [andb].
  destruct (String.eqb_spec (PyPath.stem f) k) as [->|Hne].
  - destruct (images_named k l) as [|f' l'] eqn:E.
    + simpl. apply od_get_set_eq.
    + rewrite last_cons_cons.
      destruct (last (f' :: l')) eqn:L; [reflexivity|].
      apply last_None in L. discriminate.
  - destruct (last (images_named k l)); [reflexivity|].
    by apply od_get_set_ne.
Qed.

Lemma media_map_loop_NoDup (media_type : string) (filenames : list string)
    (m : odict string) :
  List.NoDup (map fst m) ->
  List.NoDup (map fst (fold_left (media_map_step media_type) filenames m)).
Proof.
  revert m. induction filenames as [|f l IH]; intros m Hm; [exact Hm|].
  simpl. apply IH. unfold media_map_step.
  repeat match goal with
         | |- context [if ?b then _ else _] => destruct b
         end; try exact Hm; by apply od_set_NoDup.
Qed.

(** X8: in the index of a screenshots or flyers archive the key is the
    base name of a [.png] member and the value the member's name; members
    that do not end in [.png] are left out, and when several members share
    a base name (the same file in two folders) the last one in archive
    order is the one indexed.  No key occurs twice, whatever the media
    type. *)
Theorem media_index_maps_stem_to_last_png
    (media_type : string) (filenames : list string) (k : string) :
  String.eqb media_type "artwork" = false ->
  OD.get k (media_map_of media_type filenames)
  = last (images_named k filenames)
  /\ (forall f, OD.get k (media_map_of media_type filenames) = Some f ->
        In f filenames /\ PyStr.endswith f ".png" = true
        /\ PyPath.stem f = k)
  /\ List.NoDup (OD.keys (media_map_of media_type filenames)).
Proof.
  intros Ht.
  assert (E : OD.get k (media_map_of media_type filenames)
              = last (images_named k filenames)).
  { unfold media_map_of. rewrite media_map_loop_get by exact Ht.
    by destruct (last _). }
  split; [exact E|]. split.
  - intros f. rewrite E. intros Hf. apply last_Some in Hf as [l' Hl'].
    assert (Hin : In f (images_named k filenames)).
    { rewrite Hl'. apply in_or_app. right. by left. }
    apply filter_In in Hin as [Hin Hc].
    apply andb_true_iff in Hc as [Hpng Hk].
    by apply String.eqb_eq in Hk.
  - apply media_map_loop_NoDup. constructor.
Qed.

Lemma media_index_maps_stem_to_last_png_witness :
  OD.get "pacman" (media_map_of "snap" ["a/pacman.png"; "readme.txt";
                                        "b/pacman.png"; "galaga.png"])
  = Some "b/pacman.png".
Proof.
  rewrite (proj1 (media_index_maps_stem_to_last_png "snap" _ "pacman" eq_refl)).
  reflexivity.
Defined.

(** ** Invariants of whole runs *)

(** A relation [I] between the state before and after, kept by every step
    of a computation that ends with an outcome in [Q]. *)
Section keeps.
Variable I : State -> State -> Prop.
Hypothesis I_refl : forall s, I s s.
Hypothesis I_trans : forall s1 s2 s3, I s1 s2 -> I s2 s3 -> I s1 s3.

Definition keeps {A} (Q : outcome A -> Prop) (c : M A) : Prop :=
  forall s, I s (fst (c s)) /\ Q (snd (c s)).

Lemma keeps_weaken {A} (Q Q' : outcome A -> Prop) (c : M A) :
  (forall r, Q r -> Q' r) -> keeps Q c -> keeps Q' c.
Proof. intros HQ Hc s. destruct (Hc s). auto. Qed.

Lemma keeps_ret {A} (a : A) : keeps is_ret (ret a).
Proof. intros s. simpl. auto. Qed.

Lemma keeps_raise {A} (e : string) : keeps (@not_exit A) (raise e).
Proof. intros s. simpl. auto. Qed.

Lemma keeps_bind {A B} (Q : outcome B -> Prop) (c : M A) (k : A -> M B) :
  keeps not_exit c ->
  (forall a, keeps Q (k a)) ->
  (forall e, Q (Raise e)) ->
  keeps Q (c ≫= k).
Proof.
  intros Hc Hk HQ s. unfold mbind, M_bind, bind.
  destruct (Hc s) as [H1 H2].
  destruct (c s) as [s1 [a|e|n]]; simpl in *.
  - destruct (Hk a s1) as [K1 K2]. eauto.
  - auto.
  - destruct H2.
Qed.

Lemma keeps_bind_ret {A B} (Q : outcome B -> Prop) (c : M A) (k : A -> M B) :
  keeps is_ret c ->
  (forall a, keeps Q (k a)) ->
  keeps Q (c ≫= k).
Proof.
  intros Hc Hk s. unfold mbind, M_bind, bind.
  destruct (Hc s) as [H1 H2].
  destruct (c s) as [s1 [a|e|n]]; simpl in *; try destruct H2.
  destruct (Hk a s1) as [K1 K2]. eauto.
Qed.

Lemma keeps_try_except {A} (Q : outcome A -> Prop) (c : M A)
    (h : string -> M A) :
  keeps not_exit c ->
  (forall e, keeps Q (h e)) ->
  (forall a, Q (Ret a)) ->
  keeps Q (try_except c h).
Proof.
  intros Hc Hh HQ s. unfold try_except.
  destruct (Hc s) as [H1 H2].
  destruct (c s) as [s1 [a|e|n]]; simpl in *.
  - auto.
  - destruct (Hh e s1) as [K1 K2]. eauto.
  - destruct H2.
Qed.

Lemma keeps_for_each {B} (l : list B) (body : B -> M unit) :
  (forall b, keeps not_exit (body b)) ->
  keeps not_exit (for_each l body).
Proof.
  intros Hb. induction l as [|b l IH]; simpl.
  - apply (keeps_weaken is_ret); [apply @is_ret_not_exit | apply keeps_ret].
  - apply keeps_bind; [apply Hb | intros _; exact IH | done].
Qed.

Lemma keeps_for_each_ret {B} (l : list B) (body : B -> M unit) :
  (forall b, keeps is_ret (body b)) ->
  keeps is_ret (for_each l body).
Proof.
  intros Hb. induction l as [|b l IH]; simpl.
  - apply keeps_ret.
  - apply keeps_bind_ret; [apply Hb | intros _; exact IH].
Qed.

Lemma keeps_get_fs : keeps is_ret get_fs.
Proof. intros s. simpl. auto. Qed.

Lemma keeps_get_processed : keeps is_ret get_processed.
Proof. intros s. simpl. auto. Qed.

Lemma keeps_not_exit {A} (c : M A) : keeps is_ret c -> keeps not_exit c.
Proof. apply keeps_weaken, @is_ret_not_exit. Qed.

(** *** The methods that honour [dry_run] *)

Section methods.
Variable self : MameToBatocera.
Hypothesis H_log : forall message level, keeps is_ret (log self message level).
Hypothesis H_processed : forall p, keeps is_ret (put_processed p).
Hypothesis H_put : dry_run self = false -> forall f, keeps is_ret (put_fs f).

Lemma dry_run_cases : dry_run self = true \/ dry_run self = false.
Proof. destruct (dry_run self); auto. Qed.

(** A primitive reads the file system and then, on every branch, raises,
    returns or stores a file system. *)
Ltac primitive put :=
  apply keeps_bind_ret; [apply keeps_get_fs|]; intros ?; cbv zeta;
  repeat match goal with
         | |- context [match ?x with _ => _ end] => destruct x
         end;
  first [apply keeps_raise | apply keeps_not_exit, keeps_ret
        | apply keeps_not_exit; put].

Lemma keeps_zip_open (zip_path : string) : keeps not_exit (FS.zip_open zip_path).
Proof. primitive ltac:(fail). Qed.

Lemma keeps_et_parse (p : string) : keeps not_exit (FS.et_parse p).
Proof.
  apply keeps_bind_ret; [apply keeps_get_fs|]. intros f.
  destruct (OD.get p f) as [[|d|ms]|]; try apply keeps_raise.
  destruct (xml d); (apply keeps_raise || apply keeps_not_exit, keeps_ret).
Qed.

Lemma keeps_zip_extract (members : list (string * FileData)) (member dest : string) :
  dry_run self = false ->
  keeps not_exit (FS.zip_extract members member dest).
Proof.
  intros Hd. unfold FS.zip_extract.
  destruct (FS.zip_member member members) as [d|]; [|apply keeps_raise].
  primitive ltac:(apply (H_put Hd)).
Qed.

Lemma keeps_copy2 (src dst : string) :
  dry_run self = false -> keeps not_exit (FS.copy2 src dst).
Proof.
  intros Hd. primitive ltac:(apply (H_put Hd)).
Qed.

Lemma keeps_unlink (p : string) :
  dry_run self = false -> keeps not_exit (FS.unlink p).
Proof.
  intros Hd. primitive ltac:(apply (H_put Hd)).
Qed.

Lemma keeps_rmtree (p : string) :
  dry_run self = false -> keeps not_exit (FS.rmtree p).
Proof.
  intros Hd. primitive ltac:(apply (H_put Hd)).
Qed.

Lemma keeps_write_file (p : string) (d : FileData) :
  dry_run self = false -> keeps not_exit (FS.write_file p d).
Proof.
  intros Hd. primitive ltac:(apply (H_put Hd)).
Qed.


Lemma keeps_extract_media_from_zip (zip_path media_type : string) :
  keeps is_ret (extract_media_from_zip self zip_path media_type).
Proof.
  apply keeps_try_except; [| |done].
  - apply keeps_bind; [apply keeps_zip_open| |done]. intros members.
    apply keeps_bind; [apply keeps_not_exit, H_log| |done].
    intros _. apply keeps_not_exit, keeps_ret.
  - intros e. apply keeps_bind_ret; [apply H_log|]. intros _. apply keeps_ret.
Qed.

Lemma keeps__extract_media_files (zip_path : string) (media_map : odict string)
    (dest_dir : string) :
  keeps is_ret (_extract_media_files self zip_path media_map dest_dir).
Proof.
  apply keeps_try_except; [| |done].
  - apply keeps_bind; [apply keeps_zip_open| |done]. intros members.
    apply keeps_for_each. intros [rom_name filename]. cbn [fst snd].
    destruct dry_run_cases as [Hd|Hd]; rewrite Hd;
      [apply keeps_not_exit, H_log|].
    apply keeps_bind; [by apply keeps_zip_extract| |done]. intros _.
    apply keeps_bind_ret; [apply keeps_get_fs|]. intros f.
    destruct (FS.exists_ _ f); [|apply keeps_not_exit, keeps_ret].
    apply keeps_bind; [by apply keeps_copy2| |done]. intros _.
    apply keeps_bind; [apply keeps_not_exit, H_log| |done]. intros _.
    by apply keeps_unlink.
  - intros e. apply H_log.
Qed.

Lemma keeps_artwork_loop (members : list (string * FileData))
    (items : list (string * string)) (marquee_map : odict string) (s : State) :
  I s (fst (artwork_loop self members items marquee_map s)).
Proof.
  revert marquee_map s.
  induction items as [|[rom_name filename] items IH]; intros marquee_map s;
    [apply I_refl|].
  cbn [artwork_loop].
  destruct (PyStr.contains "_marquee" rom_name); [|apply IH].
  destruct dry_run_cases as [Hd|Hd]; rewrite Hd.
  - match goal with
    | |- context [log self ?m ?l s] =>
        destruct (H_log m l s) as [H1 _]; destruct (log self m l s) as [s1 r]
    end.
    simpl in H1. eapply I_trans; [exact H1 | apply IH].
  - destruct (keeps_zip_extract members filename (extract_temp self) Hd s)
      as [H1 _].
    destruct (FS.zip_extract members filename (extract_temp self) s)
      as [s1 [[]|e|n]]; simpl in H1; try exact H1.
    destruct (FS.exists_ _ (fs s1)); [|eapply I_trans; [exact H1 | apply IH]].
    match goal with
    | |- context [mbind ?k ?c0 s1] =>
        assert (Hc : keeps not_exit (mbind k c0));
        [|destruct (Hc s1) as [H2 _];
          destruct (mbind k c0 s1) as [s2 [[]|e|n]]]
    end.
    { apply keeps_bind; [by apply keeps_copy2| |done]. intros _.
      apply keeps_bind; [apply keeps_not_exit, H_log| |done]. intros _.
      by apply keeps_unlink. }
    + simpl in H2. eapply I_trans; [exact H1|].
      eapply I_trans; [exact H2 | apply IH].
    + simpl in *. eapply I_trans; eauto.
    + simpl in *. eapply I_trans; eauto.
Qed.

Lemma keeps__extract_artwork_media (zip_path : string)
    (artwork_map marquee_map : odict string) :
  keeps is_ret (_extract_artwork_media self zip_path artwork_map marquee_map).
Proof.
  intros s. unfold _extract_artwork_media.
  destruct (keeps_zip_open zip_path s) as [H1 H2].
  destruct (FS.zip_open zip_path s) as [s1 [members|e|n]]; simpl in H1, H2.
  - pose proof (keeps_artwork_loop members artwork_map marquee_map s1) as H3.
    destruct (artwork_loop self members artwork_map marquee_map s1)
      as [s2 [mm [e|]]]; simpl in H3.
    + match goal with
      | |- context [mbind ?k ?c0 s2] =>
          assert (Hc : keeps is_ret (mbind k c0));
          [|destruct (Hc s2) as [H4 H5]; split; [|exact H5]]
      end.
      { apply keeps_bind_ret; [apply H_log|]. intros _. apply keeps_ret. }
      eapply I_trans; [exact H1|]. eapply I_trans; [exact H3 | exact H4].
    + simpl. split; [|exact Logic.I]. eapply I_trans; eauto.
  - match goal with
    | |- context [mbind ?k ?c0 s1] =>
        assert (Hc : keeps is_ret (mbind k c0));
        [|destruct (Hc s1) as [H4 H5]; split; [|exact H5]]
    end.
    { apply keeps_bind_ret; [apply H_log|]. intros _. apply keeps_ret. }
    eapply I_trans; eauto.
  - destruct H2.
Qed.

Lemma keeps_get_media_from_extras :
  keeps is_ret (get_media_from_extras self).
Proof.
  unfold get_media_from_extras.
  apply keeps_bind_ret; [apply keeps_get_fs|]. intros f1.
  apply keeps_bind_ret.
  { destruct (FS.exists_ _ f1); [|apply keeps_ret].
    apply keeps_bind_ret; [apply keeps_extract_media_from_zip|]. intros m.
    apply keeps_bind_ret; [apply keeps__extract_media_files|]. intros _.
    apply keeps_ret. }
  intros snap_map.
  apply keeps_bind_ret; [apply keeps_get_fs|]. intros f2.
  apply keeps_bind_ret.
  { destruct (FS.exists_ _ f2); [|apply keeps_ret].
    apply keeps_bind_ret; [apply keeps_extract_media_from_zip|]. intros m.
    apply keeps_bind_ret; [apply keeps__extract_media_files|]. intros _.
    apply keeps_ret. }
  intros flyer_map.
  apply keeps_bind_ret; [apply keeps_get_fs|]. intros f3.
  apply keeps_bind_ret.
  { destruct (FS.exists_ _ f3); [|apply keeps_ret].
    apply keeps_bind_ret; [apply keeps_extract_media_from_zip|]. intros m.
    apply keeps__extract_artwork_media. }
  intros marquee_map. apply keeps_ret.
Qed.

Lemma keeps_load_existing_gamelist :
  keeps is_ret (load_existing_gamelist self).
Proof.
  apply keeps_bind_ret; [apply keeps_get_fs|]. intros f.
  destruct (_ || _); [apply keeps_ret|].
  apply keeps_try_except; [| |done].
  - apply keeps_bind; [apply keeps_et_parse| |done]. intros root.
    apply keeps_bind; [apply keeps_not_exit, H_log| |done].
    intros _. apply keeps_not_exit, keeps_ret.
  - intros e. apply keeps_bind_ret; [apply H_log|]. intros _. apply keeps_ret.
Qed.

Lemma keeps_generate_gamelist (merged_games : catalog)
    (snap_map flyer_map marquee_map : odict string) :
  keeps not_exit
    (generate_gamelist self merged_games snap_map flyer_map marquee_map).
Proof.
  apply keeps_bind_ret; [apply keeps_load_existing_gamelist|].
  intros existing_games.
  apply keeps_bind_ret; [apply keeps_get_processed|]. intros processed.
  destruct (gamelist_tree _ _ _ _ _ _ _) as [[gamelist_root processed'] preserved].
  apply keeps_bind_ret; [apply H_processed|]. intros _.
  apply keeps_bind_ret.
  { apply keeps_for_each_ret. intros b. apply H_log. }
  intros _. destruct dry_run_cases as [Hd|Hd]; rewrite Hd.
  - apply keeps_bind_ret; [apply H_log|]. intros _.
    apply keeps_not_exit, H_log.
  - apply keeps_bind; [by apply keeps_write_file| |done]. intros _.
    apply keeps_not_exit, H_log.
Qed.

Lemma keeps_cleanup : keeps not_exit (cleanup self).
Proof.
  apply keeps_bind_ret; [apply keeps_get_fs|]. intros f.
  destruct dry_run_cases as [Hd|Hd]; rewrite Hd.
  - rewrite andb_false_r. apply keeps_not_exit, keeps_ret.
  - destruct (_ && _); [|apply keeps_not_exit, keeps_ret].
    apply keeps_bind; [by apply keeps_rmtree| |done]. intros _.
    apply keeps_not_exit, H_log.
Qed.

(** *** The steps that write whether or not [dry_run] is set *)

Section run.
Hypothesis H_put_any : forall f, keeps is_ret (put_fs f).










End run.
End methods.


End keeps.

(** ** What a whole run prints and how it ends *)























(** ** The dry run after the catalogs are extracted *)

(** The file system is as before. *)
Definition same_files (s s' : State) : Prop := fs s' = fs s.

Lemma same_files_refl s : same_files s s.
Proof. reflexivity. Qed.

Lemma same_files_trans s1 s2 s3 :
  same_files s1 s2 -> same_files s2 s3 -> same_files s1 s3.
Proof. unfold same_files. congruence. Qed.

Lemma same_files_log self message level :
  keeps same_files is_ret (log self message level).
Proof. intros s. rewrite log_run. split; [reflexivity | exact I]. Qed.

Lemma same_files_put_processed p : keeps same_files is_ret (put_processed p).
Proof. intros s. split; [reflexivity | exact I]. Qed.

(** X11: with [dry_run] set, the media step, the generation step and the
    cleanup leave the file system exactly as it is: the writes of a dry
    run come from the constructor and from the extraction of the catalogs
    only. *)
Theorem dry_run_steps_write_nothing (self : MameToBatocera) (s : State) :
  dry_run self = true ->
  fs (fst (get_media_from_extras self s)) = fs s
  /\ (forall merged_games snap_map flyer_map marquee_map,
        fs (fst (generate_gamelist self merged_games snap_map flyer_map
                   marquee_map s)) = fs s)
  /\ fs (fst (cleanup self s)) = fs s.
Proof.
  intros Hdry.
  assert (Hput : dry_run self = false ->
                 forall f, keeps same_files is_ret (put_fs f)).
  { rewrite Hdry. discriminate. }
  split; [|split].
  - apply (keeps_get_media_from_extras same_files same_files_refl
             same_files_trans self (same_files_log self) Hput s).
  - intros merged_games snap_map flyer_map marquee_map.
    apply (keeps_generate_gamelist same_files same_files_refl
             same_files_trans self (same_files_log self)
             same_files_put_processed Hput merged_games snap_map flyer_map
             marquee_map s).
  - apply (keeps_cleanup same_files same_files_refl same_files_trans self
             (same_files_log self) Hput s).
Qed.

Lemma dry_run_steps_write_nothing_witness :
  fs (fst (get_media_from_extras (plain_self true) fresh_world))
  = fs fresh_world.
Proof.
  exact (proj1 (dry_run_steps_write_nothing (plain_self true) fresh_world
                  eq_refl)).
Defined.

(** ** Single steps of the run *)

Lemma log_lines_error self message :
  log_lines self message "ERROR" = ["[ERROR] " ++ message].
Proof.
  unfold log_lines. change (String.eqb "ERROR" "ERROR") with true.
  by rewrite orb_true_r.
Qed.

Lemma log_lines_warning self message :
  log_lines self message "WARNING" = ["[WARNING] " ++ message].
Proof.
  unfold log_lines. change (String.eqb "WARNING" "WARNING") with true.
  by rewrite orb_true_r.
Qed.

(** X12: the catalog parser never raises and never writes: it returns the
    catalog of the file's root element when the file parses, printing one
    line per stored machine when verbose; when the file is missing, a
    directory or not XML, it prints one [ERROR] line and returns the empty
    catalog. *)
Theorem catalog_parser_never_raises (self : MameToBatocera)
    (xml_path : string) (s : State) :
  exists lines,
    parse_dat_xml self xml_path s
    = (emit s lines,
       Ret (match file_xml xml_path (fs s) with
            | Some root => parse_dat_root root
            | None => ∅
            end))
    /\ (file_xml xml_path (fs s) = None ->
        exists e, lines = ["[ERROR] Failed to parse DAT XML " ++ xml_path
                           ++ ": " ++ e])
    /\ (forall root, file_xml xml_path (fs s) = Some root ->
          lines = concat (map (fun rom_name =>
                                 log_lines self ("Parsed metadata for "
                                                 ++ rom_name) "INFO")
                              (omap rom_name_of (game_elements root)))).
Proof.
  unfold parse_dat_xml, try_except, FS.et_parse, file_xml, mbind, M_bind,
    bind, get_fs.
  destruct (OD.get xml_path (fs s)) as [[|d|ms]|] eqn:E.
  - unfold raise. rewrite log_run, log_lines_error. eexists.
    split; [reflexivity|]. split; [by eexists | discriminate].
  - destruct (xml d) as [root|].
    + unfold ret at 1. rewrite for_each_log_run. eexists.
      split; [reflexivity|]. split; [discriminate|]. by intros ? [= <-].
    + unfold raise. rewrite log_run, log_lines_error. eexists.
      split; [reflexivity|]. split; [by eexists | discriminate].
  - unfold raise. rewrite log_run, log_lines_error. eexists.
    split; [reflexivity|]. split; [by eexists | discriminate].
  - unfold raise. rewrite log_run, log_lines_error. eexists.
    split; [reflexivity|]. split; [by eexists | discriminate].
Qed.

Lemma catalog_parser_never_raises_witness :
  snd (parse_dat_xml (plain_self false) "missing.xml" chd_only_world) = Ret ∅.
Proof.
  destruct (catalog_parser_never_raises (plain_self false) "missing.xml"
              chd_only_world) as (lines & Hrun & Herr & _).
  destruct (Herr eq_refl) as [e He].
  rewrite Hrun. reflexivity.
Defined.

(** *** [cleanup] *)



(** *** Names directly below a directory *)

Lemma contains_char_app (c : ascii) (a b : string) :
  PyStr.contains (String c "") (a ++ b)
  = PyStr.contains (String c "") a || PyStr.contains (String c "") b.
Proof.
  induction a as [|x a IH].
  - change ("" ++ b) with b. by destruct b.
  - rewrite append_cons, !contains_char_cons, IH. by rewrite orb_assoc.
Qed.

(** A name: one part, no root. *)
Definition is_name (x : string) : Prop :=
  PyPath.parts x = [x] /\ PyPath.root x = "".

Lemma name_of_nosep (x : string) :
  PyStr.contains "/" x = false -> x <> "" -> x <> "." -> is_name x.
Proof.
  intros Hs Hne Hdot. split.
  - unfold PyPath.parts. rewrite (split_nosep "/" x Hs). cbn [List.filter].
    destruct x as [|a x]; [done|]. cbn [PyStr.nonempty andb].
    by apply String.eqb_neq in Hdot as ->.
  - destruct x as [|a x]; [done|]. apply root_cons.
    rewrite contains_char_cons in Hs. apply orb_false_iff in Hs as [Ha _].
    apply Ascii.eqb_neq in Ha. congruence.
Qed.

Lemma parts_join_name (a x : string) :
  is_name x -> PyPath.parts (Path.join a x) = (PyPath.parts a ++ [x])%list.
Proof. intros [Hp Hr]. by rewrite (parts_join a x Hr), Hp. Qed.

(** [(a / x).parent] is [a] for a name [x]. *)
Lemma parent_join (a x : string) :
  is_name x -> Path.parent (Path.join a x) = PyPath.norm a.
Proof.
  intros Hx. unfold Path.parent.
  rewrite (parts_join_name a x Hx), (root_join a x (proj2 Hx)).
  by rewrite removelast_last.
Qed.

Lemma join_ne_dir (a x : string) : is_name x -> Path.join a x <> a.
Proof.
  intros [Hp Hr]. apply below_ne, below_join; [exact Hr|]. by rewrite Hp.
Qed.

Lemma join_name_inj (a x y : string) :
  is_name x -> is_name y -> Path.join a x = Path.join a y -> x = y.
Proof.
  intros Hx Hy H. apply (f_equal PyPath.parts) in H.
  rewrite !parts_join_name in H by done.
  apply app_inv_head in H. by injection H.
Qed.

Lemma endswith_xml_name (x : string) :
  PyStr.endswith x ".xml" = true -> x <> "" /\ x <> "." /\ x <> "..".
Proof. repeat split; intros ->; discriminate. Qed.

Lemma xml_name_plain (x : string) :
  PyStr.contains "/" x = false -> PyStr.endswith x ".xml" = true ->
  is_name x /\ plain_member x = true.
Proof.
  intros Hs Hend. destruct (endswith_xml_name x Hend) as (H1 & H2 & H3).
  pose proof (name_of_nosep x Hs H1 H2) as [Hp Hr]. split; [by split|].
  unfold plain_member, resolved. rewrite Hp, Hr. cbn.
  apply String.eqb_neq in H3. by rewrite H3.
Qed.

Lemma stem_member_name (z x : string) :
  PyStr.contains "/" x = false -> is_name (PyPath.stem z ++ "_" ++ x).
Proof.
  intros Hs. apply name_of_nosep.
  - rewrite !contains_char_app, (stem_nosep z), Hs. reflexivity.
  - destruct (PyPath.stem z); discriminate.
  - destruct (PyPath.stem z) as [|a [|b st]]; discriminate.
Qed.

(** [os.makedirs] leaves what exists. *)
Lemma makedirs_get_Some (p k : string) (n : Node) (f : odict Node) :
  OD.get k f = Some n -> OD.get k (FS.makedirs p f) = Some n.
Proof.
  unfold FS.makedirs. generalize (Path.ancestors p). intros ds.
  revert f. induction ds as [|d ds IH]; intros f Hk; [exact Hk|].
  simpl. apply IH. destruct (FS.exists_ d f) eqn:Hex; [exact Hk|].
  rewrite od_get_set_ne; [exact Hk|]. intros ->.
  unfold FS.exists_, OD.mem in Hex. by rewrite Hk in Hex.
Qed.

(** [os.makedirs] makes nothing but the directories above its target. *)
Lemma makedirs_get_other (p k : string) (f : odict Node) :
  ~ In k (Path.ancestors p) -> OD.get k (FS.makedirs p f) = OD.get k f.
Proof.
  unfold FS.makedirs. generalize (Path.ancestors p). intros ds.
  revert f. induction ds as [|d ds IH]; intros f Hk; [reflexivity|].
  simpl. rewrite IH by (intros H; apply Hk; by right).
  destruct (FS.exists_ d f); [reflexivity|].
  apply od_get_set_ne. intros ->. apply Hk. by left.
Qed.

Lemma ancestors_go_parts (r : string) (pre cs : list string) (a : string) :
  is_root r -> Forall (fun c => clean c = true) (pre ++ cs) ->
  In a (Path.ancestors_go r pre cs) ->
  length (PyPath.parts a) < length pre + length cs.
Proof.
  intros Hr. revert pre. induction cs as [|c cs IH]; intros pre Hclean; [done|].
  destruct cs as [|c' cs']; [done|].
  cbn [Path.ancestors_go]. intros [<-|Hin].
  - rewrite (parts_build r (pre ++ [c]) Hr).
    + rewrite length_app. simpl. lia.
    + apply Forall_app in Hclean as [H1 H2]. apply Forall_cons in H2 as [H2 _].
      apply Forall_app. split; [exact H1 | by constructor].
  - apply IH in Hin.
    + rewrite length_app in Hin. simpl in *. lia.
    + by rewrite <- app_assoc.
Qed.

(** Every directory above a path has fewer parts. *)
Lemma ancestors_parts (p a : string) :
  In a (Path.ancestors p) ->
  length (PyPath.parts a) < length (PyPath.parts p).
Proof.
  intros H.
  apply (ancestors_go_parts (PyPath.root p) [] (PyPath.parts p) a)
    in H; [exact H | apply root_is_root | apply parts_clean].
Qed.

(** *** The primitives, when they succeed *)

(** The state after the file system became [f]. *)
Definition with_fs (s : State) (f : odict Node) : State :=
  mkState f (stdout s) (processed_games s) (mkdtemp_name s).

Lemma zip_open_run (p : string) (members : list (string * FileData)) s :
  OD.get p (fs s) = Some (NZip members) ->
  FS.zip_open p s = (s, Ret members).
Proof.
  intros H. unfold FS.zip_open, mbind, M_bind, bind, get_fs. by rewrite H.
Qed.

(** A file member is extracted into an existing directory, unless a
    directory is in its place. *)
Lemma zip_extract_run (members : list (string * FileData))
    (member dest : string) (d : FileData) s :
  FS.zip_member member members = Some d ->
  PyStr.endswith member "/" = false ->
  let target := FS.extract_target dest member in
  FS.is_dir (Path.parent target) (fs s) = true ->
  FS.is_dir target (fs s) = false ->
  FS.zip_extract members member dest s
  = (with_fs s (OD.set target (NFile d) (FS.makedirs target (fs s))), Ret tt).
Proof.
  intros H1 H2 target H3 H4. unfold FS.zip_extract, mbind, M_bind, bind, get_fs.
  rewrite H1. fold target. by rewrite H3, H2, H4.
Qed.

(** A file is renamed into an existing directory, unless a directory is in
    its place. *)
Lemma rename_run (src dst : string) (d : FileData) s :
  OD.get src (fs s) = Some (NFile d) ->
  FS.is_dir (Path.parent dst) (fs s) = true ->
  FS.is_dir dst (fs s) = false ->
  src <> dst ->
  FS.rename src dst s
  = (with_fs s (OD.set dst (NFile d) (FS.remove src (fs s))), Ret tt).
Proof.
  intros H1 H2 H3 H4. unfold FS.rename, mbind, M_bind, bind, get_fs.
  apply String.eqb_neq in H4. by rewrite H1, H2, H4, H3.
Qed.

Lemma unlink_run (p : string) s :
  FS.is_file p (fs s) = true ->
  FS.unlink p s = (with_fs s (FS.remove p (fs s)), Ret tt).
Proof.
  intros H. unfold FS.unlink, mbind, M_bind, bind, get_fs. by rewrite H.
Qed.

Lemma endswith_xml_not_dir (x : string) :
  PyStr.endswith x ".xml" = true -> PyStr.endswith x "/" = false.
Proof.
  induction x as [|a x IH]; [discriminate|]. cbn [PyStr.endswith].
  intros H. apply orb_true_iff in H as [H|H].
  - apply String.eqb_eq in H. by injection H as -> ->.
  - rewrite (IH H), orb_false_r. apply String.eqb_neq. intros [= _ ->].
    discriminate H.
Qed.

(** *** [extract_xml_from_zip] *)

(** X14: when the archive is missing, is not an archive, or holds no
    member named [*.xml], the extraction returns no path, prints one
    [ERROR] line and changes nothing; it does not raise. *)
Theorem archive_without_xml_gives_no_catalog (self : MameToBatocera)
    (zip_path : string) (s : State) :
  (forall members,
     OD.get zip_path (fs s) = Some (NZip members) ->
     List.filter (fun name => PyStr.endswith name ".xml") (map fst members)
     = []) ->
  exists message,
    extract_xml_from_zip self zip_path s
    = (emit s ["[ERROR] " ++ message], Ret None).
Proof.
  intros Hno.
  unfold extract_xml_from_zip, try_except, FS.zip_open, mbind, M_bind, bind,
    get_fs.
  destruct (OD.get zip_path (fs s)) as [[|d|ms]|] eqn:E.
  - unfold raise. rewrite log_run, log_lines_error. by eexists.
  - unfold raise. rewrite log_run, log_lines_error. by eexists.
  - unfold ret at 1. rewrite (Hno ms eq_refl).
    rewrite log_run, log_lines_error. by eexists.
  - unfold raise. rewrite log_run, log_lines_error. by eexists.
Qed.

Lemma archive_without_xml_gives_no_catalog_witness :
  snd (extract_xml_from_zip (plain_self false) "extras/snap.zip" fresh_world)
  = Ret None.
Proof.
  destruct (archive_without_xml_gives_no_catalog (plain_self false)
              "extras/snap.zip" fresh_world) as [message Hrun].
  - intros members Hm. vm_compute in Hm. injection Hm as <-. reflexivity.
  - by rewrite Hrun.
Defined.

(** X15: from an archive whose first [*.xml] member has a name without
    slash, with the scratch directory present (its path as [pathlib]
    writes it, without [..] step), no directory in the way at
    [<scratch>/<member>] or at [<scratch>/<archive stem>_<member>], and
    the archive itself not at [<scratch>/<member>], the extraction
    returns the path
    [<scratch>/<archive stem>_<member>], which then holds the data of the
    (last) member of that name; the member's own name below the scratch
    directory is free again, and every other path that existed is as it
    was. *)
Theorem xml_catalog_is_extracted (self : MameToBatocera) (zip_path : string)
    (s : State) (members : list (string * FileData))
    (xml_file : string) (others : list string) (d : FileData) :
  let extract_path :=
    Path.join (extract_temp self) (PyPath.stem zip_path ++ "_" ++ xml_file) in
  let member_path := Path.join (extract_temp self) xml_file in
  OD.get zip_path (fs s) = Some (NZip members) ->
  List.filter (fun name => PyStr.endswith name ".xml") (map fst members)
  = xml_file :: others ->
  FS.zip_member xml_file members = Some d ->
  PyStr.contains "/" xml_file = false ->
  Path.of_str (extract_temp self) = extract_temp self ->
  resolved (extract_temp self) = true ->
  FS.is_dir (extract_temp self) (fs s) = true ->
  FS.is_dir member_path (fs s) = false ->
  FS.is_dir extract_path (fs s) = false ->
  zip_path <> member_path ->
  exists s',
    extract_xml_from_zip self zip_path s = (s', Ret (Some extract_path))
    /\ OD.get extract_path (fs s') = Some (NFile d)
    /\ OD.get member_path (fs s') = None
    /\ forall p n, OD.get p (fs s) = Some n ->
         p <> extract_path -> p <> member_path ->
         OD.get p (fs s') = Some n.
Proof.
  intros extract_path member_path Hzip Hxml Hd Hslash Hnorm Hres Hdir
    Hmdir Hedir _.
  assert (Hend : PyStr.endswith xml_file ".xml" = true).
  { assert (Hin : In xml_file
                    (List.filter (fun name => PyStr.endswith name ".xml")
                       (map fst members))) by (rewrite Hxml; by left).
    by apply filter_In in Hin as [_ Hin]. }
  destruct (xml_name_plain xml_file Hslash Hend) as [Hname Hplain].
  pose proof (stem_member_name zip_path xml_file Hslash) as Hname'.
  assert (Hne : member_path <> extract_path).
  { intros H. apply (join_name_inj _ _ _ Hname Hname') in H.
    apply (f_equal String.length) in H.
    rewrite !length_append in H. simpl in H. lia. }
  set (s1 := match others with
             | [] => s
             | _ :: _ =>
                 emit s (log_lines self ("Multiple XML files found in "
                                         ++ zip_path ++ ", using first one")
                                   "WARNING")
             end).
  assert (Hlog : (match others with
                  | [] => ret tt
                  | _ :: _ =>
                      log self ("Multiple XML files found in " ++ zip_path
                                ++ ", using first one") "WARNING"
                  end) s = (s1, Ret tt)).
  { unfold s1. destruct others; [reflexivity | apply log_run]. }
  assert (Hfs1 : fs s1 = fs s) by (unfold s1; by destruct others).
  assert (Htarget : FS.extract_target (extract_temp self) xml_file
                    = member_path).
  { by apply extract_target_join. }
  set (f2 := OD.set member_path (NFile d) (FS.makedirs member_path (fs s1))).
  assert (Hparent : FS.is_dir (Path.parent extract_path) f2 = true).
  { unfold extract_path, f2. rewrite (parent_join _ _ Hname').
    unfold Path.of_str in Hnorm. rewrite Hnorm.
    unfold FS.is_dir in *.
    rewrite od_get_set_ne by (by apply join_ne_dir).
    destruct (OD.get (extract_temp self) (fs s)) as [[| |]|] eqn:E;
      try discriminate Hdir.
    rewrite Hfs1. by rewrite (makedirs_get_Some _ _ _ _ E). }
  assert (Hedir2 : FS.is_dir extract_path f2 = false).
  { unfold f2, FS.is_dir. rewrite od_get_set_ne by exact Hne.
    rewrite Hfs1. unfold FS.is_dir in Hedir.
    rewrite makedirs_get_other; [exact Hedir|].
    intros Hin. apply ancestors_parts in Hin. unfold extract_path, member_path in Hin.
    rewrite !parts_join_name, !length_app in Hin by done. simpl in Hin. lia. }
  exists (with_fs (with_fs s1 f2)
            (OD.set extract_path (NFile d) (FS.remove member_path f2))).
  split; [|split; [|split]].
  - unfold extract_xml_from_zip, try_except.
    erewrite bind_run by (apply zip_open_run; exact Hzip).
    rewrite Hxml.
    erewrite bind_run by exact Hlog.
    erewrite bind_run.
    2:{ apply (zip_extract_run members xml_file (extract_temp self) d).
        - exact Hd.
        - by apply endswith_xml_not_dir.
        - rewrite Htarget. unfold member_path.
          rewrite (parent_join _ _ Hname). unfold Path.of_str in Hnorm.
          by rewrite Hnorm, Hfs1.
        - by rewrite Htarget, Hfs1. }
    rewrite Htarget. fold member_path f2.
    erewrite bind_run.
    2:{ apply (rename_run member_path extract_path d).
        - apply od_get_set_eq.
        - exact Hparent.
        - exact Hedir2.
        - exact Hne. }
    reflexivity.
  - apply od_get_set_eq.
  - cbn [fs with_fs]. rewrite od_get_set_ne by congruence.
    rewrite od_get_remove. by rewrite String.eqb_refl.
  - intros p n Hp Hp1 Hp2. cbn [fs with_fs].
    rewrite od_get_set_ne by congruence.
    rewrite od_get_remove.
    destruct (String.eqb_spec p member_path) as [->|_]; [done|].
    unfold f2. rewrite od_get_set_ne by congruence.
    apply makedirs_get_Some. by rewrite Hfs1.
Qed.

Lemma xml_catalog_is_extracted_witness :
  exists s',
    extract_xml_from_zip (plain_self false) "dats/MAME ROMs.zip"
      (fst (__init__ (plain_args false) fresh_world))
    = (s', Ret (Some "tmp/mame2batocera_0/MAME ROMs_mame.xml"))
    /\ OD.get "tmp/mame2batocera_0/MAME ROMs_mame.xml" (fs s')
       = Some (NFile (mkFile "<datafile/>" (Some rom_catalog))).
Proof.
  destruct (xml_catalog_is_extracted (plain_self false) "dats/MAME ROMs.zip"
              (fst (__init__ (plain_args false) fresh_world))
              [("mame.xml", mkFile "<datafile/>" (Some rom_catalog))]
              "mame.xml" [] (mkFile "<datafile/>" (Some rom_catalog)))
    as (s' & Hrun & Hfile & _); try (vm_compute; reflexivity).
  - discriminate.
  - exists s'. split; [exact Hrun | exact Hfile].
Defined.

(** ** The existing gamelist, as it is loaded *)

(** The [game] elements of [l] stored under the identifier [k]. *)
Definition keyed (k : string) (l : list Element) : list Element :=
  List.filter (fun g => match entry_key g with
                        | Some k' => String.eqb k' k
                        | None => false
                        end) l.

Lemma existing_loop_get (l : list Element) (m : odict Element) (k : string) :
  OD.get k (fold_left existing_step l m)
  = match last (keyed k l) with
    | Some g => Some g
    | None => OD.get k m
    end.
Proof.
  revert m. induction l as [|g l IH]; intros m; [reflexivity|].
  cbn [fold_left keyed List.filter]. rewrite IH. fold (keyed k l).
  rewrite existing_step_key.
  destruct (entry_key g) as [k'|]; [|reflexivity].
  destruct (String.eqb_spec k' k) as [->|Hne].
  - destruct (keyed k l) as [|g' l'] eqn:E.
    + simpl. apply od_get_set_eq.
    + rewrite last_cons_cons.
      destruct (last (g' :: l')) eqn:L; [reflexivity|].
      apply last_None in L. discriminate.
  - destruct (last (keyed k l)); [reflexivity|].
    by apply od_get_set_ne.
Qed.

Lemma existing_loop_NoDup (l : list Element) (m : odict Element) :
  List.NoDup (map fst m) ->
  List.NoDup (map fst (fold_left existing_step l m)).
Proof.
  revert m. induction l as [|g l IH]; intros m Hm; [exact Hm|].
  simpl. apply IH. rewrite existing_step_key.
  destruct (entry_key g); [by apply od_set_NoDup | exact Hm].
Qed.

(** X16: the existing gamelist is indexed by the stem of each [game]
    element's [path] text; elements without [path], or with an empty one,
    are not loaded, and of several elements whose paths have the same stem
    (the same name in two folders or with two extensions) only the last is
    kept.  No identifier is loaded twice. *)
Theorem existing_gamelist_keeps_last_entry_per_stem
    (root : Element) (k : string) :
  OD.get k (existing_of_root root) = last (keyed k (ET.findall "game" root))
  /\ (forall g, OD.get k (existing_of_root root) = Some g ->
        In g (ET.findall "game" root) /\ tag g = "game"
        /\ exists path_elem path_text,
             ET.find "path" g = Some path_elem
             /\ text path_elem = Some path_text
             /\ path_text <> "" /\ PyPath.stem path_text = k)
  /\ List.NoDup (OD.keys (existing_of_root root)).
Proof.
  assert (E : OD.get k (existing_of_root root)
              = last (keyed k (ET.findall "game" root))).
  { unfold existing_of_root. rewrite existing_loop_get. by destruct (last _). }
  split; [exact E|]. split.
  - intros g. rewrite E. intros Hg. apply last_Some in Hg as [l' Hl'].
    assert (Hin : In g (keyed k (ET.findall "game" root))).
    { rewrite Hl'. apply in_or_app. right. by left. }
    apply filter_In in Hin as [Hin Hkey]. split; [exact Hin|]. split.
    { exact (proj1 (List.Forall_forall _ _) (findall_tag "game" root) g Hin). }
    unfold entry_key in Hkey.
    destruct (ET.find "path" g) as [path_elem|]; [|discriminate].
    destruct (text path_elem) as [path_text|] eqn:Htext; [|discriminate].
    destruct path_text as [|c path_text]; [discriminate|].
    apply String.eqb_eq in Hkey. exists path_elem, (String c path_text).
    split; [reflexivity|]. split; [exact Htext|].
    split; [discriminate | exact Hkey].
  - apply existing_loop_NoDup. constructor.
Qed.

Lemma existing_gamelist_keeps_last_entry_per_stem_witness :
  OD.get "pacman"
    (existing_of_root
       (mkElement "gameList" [] None None
          [mkElement "game" [] None None
             [ET.leaf "path" (Some "./pacman.zip"); ET.leaf "name" (Some "A")];
           mkElement "game" [] None None
             [ET.leaf "path" (Some "./sets/pacman.7z");
              ET.leaf "name" (Some "B")]]))
  = Some (mkElement "game" [] None None
            [ET.leaf "path" (Some "./sets/pacman.7z");
             ET.leaf "name" (Some "B")]).
Proof.
  rewrite (proj1 (existing_gamelist_keeps_last_entry_per_stem _ "pacman")).
  reflexivity.
Defined.

(** ** The written document *)

(** X17: pretty-printing is stable: pretty-printing a pretty-printed tree
    gives the same document; and when the root has no tail (as
    [generate_gamelist] builds it), the tags and attribute names are
    plain XML names and the written document holds no control character
    other than tab and line feed, the parser accepts the document, and
    pretty-printing the tree it reads back gives the same document
    again. *)
Theorem pretty_printing_is_stable (e : Element) :
  _prettify_xml (prettify 0 e) = _prettify_xml e
  /\ (tail e = None ->
      ET.plain_names e = true ->
      PyStr.all_chars ET.plain_char (_prettify_xml e) = true ->
      exists back,
        ET.parse_written (prettify 0 e) = Some back
        /\ _prettify_xml back = _prettify_xml e).
Proof.
  split.
  - unfold _prettify_xml, ET.tostring. by rewrite prettify_idempotent.
  - intros Htail _ Hplain. exists (reparse (prettify 0 e)).
    split; [by apply parse_written_plain|].
    unfold _prettify_xml, ET.tostring. f_equal.
    destruct e as [t a x tl [|c cs]]; simpl in Htail; subst tl.
    + change (ET.serialize (reparse_elem (mkElement t a x None []))
              = ET.serialize (mkElement t a x None [])).
      apply serialize_reparse.
    + rewrite <- (serialize_prettify_twice 0 (mkElement t a x None (c :: cs))).
      reflexivity.
Qed.

Lemma pretty_printing_is_stable_witness :
  exists back,
    ET.parse_written (prettify 0 old_gamelist) = Some back
    /\ _prettify_xml back = _prettify_xml old_gamelist.
Proof.
  apply (proj2 (pretty_printing_is_stable old_gamelist)).
  - reflexivity.
  - vm_compute. reflexivity.
  - vm_compute. reflexivity.
Defined.

(** ** The generated gamelist *)

(** X18: the tree a run writes is a [gameList] element holding exactly one
    entry per unified identifier, in ascending order of the identifiers,
    followed by the existing games outside the unified set in the order of
    the existing gamelist (none when merging is disabled or nothing could
    be loaded). *)
Theorem gamelist_is_sorted_entries_then_orphans
    (self : MameToBatocera) (merged_games : catalog)
    (snap_map flyer_map marquee_map : odict string) (s : State) :
  dry_run self = false ->
  processed_games s = ∅ ->
  FS.is_dir (Path.parent (gamelist_path self)) (fs s) = true ->
  FS.is_dir (gamelist_path self) (fs s) = false ->
  let existing_games := loaded_games self (fs s) in
  let ids := sorted_keys merged_games in
  OD.get (gamelist_path self)
    (fs (fst (generate_gamelist self merged_games snap_map flyer_map
                marquee_map s)))
  = Some (NFile (written_gamelist
                   (mkElement "gameList" [] None None
                      (map (fun r =>
                              create_gamelist_entry r
                                (default ∅ (merged_games !! r)) snap_map
                                flyer_map marquee_map
                                (OD.get r existing_games)) ids
                       ++ map snd (orphans_of merged_games existing_games))%list)))
  /\ Sorted String.le ids /\ List.NoDup ids
  /\ (forall r, In r ids <-> is_Some (merged_games !! r))
  /\ (no_merge self = true -> existing_games = []).
Proof.
  intros Hdry Hproc Hparent Hnodir existing_games ids.
  destruct (generate_gamelist_run self merged_games snap_map flyer_map
              marquee_map s Hdry Hproc Hparent Hnodir) as (lines & P & Hrun).
  rewrite Hrun. cbn [fst fs]. rewrite od_get_set_eq, gamelist_root_on_tree.
  split; [reflexivity|].
  split; [apply sorted_keys_sorted|]. split; [apply sorted_keys_NoDup|].
  split; [apply sorted_keys_In|].
  intros Hnm. unfold existing_games, loaded_games.
  by rewrite Hnm, orb_true_r.
Qed.

Lemma gamelist_is_sorted_entries_then_orphans_witness :
  exists entries,
    file_xml "roms/gamelist.xml"
      (fs (fst (generate_gamelist (converter false false) merged_pacman
                  [] [] [] roms_with_gamelist)))
    = Some entries.
Proof.
  destruct (gamelist_is_sorted_entries_then_orphans (converter false false)
              merged_pacman [] [] [] roms_with_gamelist
              eq_refl eq_refl eq_refl eq_refl) as [Hfile _].
  unfold file_xml. change (gamelist_path (converter false false))
    with "roms/gamelist.xml" in Hfile.
  rewrite Hfile. by eexists.
Defined.

(** X19: an existing [gamelist.xml] that does not parse is not an error:
    with merging enabled the loader prints one [WARNING] line and the run
    goes on as if there were no gamelist, so the file is replaced by the
    entries of the unified identifiers alone. *)
Theorem unreadable_gamelist_is_replaced
    (self : MameToBatocera) (merged_games : catalog)
    (snap_map flyer_map marquee_map : odict string) (s : State)
    (content : string) :
  dry_run self = false ->
  no_merge self = false ->
  processed_games s = ∅ ->
  FS.is_dir (Path.parent (gamelist_path self)) (fs s) = true ->
  OD.get (gamelist_path self) (fs s) = Some (NFile (mkFile content None)) ->
  (exists e,
     load_existing_gamelist self s
     = (emit s ["[WARNING] Failed to load existing gamelist.xml: " ++ e],
        Ret []))
  /\ file_bytes (gamelist_path self)
       (fs (fst (generate_gamelist self merged_games snap_map flyer_map
                   marquee_map s)))
     = Some (_prettify_xml
               (mkElement "gameList" [] None None
                  (map (fun r =>
                          create_gamelist_entry r
                            (default ∅ (merged_games !! r)) snap_map
                            flyer_map marquee_map None)
                       (sorted_keys merged_games)))).
Proof.
  intros Hdry Hnm Hproc Hparent Hfile.
  assert (Hnodir : FS.is_dir (gamelist_path self) (fs s) = false).
  { unfold FS.is_dir. by rewrite Hfile. }
  assert (Hloaded : loaded_games self (fs s) = []).
  { unfold loaded_games, FS.exists_, OD.mem. rewrite Hfile, Hnm. reflexivity. }
  split.
  - unfold load_existing_gamelist, FS.exists_, OD.mem.
    erewrite bind_run by reflexivity. rewrite Hfile, Hnm. cbn [negb orb].
    unfold try_except, FS.et_parse, mbind, M_bind, bind, get_fs.
    rewrite Hfile. cbn [xml]. unfold raise.
    rewrite log_run, log_lines_warning. by eexists.
  - destruct (generate_gamelist_run self merged_games snap_map flyer_map
                marquee_map s Hdry Hproc Hparent Hnodir)
      as (lines & P & Hrun).
    rewrite Hrun. cbn [fst fs]. unfold file_bytes.
    rewrite od_get_set_eq, gamelist_root_on_tree, Hloaded.
    unfold written_gamelist, tree_over, orphans_of, entry_over.
    cbn [bytes List.filter map OD.get]. by rewrite app_nil_r.
Qed.

(** A ROM directory whose gamelist is not XML. *)
Definition roms_with_broken_gamelist : State :=
  mkState [("roms", NDir);
           ("roms/gamelist.xml", NFile (mkFile "<gameList><game>" None))]
          [] ∅ "tmp/mame2batocera_0".

Lemma unreadable_gamelist_is_replaced_witness :
  file_bytes "roms/gamelist.xml"
    (fs (fst (generate_gamelist (converter false false) merged_pacman
                [] [] [] roms_with_broken_gamelist)))
  = file_bytes "roms/gamelist.xml"
      (fs (fst (generate_gamelist (converter false false) merged_pacman
                  [] [] [] empty_roms))).
Proof.
  change "roms/gamelist.xml" with (gamelist_path (converter false false)).
  rewrite (proj2 (unreadable_gamelist_is_replaced (converter false false)
                    merged_pacman [] [] [] roms_with_broken_gamelist
                    "<gameList><game>" eq_refl eq_refl eq_refl eq_refl
                    eq_refl)).
  vm_compute. reflexivity.
Defined.
